(** * Calibration updater: a shallow embedding of [script.py]

    The script reads a JSON configuration and a CSV of calibration values,
    overwrites the selected calibration fields of every region of a deep copy
    of the configuration, and writes the copy back.

    - Python strings are sequences of characters with code points below 256.
    - A Python [float] is an IEEE binary64 value, a [spec_float]; the
      conversion [float(s)] of the Python runtime is a parameter [py_float]
      ([None] stands for [ValueError]).
    - A [dict] is an association list in insertion order; [dict_set] is item
      assignment, which keeps the position of a key that is already there.
    - The configuration lives in a heap of mutable objects, so that the
      assignment [region_config[field] = new_value] is an update in place.
    - The input of the loader is the list of lines [csv.reader] splits the
      file into; the input of the merge is a value in a heap.  Reading and
      writing the files, and the interpreter's limits on recursion depth and
      on the digits of an integer literal, are left out. *)

From Stdlib Require Import ZArith String Ascii List Lia.
From Stdlib Require Import Floats.SpecFloat.
From stdpp Require Import base option list strings.

Open Scope string_scope.
Open Scope list_scope.

(** ** Exceptions and results *)

Inductive exn := TypeError | AttributeError | KeyError | ValueError.

Inductive result (A : Type) :=
| Ok (a : A)
| Raise (e : exn).
Arguments Ok {A} a.
Arguments Raise {A} e.

Definition rbind {A B} (r : result A) (f : A -> result B) : result B :=
  match r with
  | Ok a => f a
  | Raise e => Raise e
  end.

(** ** Dictionaries *)

Section Dict.
Context {K V : Type} `{EqDecision K}.

Fixpoint dict_get (k : K) (d : list (K * V)) : option V :=
  match d with
  | [] => None
  | (k', v) :: d' => if decide (k = k') then Some v else dict_get k d'
  end.

(** [d[k] = v] *)
Fixpoint dict_set (k : K) (v : V) (d : list (K * V)) : list (K * V) :=
  match d with
  | [] => [(k, v)]
  | (k', v') :: d' =>
      if decide (k = k') then (k', v) :: d' else (k', v') :: dict_set k v d'
  end.

(** [k in d] *)
Definition dict_mem (k : K) (d : list (K * V)) : bool :=
  match dict_get k d with
  | Some _ => true
  | None => false
  end.

Definition dict_keys (d : list (K * V)) : list K := map fst d.
End Dict.

(** ** Strings *)

Definition pyfloat := spec_float.

(** Truth value of a string: non-empty. *)
Definition truthy (s : string) : bool :=
  match s with
  | EmptyString => false
  | String _ _ => true
  end.

(** [str.isspace] on one character. *)
Definition is_space (c : ascii) : bool :=
  let n := nat_of_ascii c in
  ((9 <=? n)%nat && (n <=? 13)%nat) || ((28 <=? n)%nat && (n <=? 32)%nat)
  || (n =? 133)%nat || (n =? 160)%nat.

Fixpoint lstrip (s : string) : string :=
  match s with
  | EmptyString => EmptyString
  | String c s' => if is_space c then lstrip s' else s
  end.

Definition str_rev (s : string) : string :=
  string_of_list_ascii (rev (list_ascii_of_string s)).

Definition rstrip (s : string) : string := str_rev (lstrip (str_rev s)).

(** [s.strip()] *)
Definition strip (s : string) : string := rstrip (lstrip s).

(** [needle in hay] for two strings: substring test. *)
Fixpoint str_contains (needle hay : string) : bool :=
  String.prefix needle hay ||
  match hay with
  | EmptyString => false
  | String _ hay' => str_contains needle hay'
  end.

(** ** The calibration table loader *)

(** What [csv.DictReader] puts in a row: a cell of the line, [None] (the
    [restval] of a column the line is too short for), or the list of the
    surplus cells of a line that is too long (stored under the key [None]). *)
Inductive cell :=
| CStr (s : string)
| CNone
| CRest (extra : list string).

Definition rowdict := list (option string * cell).

(** [dict(zip(fieldnames, row))], built by successive assignment. *)
Fixpoint zip_set (fieldnames row : list string) (d : rowdict) : rowdict :=
  match fieldnames, row with
  | name :: fieldnames', c :: row' =>
      zip_set fieldnames' row' (dict_set (Some name) (CStr c) d)
  | _, _ => d
  end.

(** One step of [DictReader.__next__] on a non-blank line. *)
Definition dictreader_row (fieldnames row : list string) : rowdict :=
  let d := zip_set fieldnames row [] in
  let lf := length fieldnames in
  let lr := length row in
  if (lf <? lr)%nat then dict_set None (CRest (drop lf row)) d
  else if (lr <? lf)%nat then
    fold_left (fun d key => dict_set (Some key) CNone d) (drop lr fieldnames) d
  else d.

Definition is_blank_line (row : list string) : bool :=
  match row with
  | [] => true
  | _ :: _ => false
  end.

(** The rows [csv.DictReader(f)] yields, given the lines of the file as
    [csv.reader] splits them: the first line holds the field names and blank
    lines are skipped. *)
Definition dictreader (lines : list (list string)) : list rowdict :=
  match lines with
  | [] => []
  | fieldnames :: data =>
      map (dictreader_row fieldnames)
          (filter (fun row => is_blank_line row = false) data)
  end.

Definition table := list (string * list (string * pyfloat)).

Section Loader.
Variable py_float : string -> option pyfloat.

(** The body of the [try]: [Ok None] when the cell is skipped, either
    because it is empty or blank or because [float] raised [ValueError]. *)
Definition cell_value (value : cell) : result (option pyfloat) :=
  match value with
  | CStr s => if truthy s && truthy (strip s) then Ok (py_float s) else Ok None
  | CNone => Ok None
  | CRest [] => Ok None
  | CRest (_ :: _) => Raise AttributeError
  end.

(** One iteration of [for region, value in row.items()]. *)
Definition scan_cell (region_data : list (string * pyfloat))
    (item : option string * cell) : result (list (string * pyfloat)) :=
  match item with
  | (Some region, value) =>
      if truthy region then
        rbind (cell_value value) (fun parsed =>
          match parsed with
          | Some x => Ok (dict_set region x region_data)
          | None => Ok region_data
          end)
      else Ok region_data
  | (None, _) => Ok region_data
  end.

Fixpoint scan_cells (region_data : list (string * pyfloat))
    (items : rowdict) : result (list (string * pyfloat)) :=
  match items with
  | [] => Ok region_data
  | item :: items' =>
      rbind (scan_cell region_data item) (fun rd => scan_cells rd items')
  end.

(** [row.get('', '')] *)
Definition row_label (row : rowdict) : cell :=
  match dict_get (Some "") row with
  | Some c => c
  | None => CStr ""
  end.

(** [if row_label: calibration_data[row_label] = region_data] *)
Definition store_row (calibration_data : table) (label : cell)
    (region_data : list (string * pyfloat)) : result table :=
  match label with
  | CStr s =>
      if truthy s then Ok (dict_set s region_data calibration_data)
      else Ok calibration_data
  | CNone => Ok calibration_data
  | CRest [] => Ok calibration_data
  | CRest (_ :: _) => Raise TypeError
  end.

(** The body of [for row in reader]. *)
Definition process_row (calibration_data : table) (row : rowdict)
    : result table :=
  let label := row_label row in
  rbind (scan_cells [] row) (fun region_data =>
    store_row calibration_data label region_data).

Fixpoint process_rows (calibration_data : table) (rows : list rowdict)
    : result table :=
  match rows with
  | [] => Ok calibration_data
  | row :: rows' =>
      rbind (process_row calibration_data row) (fun t => process_rows t rows')
  end.

(** What the loader prints on the error stream. *)
Inductive loader_message :=
| ErrorReadingCalibration (e : exn).

(** [load_calibration_data], from the lines of the file on.  [Raise]
    stands for the [except Exception] handler, which prints an error and
    calls [sys.exit(1)]. *)
Definition load_calibration_data (lines : list (list string))
    : result table * list loader_message :=
  match process_rows [] (dictreader lines) with
  | Ok t => (Ok t, [])
  | Raise e => (Raise e, [ErrorReadingCalibration e])
  end.
End Loader.

(** A stand-in for [float] on unsigned decimal integer literals, on which it
    agrees with the runtime's conversion; everything else is rejected. *)
Definition digit_value (c : ascii) : option Z :=
  let n := nat_of_ascii c in
  if (48 <=? n)%nat && (n <=? 57)%nat then Some (Z.of_nat (n - 48)) else None.

Fixpoint digits_value (acc : Z) (s : string) : option Z :=
  match s with
  | EmptyString => Some acc
  | String c s' =>
      match digit_value c with
      | Some d => digits_value (10 * acc + d)%Z s'
      | None => None
      end
  end.

Definition float_of_digits (s : string) : option pyfloat :=
  match s with
  | EmptyString => None
  | _ => option_map (fun n => binary_normalize 53 1024 n 0 false)
                    (digits_value 0 s)
  end.

(** ** Documents *)

(** The tree a JSON text denotes. *)
#[local] Unset Elimination Schemes.
Inductive json :=
| JNull
| JBool (b : bool)
| JInt (n : Z)
| JFloat (x : pyfloat)
| JStr (s : string)
| JArr (elems : list json)
| JObj (members : list (string * json)).
#[local] Set Elimination Schemes.

(** Python values: scalars are immutable, a [dict] or [list] is a reference
    to a mutable object of the heap. *)
Definition loc := nat.

Inductive val :=
| VNone
| VBool (b : bool)
| VInt (n : Z)
| VFloat (x : pyfloat)
| VStr (s : string)
| VRef (l : loc).

Inductive obj :=
| ODict (items : list (string * val))
| OList (elems : list val).

Abbreviation heap := (list obj).

(** Threading of an allocator through the elements of a list and through
    the members of an object. *)
Section Thread.
Context {A B S : Type} (f : A -> S -> B * S).

Fixpoint thread (xs : list A) (s : S) : list B * S :=
  match xs with
  | [] => ([], s)
  | x :: xs' =>
      let '(y, s1) := f x s in
      let '(ys, s2) := thread xs' s1 in
      (y :: ys, s2)
  end.

End Thread.

(** [json.loads]: every array and object of the text becomes a new object
    of the heap, allocated once its components are. *)
Fixpoint loads (j : json) (h : heap) : val * heap :=
  match j with
  | JNull => (VNone, h)
  | JBool b => (VBool b, h)
  | JInt n => (VInt n, h)
  | JFloat x => (VFloat x, h)
  | JStr s => (VStr s, h)
  | JArr elems =>
      let '(vs, h') := thread loads elems h in
      (VRef (length h'), h' ++ [OList vs])
  | JObj members =>
      let '(items, h') :=
        thread (fun kj h => let '(v, h') := loads (snd kj) h in ((fst kj, v), h'))
               members h in
      (VRef (length h'), h' ++ [ODict items])
  end.

(** [json.dumps], bounded by [fuel] nested containers. *)
Fixpoint dumps_fuel (fuel : nat) (h : heap) (v : val) : option json :=
  match v with
  | VNone => Some JNull
  | VBool b => Some (JBool b)
  | VInt n => Some (JInt n)
  | VFloat x => Some (JFloat x)
  | VStr s => Some (JStr s)
  | VRef l =>
      match fuel with
      | O => None
      | S fuel' =>
          match h !! l with
          | Some (OList elems) => JArr <$> mapM (dumps_fuel fuel' h) elems
          | Some (ODict items) =>
              JObj <$> mapM (fun kv => pair (fst kv) <$> dumps_fuel fuel' h (snd kv))
                            items
          | None => None
          end
      end
  end.

(** [json.dumps(v)]: a heap of [n] objects nests containers at most [n]
    deep unless a container contains itself, which [json.dumps] refuses
    ([None], a [ValueError]).  [dumps_reads] below shows that the bound is
    never met by a value that reads as a tree.  The limits of the
    interpreter (the depth of recursion, the number of digits of an int it
    converts) are left out: an int is written whatever its size. *)
Definition dumps (h : heap) (v : val) : option json :=
  dumps_fuel (S (length h)) h v.

(** ** The merge engine *)

(** What the merge prints: the change records on the output stream and the
    warnings on the error stream.  The type of the old value is a parameter:
    a [val] for the program, a [json] for its functional specification. *)
Inductive message (A : Type) :=
| Updated (region_name field : string) (old_value : A) (new_value : pyfloat)
| WarnNoRegions
| WarnFieldNotFound (field region_name : string).
Arguments Updated {A} region_name field old_value new_value.
Arguments WarnNoRegions {A}.
Arguments WarnFieldNotFound {A} field region_name.

Definition is_warning {A} (m : message A) : bool :=
  match m with
  | Updated _ _ _ _ => false
  | WarnNoRegions | WarnFieldNotFound _ _ => true
  end.

Record state := State { st_heap : heap; st_out : list (message val) }.

(** Computations that read and update the heap, print, and may raise. *)
Definition M (A : Type) : Type := state -> result A * state.

#[export] Instance M_ret : MRet M := fun A a st => (Ok a, st).
#[export] Instance M_bind : MBind M := fun A B f c st =>
  match c st with
  | (Ok a, st') => f a st'
  | (Raise e, st') => (Raise e, st')
  end.

Definition raise {A} (e : exn) : M A := fun st => (Raise e, st).
Definition print (m : message val) : M unit := fun st =>
  (Ok tt, State (st_heap st) (st_out st ++ [m])).
Definition get_heap : M heap := fun st => (Ok (st_heap st), st).
Definition lift {A} (r : result A) : M A := fun st => (r, st).

(** [for x in xs: body(x)] *)
Fixpoint for_ {A} (xs : list A) (body : A -> M unit) : M unit :=
  match xs with
  | [] => mret tt
  | x :: xs' => body x ;; for_ xs' body
  end.

Definition val_is_str (k : string) (v : val) : bool :=
  match v with
  | VStr s => bool_decide (s = k)
  | _ => false
  end.

(** [k in v] for a string [k]: key of a dict, element of a list, substring
    of a string; anything else is not iterable. *)
Definition py_contains (h : heap) (k : string) (v : val) : result bool :=
  match v with
  | VRef l =>
      match h !! l with
      | Some (ODict items) => Ok (dict_mem k items)
      | Some (OList elems) => Ok (existsb (val_is_str k) elems)
      | None => Raise TypeError
      end
  | VStr s => Ok (str_contains k s)
  | _ => Raise TypeError
  end.

(** [v[k]] for a string [k]. *)
Definition py_getitem (h : heap) (v : val) (k : string) : result val :=
  match v with
  | VRef l =>
      match h !! l with
      | Some (ODict items) =>
          match dict_get k items with
          | Some x => Ok x
          | None => Raise KeyError
          end
      | _ => Raise TypeError
      end
  | _ => Raise TypeError
  end.

(** [v.items()] *)
Definition py_items (h : heap) (v : val) : result (list (string * val)) :=
  match v with
  | VRef l =>
      match h !! l with
      | Some (ODict items) => Ok items
      | _ => Raise AttributeError
      end
  | _ => Raise AttributeError
  end.

(** [v[k] = x] for a string [k]: the dict [v] is updated in place. *)
Definition py_setitem (v : val) (k : string) (x : val) : M unit := fun st =>
  match v with
  | VRef l =>
      match st_heap st !! l with
      | Some (ODict items) =>
          (Ok tt, State (<[l := ODict (dict_set k x items)]> (st_heap st)) (st_out st))
      | _ => raise TypeError st
      end
  | _ => raise TypeError st
  end.

(** [json.loads(json.dumps(config))] *)
Definition deep_copy (config : val) : M val := fun st =>
  match dumps (st_heap st) config with
  | Some j =>
      let '(v, h') := loads j (st_heap st) in
      (Ok v, State h' (st_out st))
  | None => raise ValueError st
  end.

Section Merge.
Variable calibration_data : table.

(** The body of [for field in calibration_fields].  The two tests on the
    table and the later [calibration_data[field][region_name]] are one
    lookup each here. *)
Definition update_field (region_name : string) (region_config : val)
    (field : string) : M unit :=
  match dict_get field calibration_data with
  | Some field_data =>
      match dict_get region_name field_data with
      | Some new_value =>
          h ← get_heap;
          found ← lift (py_contains h field region_config);
          if (found : bool) then
            old_value ← lift (py_getitem h region_config field);
            py_setitem region_config field (VFloat new_value);;
            print (Updated region_name field old_value new_value)
          else print (WarnFieldNotFound field region_name)
      | None => mret tt
      end
  | None => mret tt
  end.

(** The body of [for region_name, region_config in ...items()]. *)
Definition update_region (calibration_fields : list string)
    (entry : string * val) : M unit :=
  for_ calibration_fields (update_field (fst entry) (snd entry)).

(** [update_config_with_calibration].  [regions.items()] is a view of the
    dict; the loop assigns to the region dicts only, never to [regions]
    itself, so the entries it goes through are those the dict had when the
    loop started, and each [region_config] is a reference through which the
    loop body sees the region as it is at that time. *)
Definition update_config_with_calibration (config : val)
    (calibration_fields : list string) : M val :=
  updated_config ← deep_copy config;
  h ← get_heap;
  has_regions ← lift (py_contains h "regions" updated_config);
  if (has_regions : bool) then
    regions ← lift (py_getitem h updated_config "regions");
    entries ← lift (py_items h regions);
    for_ entries (update_region calibration_fields);;
    mret updated_config
  else
    print WarnNoRegions;;
    mret updated_config.
End Merge.

(** The merge started on a heap, with nothing printed yet. *)
Definition run_merge (t : table) (h : heap) (config : val)
    (calibration_fields : list string) : result val * state :=
  update_config_with_calibration t config calibration_fields (State h []).

(** ** The merge as a function on trees

    What the merge computes, read off the JSON trees: the result (the merged
    tree, or the exception) and what is printed. *)

Definition json_is_str (k : string) (j : json) : bool :=
  match j with
  | JStr s => bool_decide (s = k)
  | _ => false
  end.

Definition json_contains (k : string) (j : json) : result bool :=
  match j with
  | JObj members => Ok (dict_mem k members)
  | JArr elems => Ok (existsb (json_is_str k) elems)
  | JStr s => Ok (str_contains k s)
  | _ => Raise TypeError
  end.

Definition json_getitem (j : json) (k : string) : result json :=
  match j with
  | JObj members =>
      match dict_get k members with
      | Some x => Ok x
      | None => Raise KeyError
      end
  | _ => Raise TypeError
  end.

Definition json_items (j : json) : result (list (string * json)) :=
  match j with
  | JObj members => Ok members
  | _ => Raise AttributeError
  end.

Definition json_setitem (j : json) (k : string) (x : json) : result json :=
  match j with
  | JObj members => Ok (JObj (dict_set k x members))
  | _ => Raise TypeError
  end.

Section MergeJson.
Variable calibration_data : table.

Definition merge_field (region_name : string) (region_config : json)
    (field : string) : result json * list (message json) :=
  match dict_get field calibration_data with
  | Some field_data =>
      match dict_get region_name field_data with
      | Some new_value =>
          match json_contains field region_config with
          | Ok true =>
              match json_getitem region_config field with
              | Ok old_value =>
                  match json_setitem region_config field (JFloat new_value) with
                  | Ok updated =>
                      (Ok updated, [Updated region_name field old_value new_value])
                  | Raise e => (Raise e, [])
                  end
              | Raise e => (Raise e, [])
              end
          | Ok false => (Ok region_config, [WarnFieldNotFound field region_name])
          | Raise e => (Raise e, [])
          end
      | None => (Ok region_config, [])
      end
  | None => (Ok region_config, [])
  end.

Fixpoint merge_fields (region_name : string) (region_config : json)
    (calibration_fields : list string) : result json * list (message json) :=
  match calibration_fields with
  | [] => (Ok region_config, [])
  | field :: fields' =>
      match merge_field region_name region_config field with
      | (Ok region_config', out) =>
          let '(r, out') := merge_fields region_name region_config' fields' in
          (r, out ++ out')
      | (Raise e, out) => (Raise e, out)
      end
  end.

Fixpoint merge_regions (calibration_fields : list string)
    (regions : list (string * json))
    : result (list (string * json)) * list (message json) :=
  match regions with
  | [] => (Ok [], [])
  | (region_name, region_config) :: regions' =>
      match merge_fields region_name region_config calibration_fields with
      | (Ok region_config', out) =>
          let '(r, out') := merge_regions calibration_fields regions' in
          (rbind r (fun rs => Ok ((region_name, region_config') :: rs)), out ++ out')
      | (Raise e, out) => (Raise e, out)
      end
  end.

Definition merge_json (calibration_fields : list string) (config : json)
    : result json * list (message json) :=
  match json_contains "regions" config with
  | Ok true =>
      match json_getitem config "regions" with
      | Ok regions =>
          match json_items regions with
          | Ok entries =>
              let '(r, out) := merge_regions calibration_fields entries in
              (rbind r (fun entries' =>
                 json_setitem config "regions" (JObj entries')), out)
          | Raise e => (Raise e, [])
          end
      | Raise e => (Raise e, [])
      end
  | Ok false => (Ok config, [WarnNoRegions])
  | Raise e => (Raise e, [])
  end.
End MergeJson.

(** ** Representation of a tree in the heap *)

(** Two heaps that hold the same objects at the locations of [lo, hi). *)
Definition agree (lo hi : nat) (h h' : heap) : Prop :=
  forall l : nat, lo <= l < hi -> h' !! l = h !! l.

Section Owned.
Context {A B : Type} (P : A -> nat -> nat -> B -> Prop).

(** The components of a container own consecutive ranges of locations. *)
Fixpoint owns_seq (xs : list A) (lo hi : nat) (ys : list B) : Prop :=
  match xs, ys with
  | [], [] => lo = hi
  | x :: xs', y :: ys' => exists mid, P x lo mid y /\ owns_seq xs' mid hi ys'
  | _, _ => False
  end.

End Owned.

(** [owns h j lo hi v]: in the heap [h] the value [v] is a tree of objects
    that reads as [j], all of them at locations of [lo, hi), the components
    of every container in ranges of their own below the container. *)
Fixpoint owns (h : heap) (j : json) (lo hi : nat) (v : val) : Prop :=
  match j with
  | JNull => v = VNone /\ lo <= hi
  | JBool b => v = VBool b /\ lo <= hi
  | JInt n => v = VInt n /\ lo <= hi
  | JFloat x => v = VFloat x /\ lo <= hi
  | JStr s => v = VStr s /\ lo <= hi
  | JArr elems =>
      exists l vs, v = VRef l /\ l < hi /\ h !! l = Some (OList vs)
                   /\ owns_seq (owns h) elems lo l vs
  | JObj members =>
      exists l items, v = VRef l /\ l < hi /\ h !! l = Some (ODict items)
                      /\ owns_seq (fun kj lo hi kv =>
                            fst kj = fst kv /\ owns h (snd kj) lo hi (snd kv))
                          members lo l items
  end.

(** A member of an object and the item of the dict that represents it. *)
Definition owns_member (h : heap) (kj : string * json) (lo hi : nat)
    (kv : string * val) : Prop :=
  fst kj = fst kv /\ owns h (snd kj) lo hi (snd kv).

(** Nesting of containers. *)
Fixpoint depth (j : json) : nat :=
  match j with
  | JArr elems => S (fold_right (fun e n => Nat.max (depth e) n) 0 elems)
  | JObj members => S (fold_right (fun kv n => Nat.max (depth (snd kv)) n) 0 members)
  | _ => 0
  end.

(** ** Reading a value as a tree *)

Section All2.
Context {A B : Type} (P : A -> B -> Prop).

Fixpoint all2 (xs : list A) (ys : list B) : Prop :=
  match xs, ys with
  | [], [] => True
  | x :: xs', y :: ys' => P x y /\ all2 xs' ys'
  | _, _ => False
  end.
End All2.

(** [reads h j v]: in the heap [h] the value [v] reads as the tree [j].
    Objects may be shared; no container is inside itself, since [j] is a
    finite tree. *)
Fixpoint reads (h : heap) (j : json) (v : val) : Prop :=
  match j with
  | JNull => v = VNone
  | JBool b => v = VBool b
  | JInt n => v = VInt n
  | JFloat x => v = VFloat x
  | JStr s => v = VStr s
  | JArr elems =>
      exists l vs, v = VRef l /\ h !! l = Some (OList vs) /\ all2 (reads h) elems vs
  | JObj members =>
      exists l items, v = VRef l /\ h !! l = Some (ODict items)
        /\ all2 (fun kj kv => fst kj = fst kv /\ reads h (snd kj) (snd kv))
                members items
  end.

(** A value of the program printed in a change record and the tree it reads
    as. *)
Definition message_reads (h : heap) (mj : message json) (mv : message val) : Prop :=
  match mj, mv with
  | Updated r f old x, Updated r' f' old' x' =>
      r = r' /\ f = f' /\ x = x' /\ dumps h old' = Some old
  | WarnNoRegions, WarnNoRegions => True
  | WarnFieldNotFound f r, WarnFieldNotFound f' r' => f = f' /\ r = r'
  | _, _ => False
  end.

(** A message of the program and the message of the specification it
    stands for: the old value printed is a tree owned in [lo, hi). *)
Definition message_in (h : heap) (lo hi : nat) (mj : message json)
    (mv : message val) : Prop :=
  match mj, mv with
  | Updated r f old x, Updated r' f' old' x' =>
      r = r' /\ f = f' /\ x = x'
      /\ exists a b, lo <= a /\ b <= hi /\ owns h old a b old'
  | WarnNoRegions, WarnNoRegions => True
  | WarnFieldNotFound f r, WarnFieldNotFound f' r' => f = f' /\ r = r'
  | _, _ => False
  end.

(** The objects a value leads to. *)
Inductive reachable (h : heap) : val -> loc -> Prop :=
| reach_here (l : loc) : reachable h (VRef l) l
| reach_elem (l : loc) (elems : list val) (v : val) (l' : loc) :
    h !! l = Some (OList elems) -> In v elems -> reachable h v l' ->
    reachable h (VRef l) l'
| reach_item (l : loc) (items : list (string * val)) (k : string) (v : val)
    (l' : loc) :
    h !! l = Some (ODict items) -> In (k, v) items -> reachable h v l' ->
    reachable h (VRef l) l'.

(** ** What the merge leaves alone *)

(** A field of a region before and after: same key, and same value unless
    the field is selected. *)
Definition field_frame (fs : list string) (kv kv' : string * json) : Prop :=
  fst kv' = fst kv /\ (~ In (fst kv) fs -> snd kv' = snd kv).

(** An entry of [regions] before and after: same region name; a region that
    is an object keeps its keys in order and its fields that are not
    selected, any other region is unchanged. *)
Definition region_frame (fs : list string) (r r' : string * json) : Prop :=
  fst r' = fst r
  /\ match snd r with
     | JObj fields =>
         exists fields', snd r' = JObj fields' /\ Forall2 (field_frame fs) fields fields'
     | _ => snd r' = snd r
     end.

Definition regions_frame (fs : list string) (x x' : json) : Prop :=
  match x with
  | JObj regs => exists regs', x' = JObj regs' /\ Forall2 (region_frame fs) regs regs'
  | _ => x' = x
  end.

(** A top-level member before and after: same key, and same value unless
    the key is [regions]. *)
Definition member_frame (fs : list string) (m m' : string * json) : Prop :=
  fst m' = fst m
  /\ if decide (fst m = "regions") then regions_frame fs (snd m) (snd m')
     else snd m' = snd m.

Definition doc_frame (fs : list string) (j j' : json) : Prop :=
  match j with
  | JObj members =>
      exists members', j' = JObj members' /\ Forall2 (member_frame fs) members members'
  | _ => j' = j
  end.

(** A message whose change record, if it is one, has equal old and new
    values. *)
Definition settled_message {A} (inj : pyfloat -> A) (m : message A) : Prop :=
  match m with
  | Updated _ _ old x => old = inj x
  | _ => True
  end.

(** ** Rows of the reader *)

(** A cell as [csv.DictReader] stores it under a field name: a string, or
    [None] when the line is short; the list of surplus cells only ever sits
    under the key [None]. *)
Definition plain_cell (c : cell) : Prop :=
  match c with
  | CRest _ => False
  | _ => True
  end.

Definition good_row (row : rowdict) : Prop :=
  Forall (fun kc => fst kc = None \/ plain_cell (snd kc)) row.

(** What the loader records for a region, given what the row holds under
    that name. *)
Definition recorded (py_float : string -> option pyfloat) (region : string)
    (c : option cell) : option pyfloat :=
  match c with
  | Some (CStr s) =>
      if truthy region && (truthy s && truthy (strip s)) then py_float s else None
  | _ => None
  end.

(** ** A small configuration, for the worked examples *)

Definition example_doc : json :=
  JObj [("regions",
         JObj [("A", JObj [("full_fill_percent", JInt 10); ("name", JStr "left")])]);
        ("version", JInt 2)].

(** The document as [json.load] builds it in an empty heap: the region at 0,
    [regions] at 1 and the top-level dict at 2. *)
Definition example_heap : heap := snd (loads example_doc []).
Definition example_config : val := fst (loads example_doc []).

(** 55.0 *)
Definition example_value : pyfloat := S754_finite false 7740561859543040 (-47).

Definition example_table : table :=
  [("full_fill_percent", [("A", example_value)]);
   ("name", [("A", example_value)])].


(** ** The merge step in the words of the specification

    Step 3 of the algorithm of the merge engine, on a [regions] mapping whose
    entries are mappings: for every region, and for every field of the
    selector in the selector's order, (a) skip when the field is not a key
    of the table, (b) else skip when the region is not a key of
    [table[field]], (c) else warn and skip when the field is not a key of
    the region's configuration, (d) else overwrite the field with the
    table's value and record the change with the old and the new value. *)
Definition spec_step (t : table) (region_name : string)
    (region_config : list (string * json)) (field : string)
    : list (string * json) * list (message json) :=
  match dict_get field t with
  | None => (region_config, [])
  | Some field_data =>
      match dict_get region_name field_data with
      | None => (region_config, [])
      | Some new_value =>
          match dict_get field region_config with
          | None => (region_config, [WarnFieldNotFound field region_name])
          | Some old_value =>
              (dict_set field (JFloat new_value) region_config,
               [Updated region_name field old_value new_value])
          end
      end
  end.

Fixpoint spec_fields (t : table) (region_name : string)
    (region_config : list (string * json)) (selector : list string)
    : list (string * json) * list (message json) :=
  match selector with
  | [] => (region_config, [])
  | field :: selector' =>
      let '(region_config', out) := spec_step t region_name region_config field in
      let '(region_config'', out') := spec_fields t region_name region_config' selector' in
      (region_config'', out ++ out')
  end.

Fixpoint spec_regions (t : table) (selector : list string)
    (regions : list (string * list (string * json)))
    : list (string * list (string * json)) * list (message json) :=
  match regions with
  | [] => ([], [])
  | (region_name, region_config) :: regions' =>
      let '(region_config', out) := spec_fields t region_name region_config selector in
      let '(regions'', out') := spec_regions t selector regions' in
      ((region_name, region_config') :: regions'', out ++ out')
  end.

(** An entry of such a [regions] mapping as a member of the document. *)
Definition region_tree (r : string * list (string * json)) : string * json :=
  (fst r, JObj (snd r)).

(** ** What a caller of the merge observes *)

(** The value the table holds for a field of a region:
    [calibration_data[field][region_name]], when both keys are there. *)
Definition table_value (t : table) (field region_name : string) : option pyfloat :=
  match dict_get field t with
  | Some field_data => dict_get region_name field_data
  | None => None
  end.

(** The document [update_config_with_calibration] returns, as a tree, or the
    exception it raises. *)
Definition merge_result (t : table) (h : heap) (config : val)
    (calibration_fields : list string) : result json :=
  match run_merge t h config calibration_fields with
  | (Ok out, st) =>
      match dumps (st_heap st) out with
      | Some j => Ok j
      | None => Raise ValueError
      end
  | (Raise e, _) => Raise e
  end.

(** What the merge prints for one selected field of a region that is a
    dict with the given fields. *)
Definition field_messages (t : table) (region_name : string)
    (fields : list (string * json)) (field : string) : list (message json) :=
  match table_value t field region_name with
  | Some new_value =>
      match dict_get field fields with
      | Some old_value => [Updated region_name field old_value new_value]
      | None => [WarnFieldNotFound field region_name]
      end
  | None => []
  end.

Definition region_messages (t : table) (fs : list string)
    (entry : string * json) : list (message json) :=
  match snd entry with
  | JObj fields => flat_map (field_messages t (fst entry) fields) fs
  | _ => []
  end.

(** The value of a key of a region after the merge: the table's value when
    the key is selected and the table has one, the value before otherwise. *)
Definition merged_value (t : table) (fs : list string) (region_name key : string)
    (before : json) : json :=
  if in_dec string_dec key fs then
    match table_value t key region_name with
    | Some x => JFloat x
    | None => before
    end
  else before.

(** The example after a merge that selects [full_fill_percent]. *)
Definition example_merged : json :=
  JObj [("regions",
         JObj [("A", JObj [("full_fill_percent", JFloat example_value);
                           ("name", JStr "left")])]);
        ("version", JInt 2)].

(** ** What a caller of the loader observes *)

(** The mapping built for one row: [region_data] when the loop over the
    cells is through. *)
Definition region_data (py_float : string -> option pyfloat) (row : rowdict)
    : list (string * pyfloat) :=
  match scan_cells py_float [] row with
  | Ok rd => rd
  | Raise _ => []
  end.

Definition has_label (label : string) (row : rowdict) : bool :=
  match row_label row with
  | CStr s => bool_decide (s = label)
  | _ => false
  end.

(** The last of the rows that carry a label. *)
Fixpoint last_labelled (label : string) (rows : list rowdict) : option rowdict :=
  match rows with
  | [] => None
  | row :: rows' =>
      match last_labelled label rows' with
      | Some r => Some r
      | None => if has_label label row then Some row else None
      end
  end.

(** Two cells the loader does not tell apart: equal ones, and the [None]
    of a short line against an empty cell. *)
Definition cell_equiv (c c' : cell) : Prop :=
  c = c' \/ (c = CNone /\ c' = CStr "").

Definition row_equiv (row row' : rowdict) : Prop :=
  Forall2 (fun a b => fst a = fst b /\ cell_equiv (snd a) (snd b)) row row'.

(** What holds of an entry of the table, given the rows of the reader: the
    label is not empty, no region occurs twice, and each value is what
    [float] made of the cell some row holds under that region's name. *)
Definition entry_ok (py_float : string -> option pyfloat) (rows : list rowdict)
    (entry : string * list (string * pyfloat)) : Prop :=
  fst entry <> ""
  /\ List.NoDup (dict_keys (snd entry))
  /\ forall region x, dict_get region (snd entry) = Some x ->
       region <> ""
       /\ exists row s, In row rows /\ dict_get (Some region) row = Some (CStr s)
                        /\ py_float s = Some x.

(** The cell of a line in a column, as [csv.DictReader] stores it: [None]
    when the line does not reach the column. *)
Definition cell_at (line : list string) (i : nat) : cell :=
  match line !! i with
  | Some c => CStr c
  | None => CNone
  end.

(** ** The command line tool

    [main] and the functions it calls, over a world that holds the files
    and what has been printed.  A file that exists is a path with an entry:
    [Some text] when it can be read, [None] when opening or reading it
    fails.  How writing to a path ends is a parameter: [writable p] when
    opening [p], writing the text and closing the file all succeed, and
    otherwise [torn p], which is [None] when the path could not be opened
    and [Some text] when the file was opened, and so cut, and holds [text]
    at the moment the error is caught.  The parsers and the printer of the
    libraries are parameters too: [json_parse] is [json.load] up to the tree
    it builds ([None] for [JSONDecodeError]), [json_text] is [json.dump]
    with or without [indent=2], and [csv_rows] is the splitting of a text
    into lines of cells by [csv.reader] ([None] when it raises).  The two
    output streams are one list here; [Usage] is the usage message that
    [parser.error] prints before its error line, and [Traceback] is all the
    interpreter prints for an exception nobody caught. *)

Inductive line :=
| Usage
| ConfigNotFound (path : string)
| CalibrationNotFound (path : string)
| JsonError
| ConfigError
| CalibrationError
| MergeLine (m : message val)
| WriteOk (path : string)
| WriteError
| Traceback (e : exn).

Record world := World {
  w_files : list (string * option string);
  w_log : list line
}.

(** The options as [parser.parse_args()] hands them over when it returns:
    [None] for an option that is not on the command line.  A command line
    on which [parse_args] itself ends the process ([-h], an option it does
    not know) never gets past line 53 and has no [command_line]. *)
Record command_line := CommandLine {
  cl_config : option string;
  cl_calibration : option string;
  cl_output : option string;
  cl_calibration_fields : option (list string);
  cl_pretty : bool
}.

Record args := Args {
  a_config : string;
  a_calibration : string;
  a_output : string;
  a_calibration_fields : list string;
  a_pretty : bool
}.

(** A function that either goes on with a value or prints some lines and
    ends the process with an exit code. *)
Inductive step (A : Type) :=
| Continue (a : A)
| Exit (code : nat) (ls : list line).
Arguments Continue {A} a.
Arguments Exit {A} code ls.

Definition say (ls : list line) (w : world) : world :=
  World (w_files w) (w_log w ++ ls).

(** [Path(p).exists()] *)
Definition path_exists (w : world) (p : string) : bool := dict_mem p (w_files w).

(** The text [open(p, 'r')] gives, if it gives one. *)
Definition read_file (w : world) (p : string) : option string :=
  match dict_get p (w_files w) with
  | Some (Some text) => Some text
  | _ => None
  end.

Definition with_default {A} (d : A) (o : option A) : A :=
  match o with
  | Some a => a
  | None => d
  end.

(** The arguments with their defaults. *)
Definition namespace (cl : command_line) : args :=
  Args (with_default "config.json" (cl_config cl))
       (with_default "calibration.csv" (cl_calibration cl))
       (with_default "output.json" (cl_output cl))
       (with_default ["full_fill_percent"; "empty_fill_percent"; "brightness_threshold"]
                     (cl_calibration_fields cl))
       (cl_pretty cl).

(** [parse_arguments], from line 53 on: [parser.error] prints the usage and
    the error and ends the process with status 2. *)
Definition parse_arguments (cl : command_line) (w : world) : step args :=
  let a := namespace cl in
  if negb (path_exists w (a_config a)) then
    Exit 2 [Usage; ConfigNotFound (a_config a)]
  else if negb (path_exists w (a_calibration a)) then
    Exit 2 [Usage; CalibrationNotFound (a_calibration a)]
  else Continue a.

Section Tool.
Variable py_float : string -> option pyfloat.
Variable json_parse : string -> option json.
Variable json_text : bool -> json -> string.
Variable csv_rows : string -> option (list (list string)).
Variable writable : string -> bool.
Variable torn : string -> option string.

(** [load_json_config] *)
Definition load_json_config (w : world) (config_path : string) : step json :=
  match read_file w config_path with
  | Some text =>
      match json_parse text with
      | Some j => Continue j
      | None => Exit 1 [JsonError]
      end
  | None => Exit 1 [ConfigError]
  end.

(** [load_calibration_data], from the path on. *)
Definition load_calibration_path (w : world) (calibration_path : string)
    : step table :=
  match read_file w calibration_path with
  | Some text =>
      match csv_rows text with
      | Some lines =>
          match fst (load_calibration_data py_float lines) with
          | Ok t => Continue t
          | Raise _ => Exit 1 [CalibrationError]
          end
      | None => Exit 1 [CalibrationError]
      end
  | None => Exit 1 [CalibrationError]
  end.

(** [save_config].  The [except] branch catches whatever goes wrong between
    [open] and the end of the [with] block: when the path cannot be opened
    the files are as before, and when the error comes later the file has
    been cut and holds what had reached it.  When it is [json.dump] that
    raises, what had been written by then is not modelled, the file is left
    empty. *)
Definition save_config (h : heap) (config : val) (output_path : string)
    (pretty : bool) (w : world) : nat * world :=
  if writable output_path then
    match dumps h config with
    | Some j =>
        (0, World (dict_set output_path (Some (json_text pretty j)) (w_files w))
                  (w_log w ++ [WriteOk output_path]))
    | None =>
        (1, World (dict_set output_path (Some "") (w_files w))
                  (w_log w ++ [WriteError]))
    end
  else
    match torn output_path with
    | Some partial =>
        (1, World (dict_set output_path (Some partial) (w_files w))
                  (w_log w ++ [WriteError]))
    | None => (1, say [WriteError] w)
    end.

(** [main]: the exit code of the process and the world it leaves.  The
    configuration is loaded into an empty heap.  An exception that leaves
    the merge ends the process with a traceback and status 1. *)
Definition main (cl : command_line) (w : world) : nat * world :=
  match parse_arguments cl w with
  | Exit code ls => (code, say ls w)
  | Continue a =>
      match load_json_config w (a_config a) with
      | Exit code ls => (code, say ls w)
      | Continue j =>
          let '(config, h) := loads j [] in
          match load_calibration_path w (a_calibration a) with
          | Exit code ls => (code, say ls w)
          | Continue calibration_data =>
              match run_merge calibration_data h config (a_calibration_fields a) with
              | (Ok updated_config, st) =>
                  save_config (st_heap st) updated_config (a_output a) (a_pretty a)
                              (say (map MergeLine (st_out st)) w)
              | (Raise e, st) =>
                  (1, say (map MergeLine (st_out st) ++ [Traceback e]) w)
              end
          end
      end
  end.

(** The tree of the document a run computes and the lines of the merge, read
    off the files: the merge, as a function on trees, of the tree the
    configuration file parses to with the table of the lines of the
    calibration file. *)
Definition merged_document (cl : command_line) (w : world)
    : option (json * list (message json)) :=
  let a := namespace cl in
  text ← read_file w (a_config a);
  j ← json_parse text;
  ctext ← read_file w (a_calibration a);
  lines ← csv_rows ctext;
  match fst (load_calibration_data py_float lines) with
  | Ok t =>
      match merge_json t (a_calibration_fields a) j with
      | (Ok j', out) => Some (j', out)
      | (Raise _, _) => None
      end
  | Raise _ => None
  end.
End Tool.

(** The command line of a second run that takes the output of the first as
    its configuration. *)
Definition rerun (cl : command_line) : command_line :=
  CommandLine (Some (a_output (namespace cl))) (cl_calibration cl) (cl_output cl)
              (cl_calibration_fields cl) (cl_pretty cl).

(** A world with the two input files, and stand-ins for the libraries that
    know the texts of that world only. *)
Definition example_world : world :=
  World [("config.json", Some "doc"); ("calibration.csv", Some "table")] [].


Definition example_json_parse (text : string) : option json :=
  if String.eqb text "doc" then Some example_doc
  else if String.eqb text "merged" then Some example_merged
  else None.

Definition example_json_text (pretty : bool) (j : json) : string := "merged".

Definition example_csv_rows (text : string) : option (list (list string)) :=
  if String.eqb text "table" then Some [[""; "A"]; ["full_fill_percent"; "55"]]
  else None.

Definition example_command_line : command_line :=
  CommandLine None None None (Some ["full_fill_percent"]) false.

Definition example_main : command_line -> world -> nat * world :=
  main float_of_digits example_json_parse example_json_text example_csv_rows
       (fun _ => true) (fun _ => None).

(** The same with a disk that fills up while the output is written: the
    file is cut and nothing reaches it. *)
Definition example_main_full : command_line -> world -> nat * world :=
  main float_of_digits example_json_parse example_json_text example_csv_rows
       (fun _ => false) (fun _ => Some "").
(** * Properties *)

(** ** Induction on trees *)

Lemma json_ind' (P : json -> Prop) :
  P JNull -> (forall b, P (JBool b)) -> (forall n, P (JInt n)) ->
  (forall x, P (JFloat x)) -> (forall s, P (JStr s)) ->
  (forall elems, Forall P elems -> P (JArr elems)) ->
  (forall members, Forall (fun kj => P (snd kj)) members -> P (JObj members)) ->
  forall j, P j.
Proof.
  intros Hnull Hbool Hint Hfloat Hstr Harr Hobj.
  refine (fix IH (j : json) : P j :=
    match j with
    | JNull => Hnull
    | JBool b => Hbool b
    | JInt n => Hint n
    | JFloat x => Hfloat x
    | JStr s => Hstr s
    | JArr elems =>
        Harr elems ((fix all (es : list json) : Forall P es :=
          match es with
          | [] => @List.Forall_nil _ P
          | e :: es' => @List.Forall_cons _ P e es' (IH e) (all es')
          end) elems)
    | JObj members =>
        Hobj members ((fix all (ms : list (string * json))
                         : Forall (fun kj => P (snd kj)) ms :=
          match ms with
          | [] => @List.Forall_nil _ _
          | m :: ms' => @List.Forall_cons _ _ m ms' (IH (snd m)) (all ms')
          end) members)
    end).
Qed.

(** ** Dictionaries *)

Section DictFacts.
Context {K V : Type} `{EqDecision K}.
Implicit Types (d : list (K * V)) (k : K) (v : V).

Lemma dict_get_set_eq d k v : dict_get k (dict_set k v d) = Some v.
Proof.
  induction d as [|[k' v'] d IH]; simpl.
  - destruct (decide (k = k)); congruence.
  - destruct (decide (k = k')) as [->|Hne]; simpl.
    + destruct (decide (k' = k')); congruence.
    + destruct (decide (k = k')); congruence.
Qed.

Lemma dict_get_set_ne d k k' v :
  k' <> k -> dict_get k' (dict_set k v d) = dict_get k' d.
Proof.
  intros Hne. induction d as [|[k0 v0] d IH]; simpl.
  - destruct (decide (k' = k)); congruence.
  - destruct (decide (k = k0)) as [->|Hk]; simpl.
    + destruct (decide (k' = k0)); congruence.
    + destruct (decide (k' = k0)); congruence.
Qed.

Lemma dict_keys_set_mem d k v :
  dict_mem k d = true -> dict_keys (dict_set k v d) = dict_keys d.
Proof.
  unfold dict_mem, dict_keys. induction d as [|[k0 v0] d IH]; simpl.
  - discriminate.
  - destruct (decide (k = k0)) as [->|Hk]; simpl; [reflexivity|].
    intros Hm. f_equal. auto.
Qed.

Lemma dict_mem_get d k : dict_mem k d = true <-> exists v, dict_get k d = Some v.
Proof.
  unfold dict_mem. destruct (dict_get k d); split; eauto; try discriminate.
  intros [v Hv]. discriminate.
Qed.

Lemma dict_get_In d k v : dict_get k d = Some v -> In (k, v) d.
Proof.
  induction d as [|[k0 v0] d IH]; simpl; [discriminate|].
  destruct (decide (k = k0)) as [->|Hk].
  - intros [= ->]. now left.
  - intros Hg. right. auto.
Qed.

Lemma dict_get_None d k : dict_get k d = None <-> ~ In k (dict_keys d).
Proof.
  unfold dict_keys. induction d as [|[k0 v0] d IH]; simpl.
  - tauto.
  - destruct (decide (k = k0)) as [->|Hk].
    + split; [discriminate|]. intros Hn. exfalso. apply Hn. now left.
    + rewrite IH. split.
      * intros Hn [Heq|Hin]; [congruence|tauto].
      * tauto.
Qed.

Lemma dict_set_In d k v k' v' :
  In (k', v') (dict_set k v d) -> (k' = k /\ v' = v) \/ In (k', v') d.
Proof.
  induction d as [|[k0 v0] d IH]; simpl.
  - intros [[= <- <-]|[]]. now left.
  - destruct (decide (k = k0)) as [->|Hk]; simpl.
    + intros [[= <- <-]|Hin]; [now left|right; now right].
    + intros [Heq|Hin]; [right; now left|].
      destruct (IH Hin) as [Hl|Hr]; [now left|right; now right].
Qed.
End DictFacts.

(** ** Trees owned in the heap *)

Section OwnsSeq.
Context {A B : Type}.
Implicit Types (P Q : A -> nat -> nat -> B -> Prop).

Lemma owns_seq_le P xs :
  Forall (fun x => forall lo hi y, P x lo hi y -> lo <= hi) xs ->
  forall lo hi ys, owns_seq P xs lo hi ys -> lo <= hi.
Proof.
  induction 1 as [|x xs Hx _ IH]; intros lo hi [|y ys]; simpl; try tauto; [lia|].
  intros (mid & Hp & Hs). apply Hx in Hp. apply IH in Hs. lia.
Qed.

Lemma owns_seq_mono P Q lo0 hi0 xs :
  Forall (fun x => forall lo hi y, P x lo hi y -> lo <= hi) xs ->
  Forall (fun x => forall lo hi y, lo0 <= lo -> hi <= hi0 ->
                                   P x lo hi y -> Q x lo hi y) xs ->
  forall lo hi ys, lo0 <= lo -> hi <= hi0 ->
    owns_seq P xs lo hi ys -> owns_seq Q xs lo hi ys.
Proof.
  intros Hle. induction 1 as [|x xs Hx _ IH]; intros lo hi [|y ys]; simpl; try tauto.
  inversion Hle as [|? ? Hlex Hlexs]; subst.
  intros Hlo Hhi (mid & Hp & Hs).
  pose proof (Hlex _ _ _ Hp). pose proof (owns_seq_le _ _ Hlexs _ _ _ Hs).
  exists mid. split; [apply Hx; auto; lia|apply IH; auto; lia].
Qed.

Lemma owns_seq_length P xs lo hi ys :
  owns_seq P xs lo hi ys -> length xs = length ys.
Proof.
  revert lo ys. induction xs as [|x xs IH]; intros lo [|y ys]; simpl; try tauto.
  intros (mid & _ & Hs). f_equal. eauto.
Qed.
End OwnsSeq.

Lemma agree_refl lo hi h : agree lo hi h h.
Proof. intros l _. reflexivity. Qed.

Lemma agree_sub lo hi lo' hi' h h' :
  agree lo hi h h' -> lo <= lo' -> hi' <= hi -> agree lo' hi' h h'.
Proof. intros Ha Hlo Hhi l Hl. apply Ha. lia. Qed.

Lemma agree_trans lo hi h1 h2 h3 :
  agree lo hi h1 h2 -> agree lo hi h2 h3 -> agree lo hi h1 h3.
Proof. intros H12 H23 l Hl. rewrite H23, H12; auto. Qed.

Lemma agree_app lo hi (h ext : heap) : hi <= length h -> agree lo hi h (h ++ ext).
Proof. intros Hhi l Hl. apply lookup_app_l. lia. Qed.

Lemma agree_insert lo hi (h : heap) l o :
  (l < lo \/ hi <= l) -> agree lo hi h (<[l := o]> h).
Proof. intros Hout l' Hl'. apply list_lookup_insert_ne. lia. Qed.

Lemma owns_le h j : forall lo hi v, owns h j lo hi v -> lo <= hi.
Proof.
  induction j as [| | | | |elems IH|members IH] using json_ind'; simpl;
    intros lo hi v; try tauto.
  - intros (l & vs & _ & Hl & _ & Hs).
    apply owns_seq_le in Hs; [lia|exact IH].
  - intros (l & items & _ & Hl & _ & Hs).
    apply owns_seq_le in Hs; [lia|].
    eapply Forall_impl; [exact IH|]. simpl. intros kj Hkj a b y [_ Ho]. eauto.
Qed.

Lemma owns_frame h j :
  forall lo hi v h', agree lo hi h h' -> owns h j lo hi v -> owns h' j lo hi v.
Proof.
  induction j as [| | | | |elems IH|members IH] using json_ind'; simpl;
    intros lo hi v h' Hag; try tauto.
  - intros (l & vs & -> & Hl & Hh & Hs).
    assert (lo <= l).
    { eapply owns_seq_le; [|exact Hs]. apply Forall_true. intros; eapply owns_le; eauto. }
    exists l, vs. repeat split; auto.
    + rewrite Hag by lia. exact Hh.
    + eapply (owns_seq_mono _ _ lo l); [| |reflexivity|reflexivity|exact Hs].
      * apply Forall_true. intros; eapply owns_le; eauto.
      * eapply Forall_impl; [exact IH|]. simpl. intros e He a b y Ha Hb Ho.
        apply He; auto. eapply agree_sub; [exact Hag|lia|lia].
  - intros (l & items & -> & Hl & Hh & Hs).
    assert (lo <= l).
    { eapply owns_seq_le; [|exact Hs]. apply Forall_true.
      intros kj a b y [_ Ho]. eapply owns_le; eauto. }
    exists l, items. repeat split; auto.
    + rewrite Hag by lia. exact Hh.
    + eapply (owns_seq_mono _ _ lo l); [| |reflexivity|reflexivity|exact Hs].
      * apply Forall_true. intros kj a b y [_ Ho]. eapply owns_le; eauto.
      * eapply Forall_impl; [exact IH|]. simpl. intros e He a b y Ha Hb [Hk Ho].
        split; auto. apply He; auto. eapply agree_sub; [exact Hag|lia|lia].
Qed.

Lemma owns_member_le h kj lo hi kv : owns_member h kj lo hi kv -> lo <= hi.
Proof. intros [_ Ho]. eapply owns_le; eauto. Qed.

Lemma owns_member_frame h kj lo hi kv h' :
  agree lo hi h h' -> owns_member h kj lo hi kv -> owns_member h' kj lo hi kv.
Proof. intros Hag [Hk Ho]. split; auto. eapply owns_frame; eauto. Qed.

Lemma owns_elems_frame h elems lo hi vs h' :
  agree lo hi h h' ->
  owns_seq (owns h) elems lo hi vs -> owns_seq (owns h') elems lo hi vs.
Proof.
  intros Hag. apply (owns_seq_mono _ _ lo hi); auto.
  - apply Forall_true. intros; eapply owns_le; eauto.
  - apply Forall_true. intros e a b y Ha Hb. apply owns_frame.
    eapply agree_sub; eauto.
Qed.

Lemma owns_members_frame h members lo hi items h' :
  agree lo hi h h' ->
  owns_seq (owns_member h) members lo hi items ->
  owns_seq (owns_member h') members lo hi items.
Proof.
  intros Hag. apply (owns_seq_mono _ _ lo hi); auto.
  - apply Forall_true. intros; eapply owns_member_le; eauto.
  - apply Forall_true. intros e a b y Ha Hb. apply owns_member_frame.
    eapply agree_sub; eauto.
Qed.

Lemma owns_obj h members lo hi v :
  owns h (JObj members) lo hi v <->
  exists l items, v = VRef l /\ l < hi /\ h !! l = Some (ODict items)
                  /\ owns_seq (owns_member h) members lo l items.
Proof. reflexivity. Qed.

(** ** Loading and dumping *)

Lemma thread_owns {A B : Type} (f : A -> heap -> B * heap)
    (P : heap -> A -> nat -> nat -> B -> Prop) (xs : list A) :
  (forall h x lo hi y h', agree lo hi h h' -> P h x lo hi y -> P h' x lo hi y) ->
  Forall (fun x => forall h y h', f x h = (y, h') ->
            exists ext, h' = h ++ ext /\ P h' x (length h) (length h') y) xs ->
  forall h ys h', thread f xs h = (ys, h') ->
    exists ext, h' = h ++ ext /\ owns_seq (P h') xs (length h) (length h') ys.
Proof.
  intros Hframe. induction 1 as [|x xs Hx _ IH]; intros h ys h'; simpl.
  - intros [= <- <-]. exists []. rewrite app_nil_r. split; [reflexivity|]. simpl; lia.
  - destruct (f x h) as [y h1] eqn:Hf.
    destruct (thread f xs h1) as [ys' h2] eqn:Ht.
    intros [= <- <-].
    destruct (Hx _ _ _ Hf) as (e1 & -> & Hp).
    destruct (IH _ _ _ Ht) as (e2 & -> & Hs).
    exists (e1 ++ e2). split; [now rewrite app_assoc|].
    simpl. exists (length (h ++ e1)). split; [|exact Hs].
    eapply Hframe; [|exact Hp]. apply agree_app. lia.
Qed.

Lemma loads_owns j :
  forall h v h', loads j h = (v, h') ->
    exists ext, h' = h ++ ext /\ owns h' j (length h) (length h') v.
Proof.
  induction j as [| | | | |elems IH|members IH] using json_ind'; simpl; intros h v h';
    try (intros [= <- <-]; exists []; rewrite app_nil_r; repeat split; lia).
  - destruct (thread loads elems h) as [vs h1] eqn:Ht. intros [= <- <-].
    destruct (thread_owns loads owns elems (fun h x => owns_frame h x) IH _ _ _ Ht)
      as (ext & -> & Hs).
    exists (ext ++ [OList vs]). split; [now rewrite app_assoc|].
    exists (length (h ++ ext)), vs. repeat split.
    + rewrite !length_app. simpl. lia.
    + now apply list_lookup_middle.
    + eapply owns_elems_frame; [|exact Hs]. apply agree_app. lia.
  - destruct (thread _ members h) as [items h1] eqn:Ht. intros [= <- <-].
    eapply (thread_owns _ owns_member) in Ht.
    + destruct Ht as (ext & -> & Hs).
      exists (ext ++ [ODict items]). split; [now rewrite app_assoc|].
      apply owns_obj.
      exists (length (h ++ ext)), items. repeat split.
      * rewrite !length_app. simpl. lia.
      * now apply list_lookup_middle.
      * eapply owns_members_frame; [|exact Hs]. apply agree_app. lia.
    + intros. eapply owns_member_frame; eauto.
    + eapply Forall_impl; [exact IH|]. simpl. intros [k e] He h0 [k' y] h0'.
      simpl. destruct (loads e h0) as [v0 h1'] eqn:Hl. intros [= <- <- <-].
      destruct (He _ _ _ Hl) as (ext & -> & Ho). exists ext. split; [reflexivity|].
      split; [reflexivity|exact Ho].
Qed.

(** ** What a dump succeeds on

    [dumps h v = Some j] exactly when [v] reads as the tree [j]: the bound
    on the nesting that [dumps] works with is never met by a value that
    reads as a tree. *)

Section All2Facts.
Context {A B : Type}.
Implicit Types (P Q : A -> B -> Prop).

Lemma all2_impl P Q xs :
  Forall (fun x => forall y, P x y -> Q x y) xs ->
  forall ys, all2 P xs ys -> all2 Q xs ys.
Proof.
  induction 1 as [|x xs Hx _ IH]; intros [|y ys]; simpl; try tauto.
  intros [Hp Hs]. auto.
Qed.

Lemma all2_In_l P xs ys x :
  all2 P xs ys -> In x xs -> exists y, In y ys /\ P x y.
Proof.
  revert ys. induction xs as [|x0 xs IH]; intros [|y0 ys]; simpl; try tauto.
  intros [Hp Hs] [<-|Hin]; [eauto|]. destruct (IH _ Hs Hin) as (y & Hy & Hxy). eauto.
Qed.
End All2Facts.

Lemma mapM_all2 {A B} (f : A -> option B) xs : forall ys,
  mapM f xs = Some ys -> all2 (fun y x => f x = Some y) ys xs.
Proof.
  induction xs as [|x xs IH]; intros ys; simpl.
  - now intros [= <-].
  - destruct (f x) as [y|] eqn:Hf; simpl; [|discriminate].
    destruct (mapM f xs) as [ys'|]; simpl; [|discriminate].
    intros [= <-]. simpl. auto.
Qed.

Lemma all2_mapM {A B} (f : A -> option B) xs : forall ys,
  all2 (fun y x => f x = Some y) ys xs -> mapM f xs = Some ys.
Proof.
  induction xs as [|x xs IH]; intros [|y ys]; simpl; try tauto.
  intros [-> Hs]. simpl. now rewrite (IH _ Hs).
Qed.

Lemma dumps_fuel_reads h n : forall v j, dumps_fuel n h v = Some j -> reads h j v.
Proof.
  induction n as [|n IH]; intros v j; destruct v; simpl;
    try (intros [= <-]; reflexivity); try discriminate.
  destruct (h !! l) as [[items|elems]|] eqn:Hh; [| |discriminate].
  - destruct (mapM _ items) as [ms|] eqn:Hm; simpl; [|discriminate].
    intros [= <-]. simpl. exists l, items. split; [reflexivity|]. split; [exact Hh|].
    apply mapM_all2 in Hm. revert Hm. apply all2_impl.
    apply Forall_true. intros [k e] [k' v]. simpl.
    destruct (dumps_fuel n h v) as [jv|] eqn:Hv; simpl; [|discriminate].
    intros [= <- <-]. auto.
  - destruct (mapM _ elems) as [es|] eqn:Hm; simpl; [|discriminate].
    intros [= <-]. simpl. exists l, elems. split; [reflexivity|]. split; [exact Hh|].
    apply mapM_all2 in Hm. revert Hm. apply all2_impl.
    apply Forall_true. intros e v. apply IH.
Qed.

Lemma reads_dumps_fuel h j :
  forall v m, reads h j v -> depth j <= m -> dumps_fuel m h v = Some j.
Proof.
  induction j as [| | | | |elems IH|members IH] using json_ind'; simpl;
    intros v m; try (intros -> _; destruct m; reflexivity).
  - intros (l & vs & -> & Hh & Hs) Hm.
    destruct m as [|m]; [lia|]. simpl. rewrite Hh.
    enough (mapM (dumps_fuel m h) vs = Some elems) as -> by reflexivity.
    apply le_S_n in Hm. apply all2_mapM. clear Hh. revert vs Hs Hm.
    induction IH as [|e es He _ IHes]; intros [|y ys]; simpl; try tauto.
    intros [Hr Hs] Hm. split; [apply He; [exact Hr|lia]|apply IHes; [exact Hs|lia]].
  - intros (l & items & -> & Hh & Hs) Hm.
    destruct m as [|m]; [lia|]. simpl. rewrite Hh.
    enough (mapM (fun kv => pair (fst kv) <$> dumps_fuel m h (snd kv)) items
            = Some members) as -> by reflexivity.
    apply le_S_n in Hm. apply all2_mapM. clear Hh. revert items Hs Hm.
    induction IH as [|[k e] es He _ IHes]; intros [|[k' y] ys]; simpl; try tauto.
    intros [[-> Hr] Hs] Hm. simpl in *.
    split; [rewrite (He y m) by (auto; lia); reflexivity|apply IHes; [exact Hs|lia]].
Qed.

Lemma reads_fun h j : forall j' v, reads h j v -> reads h j' v -> j = j'.
Proof.
  induction j as [| | | | |elems IH|members IH] using json_ind'; simpl; intros j' v.
  1-5: intros ->; destruct j'; simpl; try congruence;
       intros (l & ? & [=] & _).
  - intros (l & vs & -> & Hh & Hs).
    destruct j'; simpl; try discriminate;
      intros (l' & vs' & [= <-] & Hh' & Hs'); rewrite Hh in Hh'; [|discriminate].
    injection Hh' as <-. f_equal. clear Hh. revert elems0 vs Hs Hs'.
    induction IH as [|e es He _ IHes]; intros [|e' es'] [|y ys]; simpl; try tauto.
    intros [Hr Hs] [Hr' Hs']. f_equal; eauto.
  - intros (l & items & -> & Hh & Hs).
    destruct j'; simpl; try discriminate;
      intros (l' & items' & [= <-] & Hh' & Hs'); rewrite Hh in Hh'; [discriminate|].
    injection Hh' as <-. f_equal. clear Hh. revert members0 items Hs Hs'.
    induction IH as [|[k e] es He _ IHes]; intros [|[k' e'] es'] [|[k0 y] ys];
      simpl; try tauto.
    intros [[-> Hr] Hs] [[-> Hr'] Hs']. simpl in *. f_equal; eauto.
    f_equal. eauto.
Qed.

Lemma max_attained {A} (f : A -> nat) xs d :
  fold_right (fun x n => Nat.max (f x) n) 0 xs = S d ->
  exists x, In x xs /\ f x = S d.
Proof.
  induction xs as [|x xs IH]; simpl; [discriminate|].
  intros Hm. destruct (Nat.max_spec (f x) (fold_right (fun x n => Nat.max (f x) n) 0 xs))
    as [[_ Heq]|[_ Heq]]; rewrite Heq in Hm.
  - destruct (IH Hm) as (y & Hy & Hfy). eauto.
  - eauto.
Qed.

(** Along a path of nested containers no object occurs twice, so a tree
    that is read in a heap is not deeper than the heap has objects. *)
Lemma reads_chain h : forall d j v,
  reads h j v -> depth j = d ->
  exists ls : list nat,
    length ls = d /\ List.NoDup ls
    /\ forall l, In l ls ->
         l < length h /\ exists jl, reads h jl (VRef l) /\ depth jl <= d.
Proof.
  induction d as [|d IH]; intros j v Hr Hd.
  - exists []. split; [reflexivity|]. split; [apply List.NoDup_nil|]. intros l [].
  - assert (Hsub : exists ls : list nat,
              length ls = d /\ List.NoDup ls
              /\ forall l, In l ls ->
                   l < length h /\ exists jl, reads h jl (VRef l) /\ depth jl <= d).
    { destruct d as [|d'].
      - exists []. split; [reflexivity|]. split; [apply List.NoDup_nil|]. intros l [].
      - destruct j; simpl in Hd; try discriminate; injection Hd as Hd;
          simpl in Hr; destruct Hr as (l & vs & -> & Hh & Hs).
        + destruct (max_attained depth _ _ Hd) as (e & Hin & He).
          destruct (all2_In_l _ _ _ _ Hs Hin) as (y & _ & Hy).
          exact (IH e y Hy He).
        + destruct (max_attained (fun kv => depth (snd kv)) _ _ Hd) as (e & Hin & He).
          destruct (all2_In_l _ _ _ _ Hs Hin) as (y & _ & _ & Hy).
          exact (IH (snd e) (snd y) Hy He). }
    destruct Hsub as (ls & Hlen & Hnd & Hls).
    assert (Hroot : exists l, v = VRef l /\ l < length h).
    { destruct j; simpl in Hd; try discriminate;
        simpl in Hr; destruct Hr as (l & vs & -> & Hh & _);
        exists l; split; auto; eapply lookup_lt_Some; eauto. }
    destruct Hroot as (l & -> & Hl).
    exists (l :: ls). split; [simpl; congruence|]. split.
    + apply List.NoDup_cons; [|exact Hnd]. intros Hin.
      destruct (Hls _ Hin) as (_ & jl & Hjl & Hdl).
      rewrite (reads_fun _ _ _ _ Hr Hjl) in Hd. lia.
    + intros l' [<-|Hin].
      * split; [exact Hl|]. exists j. split; [exact Hr|lia].
      * destruct (Hls _ Hin) as (Hlt & jl & Hjl & Hdl).
        split; [exact Hlt|]. exists jl. split; [exact Hjl|lia].
Qed.

Lemma reads_depth h j v : reads h j v -> depth j <= length h.
Proof.
  intros Hr. destruct (reads_chain h _ _ _ Hr eq_refl) as (ls & <- & Hnd & Hls).
  assert (Hle : length ls <= length (seq 0 (length h))).
  { apply List.NoDup_incl_length; [exact Hnd|].
    intros l Hin. apply in_seq. destruct (Hls _ Hin) as [Hlt _]. lia. }
  now rewrite length_seq in Hle.
Qed.

(** [json.dumps] succeeds exactly on the values that read as a tree, and
    gives that tree. *)
Theorem dumps_reads h v j : dumps h v = Some j <-> reads h j v.
Proof.
  split.
  - apply dumps_fuel_reads.
  - intros Hr. apply reads_dumps_fuel; [exact Hr|].
    apply reads_depth in Hr. lia.
Qed.

Lemma owns_reads h j : forall lo hi v, owns h j lo hi v -> reads h j v.
Proof.
  induction j as [| | | | |elems IH|members IH] using json_ind'; simpl;
    intros lo hi v; try tauto.
  - intros (l & vs & -> & _ & Hh & Hs). exists l, vs. split; [reflexivity|].
    split; [exact Hh|]. clear Hh. revert lo vs Hs.
    induction IH as [|e es He _ IHes]; intros lo [|y ys]; simpl; try tauto.
    intros (mid & Ho & Hs). eauto.
  - intros (l & items & -> & _ & Hh & Hs). exists l, items. split; [reflexivity|].
    split; [exact Hh|]. clear Hh. revert lo items Hs.
    induction IH as [|e es He _ IHes]; intros lo [|y ys]; simpl; try tauto.
    intros (mid & [Hk Ho] & Hs). eauto.
Qed.

Lemma owns_dumps h j lo hi v : owns h j lo hi v -> dumps h v = Some j.
Proof. intros Ho. apply dumps_reads. eapply owns_reads; eauto. Qed.

(** The copy [json.loads] makes of a tree reads as that tree. *)
Lemma loads_dumps j h :
  let '(v, h') := loads j h in dumps h' v = Some j.
Proof.
  destruct (loads j h) as [v h'] eqn:Hl.
  destruct (loads_owns _ _ _ _ Hl) as (ext & -> & Ho).
  eapply owns_dumps; exact Ho.
Qed.

(** ** Reading a tree in the heap *)

Section OwnsSplit.
Context {A B : Type}.
Implicit Types (P : A -> nat -> nat -> B -> Prop).

Lemma owns_seq_app P xs1 xs2 ys1 ys2 lo mid hi :
  owns_seq P xs1 lo mid ys1 -> owns_seq P xs2 mid hi ys2 ->
  owns_seq P (xs1 ++ xs2) lo hi (ys1 ++ ys2).
Proof.
  revert lo ys1. induction xs1 as [|x xs1 IH]; intros lo [|y ys1]; simpl; try tauto.
  - intros ->. tauto.
  - intros (m & Hp & Hs) H2. exists m. split; [exact Hp|]. now apply IH.
Qed.
End OwnsSplit.

Lemma owns_members_le h members lo hi items :
  owns_seq (owns_member h) members lo hi items -> lo <= hi.
Proof.
  apply owns_seq_le. apply Forall_true. intros; eapply owns_member_le; eauto.
Qed.

(** The member found under a key, the item that represents it, and the
    members on either side. *)
Lemma owns_members_split h k members : forall lo hi items jx,
  owns_seq (owns_member h) members lo hi items ->
  dict_get k members = Some jx ->
  exists pre post ipre ipost vx a b,
    members = pre ++ (k, jx) :: post /\ items = ipre ++ (k, vx) :: ipost
    /\ dict_get k items = Some vx
    /\ owns_seq (owns_member h) pre lo a ipre
    /\ owns h jx a b vx
    /\ owns_seq (owns_member h) post b hi ipost
    /\ (forall x, dict_set k x members = pre ++ (k, x) :: post)
    /\ (forall y, dict_set k y items = ipre ++ (k, y) :: ipost).
Proof.
  induction members as [|[k0 j0] members IH]; intros lo hi [|[k1 v1] items] jx;
    simpl; try tauto; try discriminate.
  intros (mid & [Hk Ho] & Hs). simpl in Hk. subst k1.
  destruct (decide (k = k0)) as [->|Hne].
  - intros [= ->].
    exists [], members, [], items, v1, lo, mid. simpl.
    destruct (decide (k0 = k0)); [|congruence].
    repeat split; auto.
  - intros Hg.
    destruct (IH _ _ _ _ Hs Hg)
      as (pre & post & ipre & ipost & vx & a & b & -> & -> & Hgi & Hpre & Hx & Hpost & Hsm & Hsi).
    exists ((k0, j0) :: pre), post, ((k0, v1) :: ipre), ipost, vx, a, b. simpl.
    destruct (decide (k = k0)); [congruence|].
    repeat split; auto.
    + exists mid. split; [split; auto|exact Hpre].
    + intros x. now rewrite Hsm.
    + intros y. now rewrite Hsi.
Qed.

Lemma owns_members_get_None h k members : forall lo hi items,
  owns_seq (owns_member h) members lo hi items ->
  dict_get k members = None -> dict_get k items = None.
Proof.
  induction members as [|[k0 j0] members IH]; intros lo hi [|[k1 v1] items];
    simpl; try tauto.
  intros (mid & [Hk Ho] & Hs). simpl in Hk. subst k1.
  destruct (decide (k = k0)); [discriminate|]. eauto.
Qed.

Lemma owns_members_mem h k members lo hi items :
  owns_seq (owns_member h) members lo hi items ->
  dict_mem k items = dict_mem k members.
Proof.
  intros Hs. unfold dict_mem. destruct (dict_get k members) as [jx|] eqn:Hg.
  - destruct (owns_members_split _ _ _ _ _ _ _ Hs Hg)
      as (? & ? & ? & ? & vx & ? & ? & _ & _ & -> & _). reflexivity.
  - now rewrite (owns_members_get_None _ _ _ _ _ _ Hs Hg).
Qed.

Lemma owns_is_str h k j lo hi v :
  owns h j lo hi v -> val_is_str k v = json_is_str k j.
Proof.
  destruct j; simpl; try (intros [-> _]; reflexivity).
  - intros (l & vs & -> & _). reflexivity.
  - intros (l & vs & -> & _). reflexivity.
Qed.

Lemma py_contains_owns h k j lo hi v :
  owns h j lo hi v -> py_contains h k v = json_contains k j.
Proof.
  destruct j; simpl; try (intros [-> _]; reflexivity).
  - intros (l & vs & -> & _ & Hh & Hs). simpl. rewrite Hh. f_equal.
    clear Hh. revert lo vs Hs.
    induction elems as [|e es IH]; intros lo [|y ys]; simpl; try tauto.
    intros (mid & Ho & Hs). erewrite owns_is_str by eauto. f_equal. eauto.
  - intros (l & items & -> & _ & Hh & Hs). simpl. rewrite Hh. f_equal.
    eapply owns_members_mem. exact Hs.
Qed.

Lemma py_getitem_raise h k j lo hi v e :
  owns h j lo hi v -> json_getitem j k = Raise e -> py_getitem h v k = Raise e.
Proof.
  destruct j; simpl; try (intros [-> _] [= <-]; reflexivity).
  - intros (l & vs & -> & _ & Hh & _) [= <-]. simpl. now rewrite Hh.
  - intros (l & items & -> & _ & Hh & Hs). simpl. rewrite Hh.
    destruct (dict_get k members) eqn:Hg; [discriminate|]. intros [= <-].
    now rewrite (owns_members_get_None _ _ _ _ _ _ Hs Hg).
Qed.

Lemma py_items_raise h j lo hi v e :
  owns h j lo hi v -> json_items j = Raise e -> py_items h v = Raise e.
Proof.
  destruct j; simpl; try (intros [-> _] [= <-]; reflexivity).
  - intros (l & vs & -> & _ & Hh & _) [= <-]. simpl. now rewrite Hh.
  - discriminate.
Qed.

Lemma owns_ref_range h j lo hi l :
  owns h j lo hi (VRef l) -> lo <= l < hi /\ l < length h.
Proof.
  destruct j; simpl; try (intros [[=] _]).
  - intros (l' & vs & [= <-] & Hl & Hh & Hs). apply lookup_lt_Some in Hh.
    apply owns_seq_le in Hs; [lia|]. apply Forall_true. intros; eapply owns_le; eauto.
  - intros (l' & vs & [= <-] & Hl & Hh & Hs). apply lookup_lt_Some in Hh.
    apply owns_members_le in Hs. lia.
Qed.

(** ** The merge step on a region *)

Lemma for_cons {A} (x : A) xs body st :
  for_ (x :: xs) body st =
  match body x st with
  | (Ok _, st') => for_ xs body st'
  | (Raise e, st') => (Raise e, st')
  end.
Proof. reflexivity. Qed.

(** The step on a region that is a dict. *)
Lemma update_field_dict t rn l f h out items :
  h !! l = Some (ODict items) ->
  update_field t rn (VRef l) f (State h out) =
  match dict_get f t with
  | Some fd =>
      match dict_get rn fd with
      | Some x =>
          match dict_get f items with
          | Some old =>
              (Ok tt, State (<[l := ODict (dict_set f (VFloat x) items)]> h)
                            (out ++ [Updated rn f old x]))
          | None => (Ok tt, State h (out ++ [WarnFieldNotFound f rn]))
          end
      | None => (Ok tt, State h out)
      end
  | None => (Ok tt, State h out)
  end.
Proof.
  intros Hh. unfold update_field.
  destruct (dict_get f t) as [fd|]; [|reflexivity].
  destruct (dict_get rn fd) as [x|]; [|reflexivity].
  unfold mbind, M_bind, get_heap, lift, py_setitem, print. simpl. rewrite Hh.
  unfold dict_mem. destruct (dict_get f items) as [old|]; simpl.
  - rewrite Hh. reflexivity.
  - reflexivity.
Qed.

(** The step on a region that is anything else. *)
Lemma update_field_other t rn v f h out j lo hi :
  owns h j lo hi v -> (forall members, j <> JObj members) ->
  exists vout,
    update_field t rn v f (State h out)
    = (match fst (merge_field t rn j f) with Ok _ => Ok tt | Raise e => Raise e end,
       State h (out ++ vout))
    /\ Forall2 (message_in h lo hi) (snd (merge_field t rn j f)) vout
    /\ (forall j', fst (merge_field t rn j f) = Ok j' -> j' = j).
Proof.
  intros Ho Hno. unfold update_field, merge_field.
  destruct (dict_get f t) as [fd|];
    [|exists []; rewrite app_nil_r; simpl; repeat split; [constructor|congruence]].
  destruct (dict_get rn fd) as [x|];
    [|exists []; rewrite app_nil_r; simpl; repeat split; [constructor|congruence]].
  unfold mbind, M_bind, get_heap, lift. simpl.
  rewrite (py_contains_owns _ f _ _ _ _ Ho).
  destruct (json_contains f j) as [[|]|e] eqn:Hc.
  - destruct (json_getitem j f) as [old|e] eqn:Hg.
    + destruct j; simpl in Hg; try discriminate. exfalso. eapply Hno. reflexivity.
    + rewrite (py_getitem_raise _ _ _ _ _ _ _ Ho Hg).
      exists []. rewrite app_nil_r. simpl. repeat split; [constructor|discriminate].
  - exists [WarnFieldNotFound f rn]. simpl. repeat split.
    + repeat constructor.
    + congruence.
  - exists []. rewrite app_nil_r. simpl. repeat split; [constructor|discriminate].
Qed.

Lemma message_in_frame h h' lo hi mj mv :
  agree lo hi h h' -> message_in h lo hi mj mv -> message_in h' lo hi mj mv.
Proof.
  intros Hag. destruct mj, mv; simpl; try tauto.
  intros (-> & -> & -> & a & b & Ha & Hb & Ho). repeat split; auto.
  exists a, b. repeat split; auto.
  eapply owns_frame; [|exact Ho]. eapply agree_sub; eauto.
Qed.

Lemma message_in_weaken h lo hi lo' hi' mj mv :
  lo' <= lo -> hi <= hi' -> message_in h lo hi mj mv -> message_in h lo' hi' mj mv.
Proof.
  intros Hlo Hhi. destruct mj, mv; simpl; try tauto.
  intros (-> & -> & -> & a & b & Ha & Hb & Ho). repeat split; auto.
  exists a, b. repeat split; auto; lia.
Qed.

(** All the selected fields on a region that is a dict: the dict is
    updated in place and nothing else changes. *)
Lemma update_region_dict t rn l lo fs : forall fields items h out,
  h !! l = Some (ODict items) ->
  owns_seq (owns_member h) fields lo l items ->
  exists fields' items' tout vout,
    merge_fields t rn (JObj fields) fs = (Ok (JObj fields'), tout)
    /\ for_ fs (update_field t rn (VRef l)) (State h out)
       = (Ok tt, State (<[l := ODict items']> h) (out ++ vout))
    /\ owns_seq (owns_member (<[l := ODict items']> h)) fields' lo l items'
    /\ Forall2 (message_in (<[l := ODict items']> h) lo l) tout vout.
Proof.
  induction fs as [|f fs IH]; intros fields items h out Hh Hs.
  - exists fields, items, [], []. rewrite app_nil_r, (list_insert_id _ _ _ Hh).
    repeat split; auto.
  - rewrite for_cons, (update_field_dict _ _ _ _ _ _ _ Hh). simpl.
    unfold merge_field. simpl.
    destruct (dict_get f t) as [fd|];
      [destruct (dict_get rn fd) as [x|]|].
    + unfold dict_mem. destruct (dict_get f fields) as [old|] eqn:Hg.
      * destruct (owns_members_split _ _ _ _ _ _ _ Hs Hg)
          as (pre & post & ipre & ipost & vx & a & b & Hm & Hi & Hgi & Hpre & Hx
              & Hpost & Hsm & Hsi).
        rewrite Hgi.
        pose proof (owns_members_le _ _ _ _ _ Hpre) as Hlea.
        pose proof (owns_members_le _ _ _ _ _ Hpost) as Hleb.
        pose proof (owns_le _ _ _ _ _ Hx) as Hab.
        pose proof (lookup_lt_Some _ _ _ Hh) as Hlt.
        set (h1 := <[l := ODict (dict_set f (VFloat x) items)]> h).
        assert (Hag : agree lo l h h1) by (apply agree_insert; lia).
        assert (Hh1 : h1 !! l = Some (ODict (dict_set f (VFloat x) items)))
          by (apply list_lookup_insert_eq; exact Hlt).
        assert (Hs1 : owns_seq (owns_member h1) (dict_set f (JFloat x) fields) lo l
                        (dict_set f (VFloat x) items)).
        { rewrite Hsm, Hsi. apply (owns_seq_app _ _ _ _ _ lo a l).
          - eapply owns_members_frame; [|exact Hpre].
            eapply agree_sub; [exact Hag|lia|lia].
          - simpl. exists b. split; [split; [reflexivity|simpl; split; [reflexivity|lia]]|].
            eapply owns_members_frame; [|exact Hpost].
            eapply agree_sub; [exact Hag|lia|lia]. }
        destruct (IH _ _ h1 (out ++ [Updated rn f vx x]) Hh1 Hs1)
          as (fields' & items' & tout & vout & Hmf & Hfor & Hs' & Hmsg).
        subst h1. rewrite list_insert_insert_eq in Hfor, Hs', Hmsg.
        exists fields', items', (Updated rn f old x :: tout), (Updated rn f vx x :: vout).
        rewrite Hmf. simpl. rewrite <- app_assoc in Hfor.
        split; [reflexivity|]. split; [exact Hfor|]. split; [exact Hs'|].
        constructor; [|exact Hmsg].
        simpl. repeat split; auto. exists a, b. repeat split; auto.
        eapply owns_frame; [|exact Hx]. apply agree_insert. lia.
      * rewrite (owns_members_get_None _ _ _ _ _ _ Hs Hg).
        destruct (IH _ _ h (out ++ [WarnFieldNotFound f rn]) Hh Hs)
          as (fields' & items' & tout & vout & Hmf & Hfor & Hs' & Hmsg).
        exists fields', items', (WarnFieldNotFound f rn :: tout),
               (WarnFieldNotFound f rn :: vout).
        rewrite Hmf. simpl. rewrite <- app_assoc in Hfor.
        split; [reflexivity|]. split; [exact Hfor|]. split; [exact Hs'|].
        constructor; [simpl; auto|exact Hmsg].
    + destruct (IH _ _ h out Hh Hs)
        as (fields' & items' & tout & vout & Hmf & Hfor & Hs' & Hmsg).
      exists fields', items', tout, vout. rewrite Hmf. simpl. auto.
    + destruct (IH _ _ h out Hh Hs)
        as (fields' & items' & tout & vout & Hmf & Hfor & Hs' & Hmsg).
      exists fields', items', tout, vout. rewrite Hmf. simpl. auto.
Qed.

Lemma update_region_other t rn v j lo hi fs : forall h out,
  owns h j lo hi v -> (forall members, j <> JObj members) ->
  exists tres tout vout,
    merge_fields t rn j fs = (tres, tout)
    /\ for_ fs (update_field t rn v) (State h out)
       = (match tres with Ok _ => Ok tt | Raise e => Raise e end,
          State h (out ++ vout))
    /\ Forall2 (message_in h lo hi) tout vout
    /\ (forall j', tres = Ok j' -> j' = j).
Proof.
  intros h out Ho Hno. revert out.
  induction fs as [|f fs IH]; intros out.
  - exists (Ok j), [], []. rewrite app_nil_r. repeat split; auto; congruence.
  - destruct (update_field_other t rn v f h out j lo hi Ho Hno)
      as (vout1 & Hstep & Hmsg1 & Hsame).
    rewrite for_cons, Hstep. simpl.
    destruct (merge_field t rn j f) as [[j1|e] tout1]; simpl in *.
    + rewrite (Hsame j1 eq_refl).
      destruct (IH (out ++ vout1)) as (tres & tout & vout & Hmf & Hfor & Hmsg & Hj).
      rewrite Hmf. exists tres, (tout1 ++ tout), (vout1 ++ vout).
      rewrite <- app_assoc in Hfor.
      split; [reflexivity|]. split; [exact Hfor|]. split; [|exact Hj].
      now apply Forall2_app.
    + exists (Raise e), tout1, vout1. repeat split; auto; discriminate.
Qed.

(** All the selected fields on one region, whatever the region is: only the
    objects of the region's own range can change. *)
Lemma update_region_refines t rn v j lo hi fs h out :
  owns h j lo hi v ->
  exists tres tout h' vout,
    merge_fields t rn j fs = (tres, tout)
    /\ for_ fs (update_field t rn v) (State h out)
       = (match tres with Ok _ => Ok tt | Raise e => Raise e end,
          State h' (out ++ vout))
    /\ length h' = length h
    /\ (forall a b, b <= lo \/ hi <= a -> agree a b h h')
    /\ Forall2 (message_in h' lo hi) tout vout
    /\ (forall j', tres = Ok j' -> owns h' j' lo hi v).
Proof.
  intros Ho.
  assert (Hcase : (exists members, j = JObj members) \/ forall members, j <> JObj members).
  { destruct j; try (right; discriminate). left. eauto. }
  destruct Hcase as [[fields ->]|Hno].
  - apply owns_obj in Ho. destruct Ho as (l & items & -> & Hl & Hh & Hs).
    pose proof (owns_members_le _ _ _ _ _ Hs) as Hlo.
    destruct (update_region_dict t rn l lo fs fields items h out Hh Hs)
      as (fields' & items' & tout & vout & Hmf & Hfor & Hs' & Hmsg).
    exists (Ok (JObj fields')), tout, (<[l := ODict items']> h), vout.
    split; [exact Hmf|]. split; [exact Hfor|]. split; [apply length_insert|].
    split; [intros a b Hab; apply agree_insert; lia|].
    split.
    + eapply Forall2_impl; [exact Hmsg|]. intros mj mv. apply message_in_weaken; lia.
    + intros j' [= <-]. apply owns_obj. exists l, items'.
      repeat split; auto. apply list_lookup_insert_eq. eapply lookup_lt_Some; eauto.
  - destruct (update_region_other t rn v j lo hi fs h out Ho Hno)
      as (tres & tout & vout & Hmf & Hfor & Hmsg & Hj).
    exists tres, tout, h, vout.
    split; [exact Hmf|]. split; [exact Hfor|]. split; [reflexivity|].
    split; [intros a b _; apply agree_refl|]. split; [exact Hmsg|].
    intros j' Hj'. rewrite (Hj _ Hj'). exact Ho.
Qed.

(** The loop over the regions. *)
Lemma update_regions_refines t fs : forall regs entries lo hi h out,
  owns_seq (owns_member h) regs lo hi entries ->
  exists tres tout h' vout,
    merge_regions t fs regs = (tres, tout)
    /\ for_ entries (update_region t fs) (State h out)
       = (match tres with Ok _ => Ok tt | Raise e => Raise e end,
          State h' (out ++ vout))
    /\ length h' = length h
    /\ (forall a b, b <= lo \/ hi <= a -> agree a b h h')
    /\ Forall2 (message_in h' lo hi) tout vout
    /\ (forall regs', tres = Ok regs' -> owns_seq (owns_member h') regs' lo hi entries).
Proof.
  induction regs as [|[rn j] regs IH]; intros [|[rn' v] entries] lo hi h out Hs0;
    simpl in Hs0; try tauto.
  - subst hi. exists (Ok []), [], h, []. rewrite app_nil_r.
    split; [reflexivity|]. split; [reflexivity|]. split; [reflexivity|].
    split; [intros a b _; apply agree_refl|]. split; [constructor|].
    intros regs' [= <-]. reflexivity.
  - destruct Hs0 as (mid & [Hrn Ho] & Hs). simpl in Hrn, Ho. subst rn'.
    pose proof (owns_le _ _ _ _ _ Ho) as Hle1.
    pose proof (owns_members_le _ _ _ _ _ Hs) as Hle2.
    destruct (update_region_refines t rn v j lo mid fs h out Ho)
      as (tres1 & tout1 & h1 & vout1 & Hmf & Hfor1 & Hlen1 & Hag1 & Hmsg1 & Ho1).
    rewrite for_cons. unfold update_region at 1. simpl. rewrite Hmf, Hfor1.
    destruct tres1 as [j1|e].
    + assert (Hs1 : owns_seq (owns_member h1) regs mid hi entries).
      { eapply owns_members_frame; [|exact Hs]. apply Hag1. lia. }
      destruct (IH entries mid hi h1 (out ++ vout1) Hs1)
        as (tres & tout & h2 & vout & Hmr & Hfor & Hlen & Hag & Hmsg & Hregs).
      rewrite Hmr. rewrite <- app_assoc in Hfor.
      exists (rbind tres (fun rs => Ok ((rn, j1) :: rs))), (tout1 ++ tout), h2,
             (vout1 ++ vout).
      split; [reflexivity|].
      split; [rewrite Hfor; destruct tres; reflexivity|].
      split; [lia|].
      split; [intros a b Hab; eapply agree_trans; [apply Hag1|apply Hag]; lia|].
      split.
      * apply Forall2_app.
        -- eapply Forall2_impl; [exact Hmsg1|]. intros mj mv Hm.
           eapply message_in_weaken; [| |eapply message_in_frame; [|exact Hm]];
             [lia|lia|]. apply Hag. lia.
        -- eapply Forall2_impl; [exact Hmsg|]. intros mj mv.
           apply message_in_weaken; lia.
      * intros regs'. destruct tres as [rs|e]; simpl; [|discriminate].
        intros [= <-]. simpl. exists mid. split; [|apply Hregs; reflexivity].
        split; [reflexivity|]. simpl. eapply owns_frame; [|apply Ho1; reflexivity].
        apply Hag. lia.
    + exists (Raise e), tout1, h1, vout1.
      split; [reflexivity|]. split; [reflexivity|]. split; [exact Hlen1|].
      split; [intros a b Hab; apply Hag1; lia|].
      split; [|discriminate].
      eapply Forall2_impl; [exact Hmsg1|]. intros mj mv. apply message_in_weaken; lia.
Qed.

(** ** The merge refines its specification *)

Lemma run_merge_unfold t h config fs :
  run_merge t h config fs =
  match dumps h config with
  | None => (Raise ValueError, State h [])
  | Some j =>
      let '(v, h1) := loads j h in
      match py_contains h1 "regions" v with
      | Ok true =>
          match py_getitem h1 v "regions" with
          | Ok regions =>
              match py_items h1 regions with
              | Ok entries =>
                  match for_ entries (update_region t fs) (State h1 []) with
                  | (Ok _, st) => (Ok v, st)
                  | (Raise e, st) => (Raise e, st)
                  end
              | Raise e => (Raise e, State h1 [])
              end
          | Raise e => (Raise e, State h1 [])
          end
      | Ok false => (Ok v, State h1 [WarnNoRegions])
      | Raise e => (Raise e, State h1 [])
      end
  end.
Proof.
  unfold run_merge, update_config_with_calibration, deep_copy, mbind, M_bind,
    get_heap, lift, mret, M_ret, print. simpl.
  destruct (dumps h config) as [j|]; [|reflexivity].
  destruct (loads j h) as [v h1]. simpl.
  destruct (py_contains h1 "regions" v) as [[|]|e]; reflexivity.
Qed.

Lemma agree_prefix (h ext h' : heap) :
  length h' = length (h ++ ext) -> agree 0 (length h) (h ++ ext) h' ->
  exists ext', h' = h ++ ext'.
Proof.
  intros Hlen Hag. exists (drop (length h) h').
  rewrite <- (take_drop (length h) h') at 1. f_equal.
  apply list_eq. intros i. destruct (decide (i < length h)) as [Hi|Hi].
  - rewrite lookup_take_lt by exact Hi. rewrite Hag by lia. now apply lookup_app_l.
  - rewrite lookup_take_ge by lia. symmetry. apply lookup_ge_None. lia.
Qed.

Theorem merge_refines t fs h config j :
  dumps h config = Some j ->
  exists tres tout res h' vout,
    merge_json t fs j = (tres, tout)
    /\ run_merge t h config fs = (res, State h' vout)
    /\ (exists ext, h' = h ++ ext)
    /\ Forall2 (message_in h' (length h) (length h')) tout vout
    /\ match tres with
       | Ok j' => exists out, res = Ok out /\ owns h' j' (length h) (length h') out
       | Raise e => res = Raise e
       end.
Proof.
  intros Hd. rewrite run_merge_unfold, Hd.
  destruct (loads j h) as [v h1] eqn:Hl.
  destruct (loads_owns _ _ _ _ Hl) as (ext & -> & Ho).
  rewrite (py_contains_owns _ "regions" _ _ _ _ Ho). unfold merge_json.
  destruct (json_contains "regions" j) as [[|]|e] eqn:Hc.
  2:{ exists (Ok j), [WarnNoRegions], (Ok v), (h ++ ext), [WarnNoRegions].
      repeat split; eauto. repeat constructor. }
  2:{ exists (Raise e), [], (Raise e), (h ++ ext), []. repeat split; eauto. }
  destruct (json_getitem j "regions") as [jr|e] eqn:Hg.
  2:{ rewrite (py_getitem_raise _ _ _ _ _ _ _ Ho Hg).
      exists (Raise e), [], (Raise e), (h ++ ext), []. repeat split; eauto. }
  destruct j as [| | | | | |members]; simpl in Hg; try discriminate.
  destruct (dict_get "regions" members) as [jr'|] eqn:Hgm; [|discriminate].
  injection Hg as ->.
  apply owns_obj in Ho. destruct Ho as (l0 & items & -> & Hl0 & Hh0 & Hs).
  destruct (owns_members_split _ _ _ _ _ _ _ Hs Hgm)
    as (pre & post & ipre & ipost & vr & a & b & Hm & Hi & Hgi & Hpre & Hr & Hpost
        & Hsm & _).
  pose proof (owns_members_le _ _ _ _ _ Hpre) as Hlea.
  pose proof (owns_members_le _ _ _ _ _ Hpost) as Hleb.
  simpl py_getitem. rewrite Hh0, Hgi.
  destruct (json_items jr) as [regs|e] eqn:Hit.
  2:{ rewrite (py_items_raise _ _ _ _ _ _ Hr Hit).
      exists (Raise e), [], (Raise e), (h ++ ext), []. repeat split; eauto. }
  destruct jr as [| | | | | |regs0]; simpl in Hit; try discriminate.
  injection Hit as ->.
  apply owns_obj in Hr. destruct Hr as (lr & ritems & -> & Hlr & Hhr & Hrs).
  pose proof (owns_members_le _ _ _ _ _ Hrs) as Hler.
  simpl py_items. rewrite Hhr.
  destruct (update_regions_refines t fs regs ritems a lr (h ++ ext) [] Hrs)
    as (tres & tout & h2 & vout & Hmr & Hfor & Hlen & Hag & Hmsg & Hregs).
  rewrite Hmr, Hfor. simpl.
  assert (Hext : exists ext', h2 = h ++ ext').
  { apply (agree_prefix h ext); [exact Hlen|]. apply Hag. lia. }
  assert (Hmsg' : Forall2 (message_in h2 (length h) (length h2)) tout vout).
  { eapply Forall2_impl; [exact Hmsg|]. intros mj mv.
    apply message_in_weaken; lia. }
  assert (Hout : forall l, l < a \/ lr <= l -> h2 !! l = (h ++ ext) !! l).
  { intros l Hrange. apply (Hag l (S l)); lia. }
  destruct tres as [regs'|e].
  - exists (Ok (JObj (dict_set "regions" (JObj regs') members))), tout,
           (Ok (VRef l0)), h2, vout.
    split; [reflexivity|]. split; [reflexivity|]. split; [exact Hext|].
    split; [exact Hmsg'|].
    exists (VRef l0). split; [reflexivity|].
    apply owns_obj. exists l0, items. split; [reflexivity|].
    split; [lia|]. split; [rewrite Hout by lia; exact Hh0|].
    rewrite Hsm, Hi. apply (owns_seq_app _ _ _ _ _ _ a l0).
    + eapply owns_members_frame; [|exact Hpre]. apply Hag. lia.
    + simpl. exists b. split.
      * split; [reflexivity|]. simpl. exists lr, ritems.
        split; [reflexivity|]. split; [exact Hlr|].
        split; [rewrite Hout by lia; exact Hhr|]. apply Hregs. reflexivity.
      * eapply owns_members_frame; [|exact Hpost]. apply Hag. lia.
  - exists (Raise e), tout, (Raise e), h2, vout.
    split; [reflexivity|]. split; [reflexivity|]. split; [exact Hext|].
    split; [exact Hmsg'|reflexivity].
Qed.

(** ** The merge on trees *)

Section MergeJsonFacts.
Variable t : table.

(** The step on an object. *)
Lemma merge_field_obj rn fields f :
  merge_field t rn (JObj fields) f =
  match dict_get f t with
  | Some fd =>
      match dict_get rn fd with
      | Some x =>
          match dict_get f fields with
          | Some old => (Ok (JObj (dict_set f (JFloat x) fields)), [Updated rn f old x])
          | None => (Ok (JObj fields), [WarnFieldNotFound f rn])
          end
      | None => (Ok (JObj fields), [])
      end
  | None => (Ok (JObj fields), [])
  end.
Proof.
  unfold merge_field. simpl. unfold dict_mem.
  destruct (dict_get f t) as [fd|]; [|reflexivity].
  destruct (dict_get rn fd) as [x|]; [|reflexivity].
  destruct (dict_get f fields); reflexivity.
Qed.

(** The step on anything else, when it does not raise. *)
Lemma merge_field_other rn rc f rc' out :
  (forall fields, rc <> JObj fields) ->
  merge_field t rn rc f = (Ok rc', out) ->
  rc' = rc
  /\ (out = [] \/ out = [WarnFieldNotFound f rn])
  /\ (forall fd x, dict_get f t = Some fd -> dict_get rn fd = Some x ->
        json_contains f rc = Ok false).
Proof.
  intros Hno. unfold merge_field.
  destruct (dict_get f t) as [fd|] eqn:Ht;
    [|intros [= <- <-]; repeat split; auto; congruence].
  destruct (dict_get rn fd) as [x|] eqn:Hr;
    [|intros [= <- <-]; repeat split; auto; congruence].
  destruct (json_contains f rc) as [[|]|e]; try discriminate.
  - destruct rc; simpl; try discriminate. exfalso. eapply Hno. reflexivity.
  - intros [= <- <-]. repeat split; auto.
Qed.

Lemma merge_fields_other rn rc fs : forall rc' out,
  (forall fields, rc <> JObj fields) ->
  merge_fields t rn rc fs = (Ok rc', out) ->
  rc' = rc
  /\ Forall (fun m => is_warning m = true) out
  /\ (forall f fd x, In f fs -> dict_get f t = Some fd -> dict_get rn fd = Some x ->
        json_contains f rc = Ok false).
Proof.
  induction fs as [|f fs IH]; intros rc' out Hno; simpl.
  - intros [= <- <-]. repeat split; auto. intros ? ? ? [].
  - destruct (merge_field t rn rc f) as [[rc1|e] out1] eqn:Hstep; [|discriminate].
    destruct (merge_field_other _ _ _ _ _ Hno Hstep) as (-> & Hout1 & Hc).
    destruct (merge_fields t rn rc fs) as [r out2] eqn:Hrest.
    intros [= -> <-]. destruct (IH _ _ Hno eq_refl) as (-> & Hout2 & Hcs).
    split; [reflexivity|]. split.
    + apply Forall_app. split; [|exact Hout2].
      destruct Hout1 as [->| ->]; repeat constructor.
    + intros f' fd x [<-|Hin]; eauto.
Qed.

Lemma merge_fields_obj rn fs : forall fields,
  exists fields' out, merge_fields t rn (JObj fields) fs = (Ok (JObj fields'), out).
Proof.
  induction fs as [|f fs IH]; intros fields; simpl.
  - eauto.
  - rewrite merge_field_obj.
    destruct (dict_get f t) as [fd|]; [destruct (dict_get rn fd) as [x|];
      [destruct (dict_get f fields) as [old|]|]|].
    all: match goal with
         | |- context [merge_fields _ _ (JObj ?fl) _] =>
             destruct (IH fl) as (fields' & out & ->); eauto
         end.
Qed.

(** The regions whose merge returned. *)
Lemma merge_regions_Ok fs regs : forall regs' out,
  merge_regions t fs regs = (Ok regs', out) ->
  Forall2 (fun r r' => fst r' = fst r
             /\ exists o, merge_fields t (fst r) (snd r) fs = (Ok (snd r'), o))
          regs regs'.
Proof.
  induction regs as [|[rn rc] regs IH]; intros regs' out; simpl.
  - intros [= <- <-]. constructor.
  - destruct (merge_fields t rn rc fs) as [[rc1|e] out1] eqn:Hf; [|discriminate].
    destruct (merge_regions t fs regs) as [[regs1|e] out2] eqn:Hr; simpl;
      [|discriminate].
    intros [= <- <-]. constructor; [|eapply IH; reflexivity].
    simpl. split; [reflexivity|]. eauto.
Qed.

(** The shape of a document whose merge returned. *)
Lemma merge_json_Ok fs j j' out :
  merge_json t fs j = (Ok j', out) ->
  (json_contains "regions" j = Ok false /\ j' = j /\ out = [WarnNoRegions])
  \/ (exists members regs regs',
        j = JObj members /\ dict_get "regions" members = Some (JObj regs)
        /\ merge_regions t fs regs = (Ok regs', out)
        /\ j' = JObj (dict_set "regions" (JObj regs') members)).
Proof.
  unfold merge_json.
  destruct (json_contains "regions" j) as [[|]|e] eqn:Hc; try discriminate.
  - destruct (json_getitem j "regions") as [jr|e] eqn:Hg; [|discriminate].
    destruct j as [| | | | | |members]; simpl in Hg; try discriminate.
    destruct (dict_get "regions" members) as [jr'|] eqn:Hgm; [|discriminate].
    injection Hg as ->.
    destruct (json_items jr) as [regs|e] eqn:Hi; [|discriminate].
    destruct jr; simpl in Hi; try discriminate. injection Hi as ->.
    destruct (merge_regions t fs regs) as [[regs'|e] out'] eqn:Hr; simpl;
      [|discriminate].
    intros [= <- <-]. right. exists members, regs, regs'. auto.
  - intros [= <- <-]. left. auto.
Qed.
End MergeJsonFacts.

(** * The claims *)


(** ** C2: the input document is left alone *)

Lemma owns_seq_In {A B} (P : A -> nat -> nat -> B -> Prop) xs :
  Forall (fun x => forall lo hi y, P x lo hi y -> lo <= hi) xs ->
  forall lo hi ys y, owns_seq P xs lo hi ys -> In y ys ->
    exists x a b, P x a b y /\ lo <= a /\ b <= hi.
Proof.
  induction 1 as [|x xs Hx Hxs IH]; intros lo hi [|y0 ys] y; simpl; try tauto.
  intros (mid & Hp & Hs) [<-|Hin].
  - pose proof (owns_seq_le _ _ Hxs _ _ _ Hs). exists x, lo, mid. auto.
  - destruct (IH _ _ _ _ Hs Hin) as (x' & a & b & Hp' & Ha & Hb).
    pose proof (Hx _ _ _ Hp). exists x', a, b. repeat split; auto; lia.
Qed.

Lemma owns_reachable h v l :
  reachable h v l -> forall j lo hi, owns h j lo hi v -> lo <= l < hi.
Proof.
  induction 1 as [l|l elems v l' Hh Hin _ IH|l items k v l' Hh Hin _ IH];
    intros j lo hi Ho.
  - now apply owns_ref_range in Ho.
  - destruct j; simpl in Ho; try (destruct Ho as [[=] _]);
      destruct Ho as (l0 & vs & [= <-] & Hl & Hh' & Hs); rewrite Hh in Hh';
      [|discriminate].
    injection Hh' as <-.
    eapply owns_seq_In in Hs; [|apply Forall_true; intros; eapply owns_le; eauto|exact Hin].
    destruct Hs as (e & a & b & Ho & Ha & Hb). apply IH in Ho. lia.
  - destruct j; simpl in Ho; try (destruct Ho as [[=] _]);
      destruct Ho as (l0 & vs & [= <-] & Hl & Hh' & Hs); rewrite Hh in Hh';
      [discriminate|].
    injection Hh' as <-.
    eapply (owns_seq_In (owns_member h)) in Hs;
      [|apply Forall_true; intros; eapply owns_member_le; eauto|exact Hin].
    destruct Hs as (e & a & b & [_ Ho] & Ha & Hb). apply IH in Ho. lia.
Qed.

Lemma mapM_ext_Some {A B} (f g : A -> option B) xs ys :
  (forall x y, In x xs -> f x = Some y -> g x = Some y) ->
  mapM f xs = Some ys -> mapM g xs = Some ys.
Proof.
  revert ys. induction xs as [|x xs IH]; intros ys Hfg; simpl.
  - auto.
  - destruct (f x) as [y|] eqn:Hf; simpl; [|discriminate].
    destruct (mapM f xs) as [ys'|] eqn:Hm; simpl; [|discriminate].
    intros [= <-]. rewrite (Hfg x y) by (simpl; auto). simpl.
    rewrite (IH ys') by (intros; eauto using in_cons). reflexivity.
Qed.

(** A dump still succeeds, with the same tree, with more fuel and in a heap
    with more objects. *)
Lemma dumps_fuel_mono (h ext : heap) n : forall m v j,
  n <= m -> dumps_fuel n h v = Some j -> dumps_fuel m (h ++ ext) v = Some j.
Proof.
  induction n as [|n IH]; intros m v j Hnm; destruct v; simpl;
    try (destruct m; simpl; intros Hd; exact Hd); try discriminate.
  destruct m as [|m]; [lia|]. simpl.
  destruct (h !! l) as [[items|elems]|] eqn:Hh; [| |discriminate];
    rewrite (lookup_app_l_Some _ _ _ _ Hh).
  - destruct (mapM _ items) as [ms|] eqn:Hm; simpl; [|discriminate].
    intros [= <-]. erewrite mapM_ext_Some; [reflexivity| |exact Hm].
    intros [k v] [k' j'] _. simpl.
    destruct (dumps_fuel n h v) as [jv|] eqn:Hv; simpl; [|discriminate].
    intros [= <- <-]. rewrite (IH m v jv) by (auto; lia). reflexivity.
  - destruct (mapM _ elems) as [es|] eqn:Hm; simpl; [|discriminate].
    intros [= <-]. erewrite mapM_ext_Some; [reflexivity| |exact Hm].
    intros v jv _ Hv. apply IH; [lia|exact Hv].
Qed.

Lemma dumps_app h ext v j : dumps h v = Some j -> dumps (h ++ ext) v = Some j.
Proof.
  unfold dumps. apply dumps_fuel_mono. rewrite length_app. lia.
Qed.

Lemma merge_extends_heap t fs h config :
  exists ext, st_heap (snd (run_merge t h config fs)) = h ++ ext.
Proof.
  destruct (dumps h config) as [j|] eqn:Hd.
  - destruct (merge_refines t fs h config j Hd)
      as (tres & tout & res' & h' & vout & _ & Hrun' & Hext & _).
    rewrite Hrun'. exact Hext.
  - rewrite run_merge_unfold, Hd. exists []. simpl. now rewrite app_nil_r.
Qed.

(** C2.  Whatever the input, every object that existed before the merge is
    the same after it, so the input document reads as before; and the
    document returned is made of new objects only: none of the objects it
    leads to existed before the call. *)
Theorem merge_leaves_input_unchanged (t : table) (fs : list string) (h : heap)
    (config : val) :
  let '(res, st) := run_merge t h config fs in
  (exists ext, st_heap st = h ++ ext)
  /\ (forall l o, h !! l = Some o -> st_heap st !! l = Some o)
  /\ (forall j, dumps h config = Some j -> dumps (st_heap st) config = Some j)
  /\ (forall out l, res = Ok out -> reachable (st_heap st) out l -> length h <= l).
Proof.
  destruct (run_merge t h config fs) as [res st] eqn:Hrun.
  assert (Hext : exists ext, st_heap st = h ++ ext
            /\ forall out l, res = Ok out -> reachable (st_heap st) out l ->
                 length h <= l).
  { destruct (dumps h config) as [j|] eqn:Hd.
    - destruct (merge_refines t fs h config j Hd)
        as (tres & tout & res' & h' & vout & _ & Hrun' & [ext ->] & _ & Hres).
      rewrite Hrun in Hrun'. injection Hrun' as -> ->. simpl.
      exists ext. split; [reflexivity|]. intros out l ->.
      destruct tres as [j'|e]; [|discriminate].
      destruct Hres as (out' & [= <-] & Ho). intros Hreach.
      eapply owns_reachable in Hreach; [|exact Ho]. lia.
    - rewrite run_merge_unfold, Hd in Hrun. injection Hrun as <- <-. simpl.
      exists []. split; [now rewrite app_nil_r|]. discriminate. }
  destruct Hext as (ext & Hheap & Hfresh). rewrite Hheap.
  split; [eauto|]. split; [|split].
  - intros l o Hl. now apply lookup_app_l_Some.
  - intros j. apply dumps_app.
  - rewrite <- Hheap. exact Hfresh.
Qed.

(** ** C5: a document without regions *)

Lemma merge_refines_dumps t fs h config j :
  dumps h config = Some j ->
  exists res h' vout,
    run_merge t h config fs = (res, State h' vout)
    /\ Forall2 (message_reads h') (snd (merge_json t fs j)) vout
    /\ match fst (merge_json t fs j) with
       | Ok j' => exists out, res = Ok out /\ dumps h' out = Some j'
       | Raise e => res = Raise e
       end.
Proof.
  intros Hd.
  destruct (merge_refines t fs h config j Hd)
    as (tres & tout & res & h' & vout & Hmj & Hrun & _ & Hmsg & Hres).
  exists res, h', vout. rewrite Hmj. simpl. split; [exact Hrun|]. split.
  - eapply Forall2_impl; [exact Hmsg|]. intros mj mv.
    destruct mj, mv; simpl; try tauto.
    intros (-> & -> & -> & a & b & Ha & Hb & Ho). repeat split; auto.
    eapply owns_dumps; exact Ho.
  - destruct tres as [j'|e]; [|exact Hres].
    destruct Hres as (out & -> & Ho). exists out. split; [reflexivity|].
    eapply owns_dumps; exact Ho.
Qed.

Lemma dumps_ref_lt h l j : dumps h (VRef l) = Some j -> l < length h.
Proof.
  unfold dumps. simpl. destruct (h !! l) as [o|] eqn:Hl; [|discriminate].
  intros _. eapply lookup_lt_Some; exact Hl.
Qed.

(** C5.  When the top-level dict of the document has no key [regions], the
    merge returns normally, having printed the warning and no change record.
    What it returns is a copy equal to the input: it reads as the input
    does, it is not the input object, and none of the objects it leads to
    existed before the call; the objects that existed are as they were and
    the input reads as before. *)
Theorem merge_without_regions (t : table) (fs : list string) (h : heap)
    (config : val) (members : list (string * json)) :
  dumps h config = Some (JObj members) ->
  dict_mem "regions" members = false ->
  exists out h',
    run_merge t h config fs = (Ok out, State h' [WarnNoRegions])
    /\ dumps h' out = Some (JObj members)
    /\ dumps h' config = Some (JObj members)
    /\ out <> config
    /\ (forall l, reachable h' out l -> length h <= l)
    /\ (forall l o, h !! l = Some o -> h' !! l = Some o).
Proof.
  intros Hd Hm.
  destruct (merge_refines t fs h config _ Hd)
    as (tres & tout & res & h' & vout & Hmj & Hrun & [ext ->] & Hmsg & Hres).
  unfold merge_json in Hmj. cbn [json_contains] in Hmj. rewrite Hm in Hmj.
  injection Hmj as <- <-. destruct Hres as (out & -> & Ho).
  inversion Hmsg as [|mj mv tj tv Hm1 Hrest]; subst. inversion Hrest; subst.
  destruct mv; simpl in Hm1; try tauto.
  assert (Hfresh : forall l, reachable (h ++ ext) out l -> length h <= l).
  { intros l Hreach. eapply owns_reachable in Hreach; [|exact Ho]. lia. }
  exists out, (h ++ ext). split; [exact Hrun|].
  split; [eapply owns_dumps; exact Ho|]. split; [now apply dumps_app|].
  split; [|split; [exact Hfresh|]].
  - intros ->. destruct config as [| | | | |l]; try discriminate.
    pose proof (dumps_ref_lt _ _ _ Hd) as Hlt.
    pose proof (Hfresh l (reach_here _ l)). lia.
  - intros l o Hl. now apply lookup_app_l_Some.
Qed.

(** ** C1: the merge step, for every region and every selected field *)

Section SpecSteps.
Variable t : table.

Lemma merge_field_spec rn rc f :
  merge_field t rn (JObj rc) f
  = (Ok (JObj (fst (spec_step t rn rc f))), snd (spec_step t rn rc f)).
Proof.
  rewrite merge_field_obj. unfold spec_step.
  destruct (dict_get f t) as [fd|]; [|reflexivity].
  destruct (dict_get rn fd) as [x|]; [|reflexivity].
  destruct (dict_get f rc); reflexivity.
Qed.

Lemma merge_fields_spec rn fs : forall rc,
  merge_fields t rn (JObj rc) fs
  = (Ok (JObj (fst (spec_fields t rn rc fs))), snd (spec_fields t rn rc fs)).
Proof.
  induction fs as [|f fs IH]; intros rc; [reflexivity|].
  cbn [merge_fields spec_fields]. rewrite merge_field_spec.
  destruct (spec_step t rn rc f) as [rc' o]. cbn [fst snd]. rewrite IH.
  destruct (spec_fields t rn rc' fs) as [rc'' o']. reflexivity.
Qed.

Lemma merge_regions_spec fs regions :
  merge_regions t fs (map region_tree regions)
  = (Ok (map region_tree (fst (spec_regions t fs regions))),
     snd (spec_regions t fs regions)).
Proof.
  induction regions as [|[rn rc] regions IH]; [reflexivity|].
  cbn [map region_tree fst snd merge_regions spec_regions].
  rewrite merge_fields_spec.
  destruct (spec_fields t rn rc fs) as [rc' o]. cbn [fst snd]. rewrite IH.
  destruct (spec_regions t fs regions) as [regions' o']. reflexivity.
Qed.

Lemma spec_step_keys rn rc f :
  dict_keys (fst (spec_step t rn rc f)) = dict_keys rc.
Proof.
  unfold spec_step.
  destruct (dict_get f t) as [fd|]; [|reflexivity].
  destruct (dict_get rn fd) as [x|]; [|reflexivity].
  destruct (dict_get f rc) as [old|] eqn:Hg; [|reflexivity].
  cbn [fst]. apply dict_keys_set_mem. unfold dict_mem. now rewrite Hg.
Qed.

Lemma spec_fields_keys rn fs : forall rc,
  dict_keys (fst (spec_fields t rn rc fs)) = dict_keys rc.
Proof.
  induction fs as [|f fs IH]; intros rc; [reflexivity|].
  cbn [spec_fields]. pose proof (spec_step_keys rn rc f) as Hk.
  destruct (spec_step t rn rc f) as [rc' o]. cbn [fst] in Hk.
  pose proof (IH rc') as Hk'.
  destruct (spec_fields t rn rc' fs) as [rc'' o']. cbn [fst] in *. congruence.
Qed.

Lemma spec_regions_keys fs regions :
  Forall2 (fun r r' => fst r = fst r' /\ dict_keys (snd r) = dict_keys (snd r'))
          regions (fst (spec_regions t fs regions)).
Proof.
  induction regions as [|[rn rc] regions IH]; [constructor|].
  cbn [spec_regions]. pose proof (spec_fields_keys rn fs rc) as Hk.
  destruct (spec_fields t rn rc fs) as [rc' o].
  destruct (spec_regions t fs regions) as [regions' o']. cbn [fst snd] in *.
  constructor; [split; [reflexivity|now symmetry]|exact IH].
Qed.

End SpecSteps.

(** C1.  On every document whose [regions] is a mapping of mappings the merge
    refines the steps of the specification taken for every region entry, in
    the order of the document, and for every field, in the order of the
    selector: it returns a document that reads as the input with [regions]
    replaced by the regions these steps give, and it has printed what they
    record, each change with the old value the step found.  A step skips
    when the table has no row for the field or the row no value for the
    region, warns and skips when the region lacks the field, and otherwise
    overwrites the field with the table's value; no step inserts a key, so
    every region keeps its keys in their order. *)
Theorem merge_applies_steps (t : table) (fs : list string) (h : heap) (config : val)
    (members : list (string * json))
    (regions : list (string * list (string * json))) :
  dumps h config = Some (JObj members) ->
  dict_get "regions" members = Some (JObj (map region_tree regions)) ->
  exists out st,
    run_merge t h config fs = (Ok out, st)
    /\ dumps (st_heap st) out
       = Some (JObj (dict_set "regions"
                       (JObj (map region_tree (fst (spec_regions t fs regions))))
                       members))
    /\ Forall2 (message_reads (st_heap st)) (snd (spec_regions t fs regions))
               (st_out st)
    /\ Forall2 (fun r r' => fst r = fst r' /\ dict_keys (snd r) = dict_keys (snd r'))
               regions (fst (spec_regions t fs regions)).
Proof.
  intros Hd Hg.
  destruct (merge_refines_dumps t fs h config _ Hd)
    as (res & h' & vout & Hrun & Hmsg & Hres).
  assert (merge_json t fs (JObj members)
          = (Ok (JObj (dict_set "regions"
                         (JObj (map region_tree (fst (spec_regions t fs regions))))
                         members)),
             snd (spec_regions t fs regions))) as Hmj.
  { unfold merge_json. cbn [json_contains json_getitem]. unfold dict_mem.
    rewrite Hg. cbn [json_items]. rewrite merge_regions_spec. reflexivity. }
  rewrite Hmj in Hmsg, Hres. cbn [fst snd] in Hmsg, Hres.
  destruct Hres as (out & -> & Hout).
  exists out, (State h' vout). split; [exact Hrun|]. split; [exact Hout|].
  split; [exact Hmsg|]. apply spec_regions_keys.
Qed.

Lemma merge_applies_steps_witness :
  dumps example_heap example_config = Some example_doc
  /\ exists out st,
       run_merge example_table example_heap example_config
         ["brightness_threshold"; "full_fill_percent"; "empty_fill_percent"]
       = (Ok out, st)
       /\ dumps (st_heap st) out = Some example_merged
       /\ Forall2 (message_reads (st_heap st))
            [Updated "A" "full_fill_percent" (JInt 10) example_value] (st_out st)
       /\ Forall2 (fun r r' => fst r = fst r' /\ dict_keys (snd r) = dict_keys (snd r'))
            [("A", [("full_fill_percent", JInt 10); ("name", JStr "left")])]
            [("A", [("full_fill_percent", JFloat example_value); ("name", JStr "left")])].
Proof.
  split; [reflexivity|].
  apply (merge_applies_steps example_table
           ["brightness_threshold"; "full_fill_percent"; "empty_fill_percent"]
           example_heap example_config
           [("regions",
             JObj [("A", JObj [("full_fill_percent", JInt 10); ("name", JStr "left")])]);
            ("version", JInt 2)]
           [("A", [("full_fill_percent", JInt 10); ("name", JStr "left")])]);
    reflexivity.
Defined.

(** ** C9: regions that are not a mapping *)

Lemma Forall2_In_l {A B} (R : A -> B -> Prop) xs ys x :
  Forall2 R xs ys -> In x xs -> exists y, In y ys /\ R x y.
Proof.
  induction 1 as [|x0 y0 xs ys HR _ IH]; simpl; [tauto|].
  intros [<-|Hin]; [eauto|]. destruct (IH Hin) as (y & Hy & Hxy). eauto.
Qed.

Lemma run_merge_Ok t fs h config j out st :
  dumps h config = Some j -> run_merge t h config fs = (Ok out, st) ->
  exists j', fst (merge_json t fs j) = Ok j'
             /\ dumps (st_heap st) out = Some j'
             /\ Forall2 (message_reads (st_heap st)) (snd (merge_json t fs j)) (st_out st).
Proof.
  intros Hd Hrun.
  destruct (merge_refines_dumps t fs h config j Hd) as (res & h' & vout & Hrun' & Hmsg & Hres).
  rewrite Hrun in Hrun'. injection Hrun' as <- ->.
  destruct (fst (merge_json t fs j)) as [j'|e]; [|discriminate].
  destruct Hres as (out' & [= <-] & Hout). exists j'. simpl. auto.
Qed.

(** C9, as the code has it.  When [regions] is there and is not a dict the
    merge raises [AttributeError], having printed nothing.  When the merge
    returns and [regions] is there, [regions] is a dict, and an entry for
    whose region the table has a value of a selected field is a dict, or a
    list or a string that does not contain the field.  Entries the table has
    nothing for are not looked at. *)
Theorem merge_needs_regions_dict (t : table) (fs : list string) (h : heap)
    (config : val) (members : list (string * json)) (jr : json) :
  dumps h config = Some (JObj members) ->
  dict_get "regions" members = Some jr ->
  ((forall regs, jr <> JObj regs) ->
     exists h', run_merge t h config fs = (Raise AttributeError, State h' []))
  /\ (forall out st, run_merge t h config fs = (Ok out, st) ->
      exists regs, jr = JObj regs
        /\ forall rn rc f fd x, In (rn, rc) regs -> In f fs ->
             dict_get f t = Some fd -> dict_get rn fd = Some x ->
             (exists fields, rc = JObj fields) \/ json_contains f rc = Ok false).
Proof.
  intros Hd Hg. split.
  - intros Hno.
    destruct (merge_refines_dumps t fs h config _ Hd)
      as (res & h' & vout & Hrun & Hmsg & Hres).
    unfold merge_json in Hmsg, Hres. simpl in Hmsg, Hres.
    unfold dict_mem in Hmsg, Hres. rewrite Hg in Hmsg, Hres.
    assert (Hit : json_items jr = Raise AttributeError).
    { destruct jr; try reflexivity. exfalso. eapply Hno. reflexivity. }
    rewrite Hit in Hmsg, Hres. simpl in Hmsg, Hres. subst res.
    inversion Hmsg; subst. eauto.
  - intros out st Hrun.
    destruct (run_merge_Ok _ _ _ _ _ _ _ Hd Hrun) as (j' & Hj' & _).
    destruct (merge_json t fs (JObj members)) as [r o] eqn:Hmj. simpl in Hj'. subst r.
    destruct (merge_json_Ok _ _ _ _ _ Hmj)
      as [(Hc & _)|(ms & regs & regs' & [= <-] & Hgr & Hmr & _)].
    + simpl in Hc. unfold dict_mem in Hc. rewrite Hg in Hc. discriminate.
    + rewrite Hg in Hgr. injection Hgr as ->. exists regs. split; [reflexivity|].
      intros rn rc f fd x Hin Hf Ht Hr.
      destruct (Forall2_In_l _ _ _ _ (merge_regions_Ok _ _ _ _ _ Hmr) Hin)
        as ([rn' rc'] & _ & _ & o' & Hmf). simpl in Hmf.
      assert (Hcase : (exists fields, rc = JObj fields) \/ forall fields, rc <> JObj fields).
      { destruct rc; try (right; discriminate). left; eauto. }
      destruct Hcase as [Hobj|Hno]; [now left|right].
      destruct (merge_fields_other _ _ _ _ _ _ Hno Hmf) as (_ & _ & Hc). eauto.
Qed.

Lemma merge_needs_regions_dict_witness :
  let h := [OList []; ODict [("regions", VRef 0)]] in
  dumps h (VRef 1) = Some (JObj [("regions", JArr [])])
  /\ exists h', run_merge [] h (VRef 1) ["f"] = (Raise AttributeError, State h' []).
Proof.
  split; [reflexivity|].
  apply (merge_needs_regions_dict [] ["f"] [OList []; ODict [("regions", VRef 0)]]
           (VRef 1) [("regions", JArr [])] (JArr []) eq_refl eq_refl).
  discriminate.
Defined.

(** C9, as stated, fails: the merge returns normally on a document whose
    region entry is a number, which supports no key lookup, as long as the
    table has no value for that region. *)
Lemma merge_returns_on_scalar_region :
  let '(config, h) := loads (JObj [("regions", JObj [("A", JInt 5)])]) [] in
  (exists out st, run_merge [] h config ["f"] = (Ok out, st)
                  /\ dumps (st_heap st) out
                     = Some (JObj [("regions", JObj [("A", JInt 5)])]))
  /\ rbind (py_getitem h config "regions") (py_items h) = Ok [("A", VInt 5)]
  /\ py_contains h "f" (VInt 5) = Raise TypeError
  /\ py_getitem h (VInt 5) "f" = Raise TypeError.
Proof.
  vm_compute. split; [|repeat split]. eexists _, _. split; reflexivity.
Qed.

(** ** C4: what the merge leaves alone *)

Lemma Forall2_refl_on {A} (R : A -> A -> Prop) xs :
  (forall x, R x x) -> Forall2 R xs xs.
Proof. intros HR. induction xs; constructor; auto. Qed.

Lemma Forall2_trans_on {A} (R : A -> A -> Prop) xs ys zs :
  (forall x y z, R x y -> R y z -> R x z) ->
  Forall2 R xs ys -> Forall2 R ys zs -> Forall2 R xs zs.
Proof.
  intros HR H1. revert zs. induction H1; intros zs H2; inversion H2; subst;
    constructor; eauto.
Qed.

Lemma field_frame_refl fs kv : field_frame fs kv kv.
Proof. split; auto. Qed.

Lemma field_frame_trans fs a b c :
  field_frame fs a b -> field_frame fs b c -> field_frame fs a c.
Proof.
  intros [Hk1 Hv1] [Hk2 Hv2]. split; [congruence|].
  intros Hn. rewrite Hv2, Hv1; auto. now rewrite Hk1.
Qed.

Lemma field_frame_set fs f x fields old :
  In f fs -> dict_get f fields = Some old ->
  Forall2 (field_frame fs) fields (dict_set f x fields).
Proof.
  intros Hf. induction fields as [|[k v] fields IH]; simpl; [discriminate|].
  destruct (decide (f = k)) as [->|Hne].
  - intros _. constructor; [|apply Forall2_refl_on, field_frame_refl].
    split; [reflexivity|]. simpl. tauto.
  - intros Hg. constructor; [apply field_frame_refl|auto].
Qed.

Lemma merge_fields_frame t fs rn fs0 : forall fields fields' out,
  (forall f, In f fs0 -> In f fs) ->
  merge_fields t rn (JObj fields) fs0 = (Ok (JObj fields'), out) ->
  Forall2 (field_frame fs) fields fields'.
Proof.
  induction fs0 as [|f fs0 IH]; intros fields fields' out Hsub; simpl.
  - intros [= <- <-]. apply Forall2_refl_on, field_frame_refl.
  - rewrite merge_field_obj.
    assert (Hsub' : forall f', In f' fs0 -> In f' fs) by (intros; apply Hsub; now right).
    assert (Hf : In f fs) by (apply Hsub; now left).
    destruct (dict_get f t) as [fd|]; [destruct (dict_get rn fd) as [x|];
      [destruct (dict_get f fields) as [old|] eqn:Hg|]|].
    2-4: destruct (merge_fields t rn (JObj fields) fs0) as [r o] eqn:Hr;
         intros [= -> <-]; eapply IH; eauto.
    destruct (merge_fields t rn (JObj (dict_set f (JFloat x) fields)) fs0)
      as [r o] eqn:Hr.
    intros [= -> <-].
    eapply Forall2_trans_on; [apply field_frame_trans| |eapply IH; eauto].
    eapply field_frame_set; eauto.
Qed.

Lemma region_frame_refl fs r : region_frame fs r r.
Proof.
  split; [reflexivity|]. destruct (snd r); try reflexivity.
  eexists. split; [reflexivity|]. apply Forall2_refl_on, field_frame_refl.
Qed.

Lemma regions_frame_refl fs x : regions_frame fs x x.
Proof.
  destruct x; try reflexivity. simpl.
  eexists. split; [reflexivity|]. apply Forall2_refl_on, region_frame_refl.
Qed.

Lemma member_frame_refl fs m : member_frame fs m m.
Proof.
  split; [reflexivity|]. destruct (decide (fst m = "regions")); [|reflexivity].
  apply regions_frame_refl.
Qed.

Lemma doc_frame_refl fs j : doc_frame fs j j.
Proof.
  destruct j; try reflexivity. simpl.
  eexists. split; [reflexivity|]. apply Forall2_refl_on, member_frame_refl.
Qed.

Lemma merge_regions_frame t fs regs regs' out :
  merge_regions t fs regs = (Ok regs', out) ->
  Forall2 (region_frame fs) regs regs'.
Proof.
  intros Hmr. apply merge_regions_Ok in Hmr.
  eapply Forall2_impl; [exact Hmr|]. intros [rn rc] [rn' rc']. simpl.
  intros (-> & o & Hmf). split; [reflexivity|]. simpl.
  assert (Hcase : (exists fields, rc = JObj fields) \/ forall fields, rc <> JObj fields).
  { destruct rc; try (right; discriminate). left; eauto. }
  destruct Hcase as [[fields ->]|Hno].
  - destruct (merge_fields_obj t rn fs fields) as (fields' & o' & Hmf').
    rewrite Hmf' in Hmf. injection Hmf as <- <-.
    exists fields'. split; [reflexivity|].
    eapply merge_fields_frame; [|exact Hmf']. auto.
  - destruct (merge_fields_other _ _ _ _ _ _ Hno Hmf) as (-> & _).
    destruct rc; try reflexivity. exfalso. eapply Hno. reflexivity.
Qed.

Lemma merge_json_frame t fs j j' out :
  merge_json t fs j = (Ok j', out) -> doc_frame fs j j'.
Proof.
  intros Hmj.
  destruct (merge_json_Ok _ _ _ _ _ Hmj)
    as [(_ & -> & _)|(members & regs & regs' & -> & Hg & Hmr & ->)].
  - apply doc_frame_refl.
  - simpl. eexists. split; [reflexivity|].
    apply merge_regions_frame in Hmr. clear Hmj.
    induction members as [|[k v] members IH]; simpl in *; [discriminate|].
    destruct (decide ("regions" = k)) as [<-|Hne].
    + injection Hg as ->. constructor; [|apply Forall2_refl_on, member_frame_refl].
      split; [reflexivity|]. simpl.
      destruct (decide ("regions" = "regions")); [|congruence].
      simpl. eauto.
    + constructor; [apply member_frame_refl|auto].
Qed.

Section FrameLookups.
Context {V W : Type}.
Variable R : string * V -> string * W -> Prop.
Hypothesis R_key : forall a b, R a b -> fst b = fst a.

Lemma frame_keys xs ys : Forall2 R xs ys -> dict_keys ys = dict_keys xs.
Proof.
  unfold dict_keys. induction 1 as [|x y xs ys Hxy _ IH]; simpl; [reflexivity|].
  now rewrite (R_key _ _ Hxy), IH.
Qed.

Lemma frame_get xs ys k :
  Forall2 R xs ys ->
  match dict_get k xs with
  | Some x => exists y, dict_get k ys = Some y /\ R (k, x) (k, y)
  | None => dict_get k ys = None
  end.
Proof.
  induction 1 as [|[k1 x] [k2 y] xs ys Hxy _ IH]; simpl; [reflexivity|].
  pose proof (R_key _ _ Hxy) as Hk. simpl in Hk. subst k2.
  destruct (decide (k = k1)) as [->|Hne]; [eauto|exact IH].
Qed.
End FrameLookups.

(** What [doc_frame] says, in terms of lookups. *)
Lemma doc_frame_lookups fs members j' :
  doc_frame fs (JObj members) j' ->
  exists members',
    j' = JObj members'
    /\ dict_keys members' = dict_keys members
    /\ (forall k, k <> "regions" -> dict_get k members' = dict_get k members)
    /\ (forall regs, dict_get "regions" members = Some (JObj regs) ->
        exists regs',
          dict_get "regions" members' = Some (JObj regs')
          /\ dict_keys regs' = dict_keys regs
          /\ (forall rn fields, dict_get rn regs = Some (JObj fields) ->
              exists fields',
                dict_get rn regs' = Some (JObj fields')
                /\ dict_keys fields' = dict_keys fields
                /\ (forall f, ~ In f fs -> dict_get f fields' = dict_get f fields))).
Proof.
  intros (members' & -> & Hms). exists members'. split; [reflexivity|].
  assert (Hmk : forall a b, member_frame fs a b -> fst b = fst a) by (intros a b [Hk _]; exact Hk).
  assert (Hrk : forall a b, region_frame fs a b -> fst b = fst a) by (intros a b [Hk _]; exact Hk).
  assert (Hfk : forall a b, field_frame fs a b -> fst b = fst a) by (intros a b [Hk _]; exact Hk).
  split; [exact (frame_keys _ Hmk _ _ Hms)|]. split.
  - intros k Hk. pose proof (frame_get _ Hmk _ _ k Hms) as Hget.
    destruct (dict_get k members) as [x|]; [|exact Hget].
    destruct Hget as (y & -> & _ & Hy). simpl in Hy.
    destruct (decide (k = "regions")); [contradiction|]. now rewrite Hy.
  - intros regs Hg. pose proof (frame_get _ Hmk _ _ "regions" Hms) as Hget.
    rewrite Hg in Hget. destruct Hget as (y & Hy & _ & Hfr). simpl in Hfr.
    destruct (decide ("regions" = "regions")); [|congruence].
    destruct Hfr as (regs' & -> & Hregs). exists regs'. split; [exact Hy|].
    split; [exact (frame_keys _ Hrk _ _ Hregs)|].
    intros rn fields Hrn. pose proof (frame_get _ Hrk _ _ rn Hregs) as Hget.
    rewrite Hrn in Hget. destruct Hget as (rc' & Hrc' & _ & Hrf). simpl in Hrf.
    destruct Hrf as (fields' & -> & Hfields). exists fields'. split; [exact Hrc'|].
    split; [exact (frame_keys _ Hfk _ _ Hfields)|].
    intros f Hf. pose proof (frame_get _ Hfk _ _ f Hfields) as Hget.
    destruct (dict_get f fields) as [x|]; [|exact Hget].
    destruct Hget as (y' & -> & _ & Hy'). simpl in Hy'. now rewrite (Hy' Hf).
Qed.

(** C4.  When the merge returns, the document it returns reads as the input
    does, key by key and in the same order, except that inside the top-level
    [regions] dict the fields of a region that the selector names may have
    a new value: the other top-level members, the region names, the keys of
    every region and the value of every field that is not selected are those
    of the input, whatever the table holds. *)
Theorem merge_frame (t : table) (fs : list string) (h : heap) (config : val)
    (j : json) (out : val) (st : state) :
  dumps h config = Some j ->
  run_merge t h config fs = (Ok out, st) ->
  exists j',
    dumps (st_heap st) out = Some j'
    /\ doc_frame fs j j'
    /\ (forall members, j = JObj members ->
        exists members',
          j' = JObj members'
          /\ dict_keys members' = dict_keys members
          /\ (forall k, k <> "regions" -> dict_get k members' = dict_get k members)
          /\ (forall regs, dict_get "regions" members = Some (JObj regs) ->
              exists regs',
                dict_get "regions" members' = Some (JObj regs')
                /\ dict_keys regs' = dict_keys regs
                /\ (forall rn fields, dict_get rn regs = Some (JObj fields) ->
                    exists fields',
                      dict_get rn regs' = Some (JObj fields')
                      /\ dict_keys fields' = dict_keys fields
                      /\ (forall f, ~ In f fs ->
                            dict_get f fields' = dict_get f fields)))).
Proof.
  intros Hd Hrun.
  destruct (run_merge_Ok _ _ _ _ _ _ _ Hd Hrun) as (j' & Hj' & Hout & _).
  exists j'. split; [exact Hout|].
  destruct (merge_json t fs j) as [r o] eqn:Hmj. simpl in Hj'. subst r.
  pose proof (merge_json_frame _ _ _ _ _ Hmj) as Hframe.
  split; [exact Hframe|].
  intros members ->. now apply doc_frame_lookups.
Qed.

(** ** C3: idempotence *)

Section DictSetFacts.
Context {K V : Type} `{EqDecision K}.
Implicit Types (d : list (K * V)) (k : K) (v : V).

Lemma dict_set_same d k v : dict_get k d = Some v -> dict_set k v d = d.
Proof.
  induction d as [|[k0 v0] d IH]; simpl; [discriminate|].
  destruct (decide (k = k0)) as [->|Hne].
  - now intros [= ->].
  - intros Hg. f_equal. auto.
Qed.

Lemma dict_set_set d k v v' : dict_set k v (dict_set k v' d) = dict_set k v d.
Proof.
  induction d as [|[k0 v0] d IH]; simpl.
  - destruct (decide (k = k)); congruence.
  - destruct (decide (k = k0)) as [->|Hne]; simpl.
    + destruct (decide (k0 = k0)); congruence.
    + destruct (decide (k = k0)); [congruence|]. now f_equal.
Qed.

Lemma dict_mem_set d k k' v : dict_mem k' d = true -> dict_mem k' (dict_set k v d) = true.
Proof.
  unfold dict_mem. intros Hm. destruct (decide (k' = k)) as [->|Hne].
  - now rewrite dict_get_set_eq.
  - now rewrite dict_get_set_ne.
Qed.
End DictSetFacts.

Section Idempotence.
Variable t : table.

(** A value the table prescribes, once written, stays; and every selected
    field the table has a value for ends with that value. *)
Lemma merge_fields_written rn fs : forall fields fields' out,
  merge_fields t rn (JObj fields) fs = (Ok (JObj fields'), out) ->
  (forall f fd x, dict_get f t = Some fd -> dict_get rn fd = Some x ->
     dict_get f fields = Some (JFloat x) -> dict_get f fields' = Some (JFloat x))
  /\ (forall f fd x old, In f fs -> dict_get f t = Some fd -> dict_get rn fd = Some x ->
        dict_get f fields = Some old -> dict_get f fields' = Some (JFloat x))
  /\ (forall k, dict_get k fields = None -> dict_get k fields' = None).
Proof.
  induction fs as [|f fs IH]; intros fields fields' out; simpl.
  - intros [= <- <-]. split; [auto|]. split; [intros ? ? ? ? []|auto].
  - rewrite merge_field_obj.
    destruct (dict_get f t) as [fd|] eqn:Ht; [destruct (dict_get rn fd) as [x|] eqn:Hr;
      [destruct (dict_get f fields) as [old|] eqn:Hg|]|].
    2-4: destruct (merge_fields t rn (JObj fields) fs) as [r o] eqn:Hrest;
         intros [= -> <-]; destruct (IH _ _ _ Hrest) as (Ha & Hb & Hc);
         split; [exact Ha|]; split; [|exact Hc];
         intros f' fd' x' old' [<-|Hin] Ht' Hr' Hg'; eauto; congruence.
    destruct (merge_fields t rn (JObj (dict_set f (JFloat x) fields)) fs)
      as [r o] eqn:Hrest.
    intros [= -> <-]. destruct (IH _ _ _ Hrest) as (Ha & Hb & Hc).
    split; [|split].
    + intros f' fd' x' Ht' Hr' Hg'. eapply Ha; eauto.
      destruct (decide (f' = f)) as [->|Hne].
      * rewrite dict_get_set_eq. congruence.
      * now rewrite dict_get_set_ne.
    + intros f' fd' x' old' [<-|Hin] Ht' Hr' Hg'.
      * eapply Ha; eauto. rewrite dict_get_set_eq. congruence.
      * destruct (decide (f' = f)) as [->|Hne].
        -- eapply Ha; eauto. rewrite dict_get_set_eq. congruence.
        -- eapply Hb; eauto. rewrite dict_get_set_ne; eauto.
    + intros k Hk. apply Hc. rewrite dict_get_set_ne; [exact Hk|]. congruence.
Qed.

(** On a region in which every selected field already has the table's
    value the merge changes nothing. *)
Lemma merge_fields_settled rn fields fs :
  (forall f fd x old, In f fs -> dict_get f t = Some fd -> dict_get rn fd = Some x ->
     dict_get f fields = Some old -> old = JFloat x) ->
  exists out, merge_fields t rn (JObj fields) fs = (Ok (JObj fields), out)
              /\ Forall (settled_message JFloat) out.
Proof.
  induction fs as [|f fs IH]; intros Hset; simpl.
  - eauto.
  - destruct IH as (out & Hmf & Hout); [intros; eapply Hset; eauto; now right|].
    rewrite merge_field_obj.
    destruct (dict_get f t) as [fd|] eqn:Ht; [destruct (dict_get rn fd) as [x|] eqn:Hr;
      [destruct (dict_get f fields) as [old|] eqn:Hg|]|].
    2-4: rewrite Hmf; eexists; split; [reflexivity|]; simpl;
         try (constructor; [exact I|]); exact Hout.
    assert (old = JFloat x) as -> by (eapply Hset; eauto; now left).
    rewrite (dict_set_same _ _ _ Hg), Hmf. eexists. split; [reflexivity|].
    constructor; [reflexivity|exact Hout].
Qed.

Lemma merge_fields_idem rn rc fs rc' out :
  merge_fields t rn rc fs = (Ok rc', out) ->
  exists out', merge_fields t rn rc' fs = (Ok rc', out')
               /\ Forall (settled_message JFloat) out'.
Proof.
  intros Hmf.
  assert (Hcase : (exists fields, rc = JObj fields) \/ forall fields, rc <> JObj fields).
  { destruct rc; try (right; discriminate). left; eauto. }
  destruct Hcase as [[fields ->]|Hno].
  - destruct (merge_fields_obj t rn fs fields) as (fields' & o' & Hmf').
    rewrite Hmf' in Hmf. injection Hmf as <- <-.
    destruct (merge_fields_written _ _ _ _ _ Hmf') as (_ & Hb & Hc).
    apply merge_fields_settled. intros f fd x old Hin Ht Hr Hg.
    destruct (dict_get f fields) as [old0|] eqn:Hg0.
    + rewrite (Hb _ _ _ _ Hin Ht Hr Hg0) in Hg. congruence.
    + rewrite (Hc _ Hg0) in Hg. discriminate.
  - destruct (merge_fields_other _ _ _ _ _ _ Hno Hmf) as (-> & Hw & _).
    exists out. split; [exact Hmf|].
    eapply Forall_impl; [exact Hw|]. intros [] Hm; simpl in *; auto; discriminate.
Qed.

Lemma merge_regions_idem fs regs : forall regs' out,
  merge_regions t fs regs = (Ok regs', out) ->
  exists out', merge_regions t fs regs' = (Ok regs', out')
               /\ Forall (settled_message JFloat) out'.
Proof.
  induction regs as [|[rn rc] regs IH]; intros regs' out; simpl.
  - intros [= <- <-]. simpl. eauto.
  - destruct (merge_fields t rn rc fs) as [[rc1|e] out1] eqn:Hf; [|discriminate].
    destruct (merge_regions t fs regs) as [[regs1|e] out2] eqn:Hr; simpl;
      [|discriminate].
    intros [= <- <-].
    destruct (merge_fields_idem _ _ _ _ _ Hf) as (o1 & Hf1 & Ho1).
    destruct (IH _ _ eq_refl) as (o2 & Hr2 & Ho2).
    simpl. rewrite Hf1, Hr2. simpl. eexists. split; [reflexivity|].
    apply Forall_app. auto.
Qed.

Lemma merge_json_idem fs j j' out :
  merge_json t fs j = (Ok j', out) ->
  exists out', merge_json t fs j' = (Ok j', out')
               /\ Forall (settled_message JFloat) out'.
Proof.
  intros Hmj.
  destruct (merge_json_Ok _ _ _ _ _ Hmj)
    as [(Hc & -> & ->)|(members & regs & regs' & -> & Hg & Hmr & ->)].
  - exists [WarnNoRegions]. split; [exact Hmj|]. repeat constructor.
  - destruct (merge_regions_idem _ _ _ _ Hmr) as (out' & Hmr' & Hout').
    exists out'. split; [|exact Hout'].
    unfold merge_json. simpl. unfold dict_mem.
    rewrite dict_get_set_eq. simpl. rewrite Hmr'. simpl.
    now rewrite dict_set_set.
Qed.
End Idempotence.

Lemma dumps_float_inv h v x : dumps h v = Some (JFloat x) -> v = VFloat x.
Proof.
  unfold dumps. destruct v; simpl; try congruence.
  destruct (h !! l) as [[items|elems]|]; simpl; try discriminate.
  - destruct (mapM _ items); discriminate.
  - destruct (mapM _ elems); discriminate.
Qed.

(** C3.  When the merge returns, the merge of the document it returned, with
    the same table and selector, returns a document that reads as the first
    result does, and every change record of that second merge has its old
    value equal to its new value. *)
Theorem merge_idempotent (t : table) (fs : list string) (h : heap) (config : val)
    (out : val) (st : state) :
  run_merge t h config fs = (Ok out, st) ->
  exists j1 out2 st2,
    dumps (st_heap st) out = Some j1
    /\ run_merge t (st_heap st) out fs = (Ok out2, st2)
    /\ dumps (st_heap st2) out2 = Some j1
    /\ Forall (settled_message VFloat) (st_out st2).
Proof.
  intros Hrun.
  destruct (dumps h config) as [j|] eqn:Hd;
    [|rewrite run_merge_unfold, Hd in Hrun; discriminate].
  destruct (run_merge_Ok _ _ _ _ _ _ _ Hd Hrun) as (j1 & Hj1 & Hout & _).
  destruct (merge_json t fs j) as [r o] eqn:Hmj. simpl in Hj1. subst r.
  destruct (merge_json_idem _ _ _ _ _ Hmj) as (out' & Hmj' & Hset).
  destruct (merge_refines_dumps t fs (st_heap st) out j1 Hout)
    as (res & h2 & vout & Hrun2 & Hmsg & Hres).
  rewrite Hmj' in Hmsg, Hres. simpl in Hmsg, Hres.
  destruct Hres as (out2 & -> & Hout2).
  exists j1, out2, (State h2 vout). split; [exact Hout|]. split; [exact Hrun2|].
  split; [exact Hout2|]. simpl.
  clear -Hmsg Hset. induction Hmsg as [|mj mv tj tv Hm _ IH]; [constructor|].
  inversion Hset; subst. constructor; [|auto].
  destruct mj, mv; simpl in *; try tauto.
  destruct Hm as (_ & _ & <- & Hdump). subst. now apply dumps_float_inv in Hdump.
Qed.

(** ** The loader *)

Section DictForall.
Context {K V : Type} `{EqDecision K}.
Implicit Types (d : list (K * V)) (k : K) (v : V).

Lemma dict_set_Forall (Q : K * V -> Prop) d k v :
  Forall Q d -> Q (k, v) -> Forall Q (dict_set k v d).
Proof.
  intros Hd Hq. induction Hd as [|[k0 v0] d Hx Hd IH]; simpl.
  - constructor; auto.
  - destruct (decide (k = k0)) as [<-|Hne]; constructor; auto.
Qed.

Lemma dict_set_keys_NoDup d k v :
  List.NoDup (dict_keys d) -> List.NoDup (dict_keys (dict_set k v d)).
Proof.
  unfold dict_keys. induction d as [|[k0 v0] d IH]; simpl; intros Hnd.
  - apply List.NoDup_cons; [intros []|apply List.NoDup_nil].
  - apply List.NoDup_cons_iff in Hnd. destruct Hnd as [Hnotin Hnd].
    destruct (decide (k = k0)) as [->|Hk]; simpl.
    + apply List.NoDup_cons; assumption.
    + apply List.NoDup_cons; [|auto].
      intros Hin. apply Hnotin, (proj2 (in_map_iff fst d k0)).
      apply in_map_iff in Hin. destruct Hin as ([k1 v1] & Hk1 & Hin). simpl in Hk1. subst k1.
      apply dict_set_In in Hin. destruct Hin as [[? _]|Hin]; [congruence|].
      exists (k0, v1). auto.
Qed.
End DictForall.

Lemma zip_set_good fieldnames : forall line d,
  good_row d -> good_row (zip_set fieldnames line d).
Proof.
  induction fieldnames as [|n ns IH]; intros [|c line] d Hd; simpl; auto.
  apply IH. apply dict_set_Forall; [exact Hd|]. right. exact I.
Qed.

Lemma zip_set_NoDup fieldnames : forall line d,
  List.NoDup (dict_keys d) -> List.NoDup (dict_keys (zip_set fieldnames line d)).
Proof.
  induction fieldnames as [|n ns IH]; intros [|c line] d Hd; simpl; auto.
  apply IH. now apply dict_set_keys_NoDup.
Qed.

Lemma zip_set_no_label fieldnames : forall line d,
  ~ In "" fieldnames -> dict_get (Some "") d = None ->
  dict_get (Some "") (zip_set fieldnames line d) = None.
Proof.
  induction fieldnames as [|n ns IH]; intros [|c line] d Hn Hd; simpl; auto.
  apply IH; [simpl in Hn; tauto|].
  rewrite dict_get_set_ne; [exact Hd|]. intros [= <-]. apply Hn. now left.
Qed.

Lemma fill_good names : forall d : rowdict,
  good_row d ->
  good_row (fold_left (fun d key => dict_set (Some key) CNone d) names d).
Proof.
  induction names as [|n ns IH]; intros d Hd; simpl; auto.
  apply IH. apply dict_set_Forall; [exact Hd|]. right. exact I.
Qed.

Lemma fill_NoDup names : forall d : rowdict,
  List.NoDup (dict_keys d) ->
  List.NoDup (dict_keys (fold_left (fun d key => dict_set (Some key) CNone d) names d)).
Proof.
  induction names as [|n ns IH]; intros d Hd; simpl; auto.
  apply IH. now apply dict_set_keys_NoDup.
Qed.

Lemma fill_no_label names : forall d : rowdict,
  ~ In "" names -> dict_get (Some "") d = None ->
  dict_get (Some "")
    (fold_left (fun d key => dict_set (Some key) CNone d) names d) = None.
Proof.
  induction names as [|n ns IH]; intros d Hn Hd; simpl; auto.
  apply IH; [simpl in Hn; tauto|].
  rewrite dict_get_set_ne; [exact Hd|]. intros [= <-]. apply Hn. now left.
Qed.

Lemma In_drop {A} (x : A) n xs : In x (drop n xs) -> In x xs.
Proof.
  revert xs. induction n as [|n IH]; intros [|y xs]; simpl; auto.
Qed.

(** The rows of the reader. *)
Lemma dictreader_row_good fieldnames line : good_row (dictreader_row fieldnames line).
Proof.
  unfold dictreader_row.
  assert (Hz : good_row (zip_set fieldnames line [])) by (apply zip_set_good; constructor).
  destruct (length fieldnames <? length line)%nat.
  - apply dict_set_Forall; [exact Hz|]. now left.
  - destruct (length line <? length fieldnames)%nat; [|exact Hz].
    now apply fill_good.
Qed.

Lemma dictreader_row_NoDup fieldnames line :
  List.NoDup (dict_keys (dictreader_row fieldnames line)).
Proof.
  unfold dictreader_row.
  assert (Hz : List.NoDup (dict_keys (zip_set fieldnames line [])))
    by (apply zip_set_NoDup; apply List.NoDup_nil).
  destruct (length fieldnames <? length line)%nat.
  - now apply dict_set_keys_NoDup.
  - destruct (length line <? length fieldnames)%nat; [|exact Hz].
    now apply fill_NoDup.
Qed.

Lemma dictreader_row_no_label fieldnames line :
  ~ In "" fieldnames -> dict_get (Some "") (dictreader_row fieldnames line) = None.
Proof.
  intros Hn. unfold dictreader_row.
  assert (Hz : dict_get (Some "") (zip_set fieldnames line []) = None)
    by (apply zip_set_no_label; auto).
  destruct (length fieldnames <? length line)%nat.
  - rewrite dict_get_set_ne; [exact Hz|discriminate].
  - destruct (length line <? length fieldnames)%nat; [|exact Hz].
    apply fill_no_label; [|exact Hz]. intros Hin. apply Hn. eapply In_drop; eauto.
Qed.

Lemma dictreader_good lines : Forall good_row (dictreader lines).
Proof.
  destruct lines as [|fieldnames data]; simpl; [constructor|].
  apply Forall_forall. intros row Hin. apply list_elem_of_In, in_map_iff in Hin.
  destruct Hin as (line & <- & _). apply dictreader_row_good.
Qed.

Section LoaderFacts.
Variable py_float : string -> option pyfloat.

Lemma scan_cell_plain acc k c :
  k = None \/ plain_cell c ->
  scan_cell py_float acc (k, c) =
  Ok (match k with
      | Some region =>
          match recorded py_float region (Some c) with
          | Some x => dict_set region x acc
          | None => acc
          end
      | None => acc
      end).
Proof.
  intros Hgood. destruct k as [region|]; [|reflexivity].
  destruct Hgood as [Hk|Hc]; [discriminate|].
  unfold scan_cell, recorded. destruct (truthy region); simpl.
  - destruct c as [s| |extra]; simpl in *; [| reflexivity | tauto].
    destruct (truthy s && truthy (strip s)); simpl; [|reflexivity].
    destruct (py_float s); reflexivity.
  - destruct c; reflexivity.
Qed.

(** The cells of a row that are recorded: those under a field name that is
    not empty, that are not blank and that [float] accepts. *)
Lemma scan_cells_spec row :
  good_row row -> List.NoDup (dict_keys row) ->
  forall acc, exists rd,
    scan_cells py_float acc row = Ok rd
    /\ forall region,
         dict_get region rd =
         match recorded py_float region (dict_get (Some region) row) with
         | Some x => Some x
         | None => dict_get region acc
         end.
Proof.
  unfold good_row, dict_keys.
  induction row as [|[k c] row IH]; intros Hgood Hnd acc.
  - exists acc. split; [reflexivity|]. intros region. reflexivity.
  - inversion Hgood as [|? ? Hkc Hgood']; subst. simpl in Hkc.
    simpl in Hnd. apply List.NoDup_cons_iff in Hnd. destruct Hnd as [Hnotin Hnd].
    change (scan_cells py_float acc ((k, c) :: row))
      with (rbind (scan_cell py_float acc (k, c))
                  (fun rd => scan_cells py_float rd row)).
    rewrite (scan_cell_plain acc k c Hkc). cbv beta iota delta [rbind].
    match goal with |- context [scan_cells py_float ?a row] =>
      destruct (IH Hgood' Hnd a) as (rd & Hscan & Hrd) end.
    exists rd. split; [exact Hscan|]. intros region. rewrite Hrd.
    destruct (decide (Some region = k)) as [<-|Hne].
    + assert (Hrest : dict_get (Some region) row = None)
        by (apply (proj2 (dict_get_None row (Some region))); exact Hnotin).
      assert (Hhd : dict_get (Some region) ((Some region, c) :: row) = Some c)
        by (simpl; destruct (decide (Some region = Some region)); congruence).
      rewrite Hrest, Hhd.
      change (recorded py_float region None) with (@None pyfloat). cbv iota.
      destruct (recorded py_float region (Some c)) as [x|]; [|reflexivity].
      apply dict_get_set_eq.
    + assert (Htl : dict_get (Some region) ((k, c) :: row) = dict_get (Some region) row)
        by (simpl; destruct (decide (Some region = k)); congruence).
      rewrite Htl.
      destruct (recorded py_float region (dict_get (Some region) row)); [reflexivity|].
      destruct k as [r|]; [|reflexivity].
      destruct (recorded py_float r (Some c)); [|reflexivity].
      apply dict_get_set_ne. congruence.
Qed.

Lemma recorded_empty c : recorded py_float "" c = None.
Proof. destruct c as [[]|]; reflexivity. Qed.

Lemma row_label_plain row : good_row row -> plain_cell (row_label row).
Proof.
  intros Hgood. unfold row_label.
  destruct (dict_get (Some "") row) as [c|] eqn:Hg; [|exact I].
  apply dict_get_In in Hg. unfold good_row in Hgood.
  rewrite List.Forall_forall in Hgood. destruct (Hgood _ Hg) as [Hk|Hc]; [discriminate|exact Hc].
Qed.

(** A row of the reader is processed without error: the table gets the
    row's cells under the row's label, or is left as it is. *)
Lemma process_row_spec t row :
  good_row row -> List.NoDup (dict_keys row) ->
  exists rd,
    scan_cells py_float [] row = Ok rd
    /\ (forall region,
          dict_get region rd = recorded py_float region (dict_get (Some region) row))
    /\ process_row py_float t row =
       Ok (match row_label row with
           | CStr s => if truthy s then dict_set s rd t else t
           | _ => t
           end).
Proof.
  intros Hgood Hnd.
  destruct (scan_cells_spec row Hgood Hnd []) as (rd & Hscan & Hrd).
  exists rd. split; [exact Hscan|]. split.
  - intros region. rewrite Hrd.
    destruct (recorded py_float region (dict_get (Some region) row)); reflexivity.
  - unfold process_row. rewrite Hscan. simpl.
    pose proof (row_label_plain row Hgood) as Hl.
    destruct (row_label row) as [s| |extra]; simpl in *; try reflexivity; try tauto.
    destruct (truthy s); reflexivity.
Qed.

Lemma process_rows_total rows : forall t,
  Forall good_row rows -> Forall (fun row => List.NoDup (dict_keys row)) rows ->
  exists t', process_rows py_float t rows = Ok t'.
Proof.
  induction rows as [|row rows IH]; intros t Hg Hn; simpl; [eauto|].
  inversion Hg; inversion Hn; subst.
  destruct (process_row_spec t row) as (rd & _ & _ & ->); auto. simpl. auto.
Qed.

Lemma dictreader_NoDup lines :
  Forall (fun row => List.NoDup (dict_keys row)) (dictreader lines).
Proof.
  destruct lines as [|fieldnames data]; simpl; [constructor|].
  apply Forall_forall. intros row Hin. apply list_elem_of_In, in_map_iff in Hin.
  destruct Hin as (line & <- & _). apply dictreader_row_NoDup.
Qed.

(** The loader never fails on the lines of a file, and prints nothing. *)
Lemma load_total lines :
  exists t, load_calibration_data py_float lines = (Ok t, []).
Proof.
  unfold load_calibration_data.
  destruct (process_rows_total (dictreader lines) [])
    as (t & ->); [apply dictreader_good|apply dictreader_NoDup|]. eauto.
Qed.
End LoaderFacts.

(** ** C8: rows without a label *)

(** C8.  A row of the reader whose label is the empty string (an empty
    cell, or no column named by the empty string) or [None] (a line too
    short to reach the label column) leaves the table as it was, whatever
    its other cells hold. *)
Theorem unlabelled_row_is_skipped (py_float : string -> option pyfloat)
    (fieldnames line : list string) (t : table) :
  row_label (dictreader_row fieldnames line) = CStr ""
  \/ row_label (dictreader_row fieldnames line) = CNone ->
  process_row py_float t (dictreader_row fieldnames line) = Ok t.
Proof.
  intros Hlabel.
  destruct (process_row_spec py_float t (dictreader_row fieldnames line))
    as (rd & _ & _ & ->);
    [apply dictreader_row_good|apply dictreader_row_NoDup|].
  destruct Hlabel as [-> | ->]; reflexivity.
Qed.

Lemma unlabelled_row_is_skipped_witness :
  row_label (dictreader_row [""; "A"; "B"] [""; "7"; "8"]) = CStr ""
  /\ process_row float_of_digits [("f", [])] (dictreader_row [""; "A"; "B"] [""; "7"; "8"])
     = Ok [("f", [])].
Proof.
  split; [reflexivity|].
  apply (unlabelled_row_is_skipped float_of_digits [""; "A"; "B"] [""; "7"; "8"]).
  left. reflexivity.
Defined.

(** ** C6: rows with a label *)




(** ** C7: what is skipped and what is logged *)

Lemma merge_regions_objs t fs regs :
  Forall (fun r => exists fields, snd r = JObj fields) regs ->
  exists regs' out, merge_regions t fs regs = (Ok regs', out).
Proof.
  induction 1 as [|[rn rc] regs [fields Hrc] _ (regs' & out & IH)]; simpl; [eauto|].
  simpl in Hrc. subst rc.
  destruct (merge_fields_obj t rn fs fields) as (fields' & o & ->).
  rewrite IH. simpl. eauto.
Qed.




(** ** C10: the label column *)

Lemma update_region_empty_table fs entry st :
  update_region [] fs entry st = (Ok tt, st).
Proof.
  unfold update_region. induction fs as [|f fs IH]; [reflexivity|].
  rewrite for_cons. exact IH.
Qed.

Lemma update_regions_empty_table fs entries st :
  for_ entries (update_region [] fs) st = (Ok tt, st).
Proof.
  induction entries as [|entry entries IH]; [reflexivity|].
  rewrite for_cons, update_region_empty_table. exact IH.
Qed.

Lemma run_merge_empty_table fs h config :
  Forall (fun m => is_warning m = true) (st_out (snd (run_merge [] h config fs))).
Proof.
  rewrite run_merge_unfold.
  destruct (dumps h config) as [j|]; [|constructor].
  destruct (loads j h) as [v h1].
  destruct (py_contains h1 "regions" v) as [[|]|e]; [| repeat constructor | constructor].
  destruct (py_getitem h1 v "regions") as [regions|e]; [|constructor].
  destruct (py_items h1 regions) as [entries|e]; [|constructor].
  rewrite update_regions_empty_table. constructor.
Qed.

Section LabelColumn.
Variable py_float : string -> option pyfloat.

Lemma process_rows_unlabelled rows : forall t,
  Forall good_row rows -> Forall (fun row => List.NoDup (dict_keys row)) rows ->
  Forall (fun row => row_label row = CStr "") rows ->
  process_rows py_float t rows = Ok t.
Proof.
  induction rows as [|row rows IH]; intros t Hg Hn Hl; simpl; [reflexivity|].
  inversion Hg; inversion Hn; inversion Hl; subst.
  destruct (process_row_spec py_float t row) as (rd & _ & _ & ->); auto.
  match goal with H : row_label row = _ |- _ => rewrite H end. simpl. auto.
Qed.

Lemma process_rows_no_empty_region rows : forall t t',
  Forall good_row rows -> Forall (fun row => List.NoDup (dict_keys row)) rows ->
  Forall (fun fm => dict_get "" (snd fm) = None) t ->
  process_rows py_float t rows = Ok t' ->
  Forall (fun fm => dict_get "" (snd fm) = None) t'.
Proof.
  induction rows as [|row rows IH]; intros t t' Hg Hn Ht; simpl.
  - now intros [= <-].
  - inversion Hg; inversion Hn; subst.
    destruct (process_row_spec py_float t row) as (rd & _ & Hrd & ->); auto. simpl.
    apply IH; auto.
    destruct (row_label row) as [s| |]; auto.
    destruct (truthy s); auto.
    apply dict_set_Forall; [exact Ht|]. simpl.
    rewrite Hrd. apply recorded_empty.
Qed.
End LabelColumn.

(** C10.  When no field name of the header is the empty string, every row
    has the empty label, the loader returns the empty table, and a merge
    with that table prints no change record, whatever the document and the
    selector.  And for every file, no mapping of the table has the empty
    string among its region names. *)
Theorem label_column_is_the_unnamed_one (py_float : string -> option pyfloat)
    (lines : list (list string)) :
  (forall fieldnames, head lines = Some fieldnames -> ~ In "" fieldnames) ->
  Forall (fun row => row_label row = CStr "") (dictreader lines)
  /\ load_calibration_data py_float lines = (Ok [], [])
  /\ (forall h config fs,
        Forall (fun m => is_warning m = true)
               (st_out (snd (run_merge [] h config fs))))
  /\ (forall lines' t field m,
        load_calibration_data py_float lines' = (Ok t, []) ->
        In (field, m) t -> dict_get "" m = None).
Proof.
  intros Hhdr.
  assert (Hlabels : Forall (fun row => row_label row = CStr "") (dictreader lines)).
  { destruct lines as [|fieldnames data]; simpl; [constructor|].
    apply Forall_forall. intros row Hin. apply list_elem_of_In, in_map_iff in Hin.
    destruct Hin as (line & <- & _). unfold row_label.
    rewrite dictreader_row_no_label; [reflexivity|]. apply Hhdr. reflexivity. }
  split; [exact Hlabels|]. split; [|split].
  - unfold load_calibration_data.
    rewrite process_rows_unlabelled;
      auto using dictreader_good, dictreader_NoDup.
  - intros h config fs. apply run_merge_empty_table.
  - intros lines' t field m Hload Hin. unfold load_calibration_data in Hload.
    destruct (process_rows py_float [] (dictreader lines')) as [t'|e] eqn:Hp;
      [|discriminate].
    injection Hload as ->.
    eapply process_rows_no_empty_region in Hp;
      [|apply dictreader_good|apply dictreader_NoDup|constructor].
    rewrite List.Forall_forall in Hp. apply (Hp _ Hin).
Qed.

Lemma label_column_is_the_unnamed_one_witness :
  (forall fieldnames, head [["label"; "A"]; ["f"; "5"]] = Some fieldnames ->
                      ~ In "" fieldnames)
  /\ load_calibration_data float_of_digits [["label"; "A"]; ["f"; "5"]] = (Ok [], []).
Proof.
  assert (Hhdr : forall fieldnames,
            head [["label"; "A"]; ["f"; "5"]] = Some fieldnames -> ~ In "" fieldnames).
  { intros fieldnames [= <-]. simpl. intros [H|[H|[]]]; discriminate. }
  split; [exact Hhdr|].
  apply (label_column_is_the_unnamed_one float_of_digits
           [["label"; "A"]; ["f"; "5"]] Hhdr).
Defined.

(** ** The claims on the example *)

Lemma merge_without_regions_witness :
  dumps [ODict [("name", VStr "m")]] (VRef 0) = Some (JObj [("name", JStr "m")])
  /\ dict_mem "regions" [("name", JStr "m")] = false
  /\ exists out h',
       run_merge example_table [ODict [("name", VStr "m")]] (VRef 0) ["name"]
       = (Ok out, State h' [WarnNoRegions])
       /\ dumps h' out = Some (JObj [("name", JStr "m")])
       /\ dumps h' (VRef 0) = Some (JObj [("name", JStr "m")])
       /\ out <> VRef 0
       /\ (forall l, reachable h' out l -> length [ODict [("name", VStr "m")]] <= l)
       /\ (forall l o, [ODict [("name", VStr "m")]] !! l = Some o -> h' !! l = Some o).
Proof.
  split; [reflexivity|]. split; [reflexivity|].
  apply (merge_without_regions example_table ["name"] [ODict [("name", VStr "m")]]
           (VRef 0) [("name", JStr "m")]); reflexivity.
Defined.

Lemma merge_frame_witness :
  dumps example_heap example_config = Some example_doc
  /\ run_merge example_table example_heap example_config ["full_fill_percent"]
     = (Ok (VRef 5),
        snd (run_merge example_table example_heap example_config ["full_fill_percent"]))
  /\ exists j',
       dumps (st_heap (snd (run_merge example_table example_heap example_config
                              ["full_fill_percent"]))) (VRef 5) = Some j'
       /\ doc_frame ["full_fill_percent"] example_doc j'.
Proof.
  split; [reflexivity|]. split; [reflexivity|].
  destruct (merge_frame example_table ["full_fill_percent"] example_heap example_config
              example_doc (VRef 5) _ eq_refl eq_refl) as (j' & Hout & Hframe & _).
  exists j'. split; [exact Hout|exact Hframe].
Defined.

Lemma merge_idempotent_witness :
  run_merge example_table example_heap example_config ["full_fill_percent"]
  = (Ok (VRef 5),
     snd (run_merge example_table example_heap example_config ["full_fill_percent"]))
  /\ exists j1 out2 st2,
       dumps (st_heap (snd (run_merge example_table example_heap example_config
                              ["full_fill_percent"]))) (VRef 5) = Some j1
       /\ run_merge example_table
            (st_heap (snd (run_merge example_table example_heap example_config
                             ["full_fill_percent"]))) (VRef 5) ["full_fill_percent"]
          = (Ok out2, st2)
       /\ dumps (st_heap st2) out2 = Some j1
       /\ Forall (settled_message VFloat) (st_out st2).
Proof.
  split; [reflexivity|].
  apply (merge_idempotent example_table ["full_fill_percent"] example_heap
           example_config (VRef 5)); reflexivity.
Defined.
(** ** Worked examples *)

Example load_example :
  load_calibration_data float_of_digits
    [[""; "A"; "B"]; ["full_fill_percent"; "55"; "N/A"]; []; [""; "7"; "8"]]
  = (Ok [("full_fill_percent", [("A", S754_finite false 7740561859543040 (-47))])], []).
Proof. vm_compute. reflexivity. Qed.

Example loads_dumps_example :
  let j := JObj [("regions", JObj [("A", JObj [("f", JInt 10); ("g", JArr [JNull])])]);
                 ("name", JStr "m")] in
  let '(v, h) := loads j [] in
  v = VRef 3 /\ length h = 4 /\ dumps h v = Some j.
Proof. vm_compute. repeat split. Qed.

Example merge_example :
  let '(config, h) :=
    loads (JObj [("regions", JObj [("A", JObj [("full_fill_percent", JInt 10)])])]) [] in
  let x := S754_finite false 7740561859543040 (-47) in
  let '(r, st) := run_merge [("full_fill_percent", [("A", x)])] h config
                            ["full_fill_percent"] in
  r = Ok (VRef 5)
  /\ dumps (st_heap st) (VRef 5)
     = Some (JObj [("regions", JObj [("A", JObj [("full_fill_percent", JFloat x)])])])
  /\ dumps (st_heap st) config
     = Some (JObj [("regions", JObj [("A", JObj [("full_fill_percent", JInt 10)])])])
  /\ st_out st = [Updated "A" "full_fill_percent" (VInt 10) x].
Proof. vm_compute. repeat split. Qed.

Example merge_example_frame :
  let '(r, st) := run_merge example_table example_heap example_config
                            ["full_fill_percent"] in
  r = Ok (VRef 5)
  /\ dumps (st_heap st) (VRef 5)
     = Some (JObj [("regions",
                    JObj [("A", JObj [("full_fill_percent", JFloat example_value);
                                      ("name", JStr "left")])]);
                   ("version", JInt 2)])
  /\ dumps (st_heap st) example_config = Some example_doc
  /\ st_out st = [Updated "A" "full_fill_percent" (VInt 10) example_value].
Proof. vm_compute. repeat split. Qed.

(** * Further properties of the merge *)

Section MergeValues.
Variable t : table.

Lemma table_value_Some f rn x :
  table_value t f rn = Some x <->
  exists fd, dict_get f t = Some fd /\ dict_get rn fd = Some x.
Proof.
  unfold table_value. destruct (dict_get f t) as [fd|]; split.
  - eauto.
  - intros (fd' & [= <-] & Hr). exact Hr.
  - discriminate.
  - intros (fd' & [=] & _).
Qed.

Lemma merge_field_obj' rn fields f :
  merge_field t rn (JObj fields) f =
  (Ok (match table_value t f rn with
       | Some x => if dict_mem f fields then JObj (dict_set f (JFloat x) fields)
                   else JObj fields
       | None => JObj fields
       end),
   field_messages t rn fields f).
Proof.
  rewrite merge_field_obj. unfold field_messages, table_value, dict_mem.
  destruct (dict_get f t) as [fd|]; [|reflexivity].
  destruct (dict_get rn fd) as [x|]; [|reflexivity].
  destruct (dict_get f fields); reflexivity.
Qed.

(** The fields of a region after all the selected fields are through. *)
Lemma merge_fields_values rn fs : forall fields fields' out,
  merge_fields t rn (JObj fields) fs = (Ok (JObj fields'), out) ->
  forall k, dict_get k fields' = option_map (merged_value t fs rn k) (dict_get k fields).
Proof.
  induction fs as [|f fs IH]; intros fields fields' out; simpl.
  - intros [= <- <-] k. unfold merged_value.
    destruct (in_dec string_dec k []) as [[]|_]. now destruct (dict_get k fields).
  - rewrite merge_field_obj'.
    match goal with |- context [merge_fields t rn ?rc fs] =>
      destruct (merge_fields t rn rc fs) as [r o] eqn:Hrest end.
    intros [= -> <-] k.
    assert (Hstep : exists fields1,
              merge_fields t rn (JObj fields1) fs = (Ok (JObj fields'), o)
              /\ dict_get k fields1 =
                 match dict_get k fields with
                 | Some v => Some (if decide (k = f) then
                                     match table_value t f rn with
                                     | Some x => JFloat x
                                     | None => v
                                     end
                                   else v)
                 | None => None
                 end).
    { destruct (table_value t f rn) as [x|] eqn:Htv.
      - destruct (dict_mem f fields) eqn:Hm.
        + exists (dict_set f (JFloat x) fields). split; [exact Hrest|].
          destruct (decide (k = f)) as [->|Hne].
          * rewrite dict_get_set_eq. unfold dict_mem in Hm.
            destruct (dict_get f fields); [reflexivity|discriminate].
          * rewrite dict_get_set_ne by exact Hne. now destruct (dict_get k fields).
        + exists fields. split; [exact Hrest|].
          destruct (decide (k = f)) as [->|Hne].
          * unfold dict_mem in Hm. destruct (dict_get f fields); [discriminate|reflexivity].
          * now destruct (dict_get k fields).
      - exists fields. split; [exact Hrest|].
        destruct (dict_get k fields); [|reflexivity]. now destruct (decide (k = f)). }
    destruct Hstep as (fields1 & Hrest1 & Hk1).
    rewrite (IH _ _ _ Hrest1 k), Hk1.
    destruct (dict_get k fields) as [v|]; [|reflexivity]. simpl. f_equal.
    unfold merged_value.
    destruct (decide (k = f)) as [->|Hne].
    + destruct (in_dec string_dec f (f :: fs)) as [_|Hn]; [|exfalso; apply Hn; now left].
      destruct (table_value t f rn) as [x|];
        destruct (in_dec string_dec f fs); reflexivity.
    + destruct (in_dec string_dec k fs) as [Hin|Hnin];
        destruct (in_dec string_dec k (f :: fs)) as [Hin'|Hnin']; try reflexivity.
      * exfalso. apply Hnin'. now right.
      * exfalso. destruct Hin' as [Heq|Hin']; [congruence|contradiction].
Qed.
End MergeValues.

(** The document the merge returns is what [merge_json] computes from the
    tree the input reads as. *)
Lemma merge_result_spec t fs h config j :
  dumps h config = Some j -> merge_result t h config fs = fst (merge_json t fs j).
Proof.
  intros Hd. unfold merge_result.
  destruct (merge_refines_dumps t fs h config j Hd) as (res & h' & vout & -> & _ & Hres).
  destruct (fst (merge_json t fs j)) as [j'|e].
  - destruct Hres as (out & -> & Hout). simpl. now rewrite Hout.
  - now subst res.
Qed.

Lemma merge_result_undumpable t fs h config :
  dumps h config = None -> merge_result t h config fs = Raise ValueError.
Proof.
  intros Hd. unfold merge_result. now rewrite run_merge_unfold, Hd.
Qed.

(** X1.  When the merge returns, every region that is a dict has, under
    each of its keys, the table's value for that key and region if the key
    is selected and the table has one, and the value of the input otherwise:
    whatever was there, a number, a string or a nested object, is replaced by
    the float. *)
Theorem merge_writes_table_values (t : table) (fs : list string) (h : heap)
    (config : val) (members regs : list (string * json)) (j' : json) :
  dumps h config = Some (JObj members) ->
  dict_get "regions" members = Some (JObj regs) ->
  merge_result t h config fs = Ok j' ->
  exists members' regs',
    j' = JObj members'
    /\ dict_get "regions" members' = Some (JObj regs')
    /\ forall rn fields, dict_get rn regs = Some (JObj fields) ->
         exists fields',
           dict_get rn regs' = Some (JObj fields')
           /\ forall k, dict_get k fields'
                        = option_map (merged_value t fs rn k) (dict_get k fields).
Proof.
  intros Hd Hg Hres. rewrite (merge_result_spec _ _ _ _ _ Hd) in Hres.
  destruct (merge_json t fs (JObj members)) as [r o] eqn:Hmj. simpl in Hres. subst r.
  destruct (merge_json_Ok _ _ _ _ _ Hmj)
    as [(Hc & _)|(ms & regs0 & regs' & [= <-] & Hgr & Hmr & ->)].
  { simpl in Hc. unfold dict_mem in Hc. rewrite Hg in Hc. discriminate. }
  rewrite Hg in Hgr. injection Hgr as <-.
  exists (dict_set "regions" (JObj regs') members), regs'.
  split; [reflexivity|]. split; [apply dict_get_set_eq|].
  intros rn fields Hrn.
  pose proof (merge_regions_Ok _ _ _ _ _ Hmr) as Hall.
  pose proof (frame_get _ (fun a b (H : _ /\ _) => proj1 H) _ _ rn Hall) as Hget.
  rewrite Hrn in Hget. destruct Hget as (y & Hy & _ & o' & Hmf). simpl in Hmf.
  destruct (merge_fields_obj t rn fs fields) as (fields' & o'' & Hmf').
  rewrite Hmf' in Hmf. injection Hmf as <- <-.
  exists fields'. split; [exact Hy|]. eapply merge_fields_values; eauto.
Qed.

Lemma merge_writes_table_values_witness :
  dumps example_heap example_config = Some example_doc
  /\ merge_result example_table example_heap example_config
       ["full_fill_percent"; "missing"] = Ok example_merged
  /\ exists members' regs',
       example_merged = JObj members'
       /\ dict_get "regions" members' = Some (JObj regs')
       /\ forall rn fields,
            dict_get rn [("A", JObj [("full_fill_percent", JInt 10);
                                     ("name", JStr "left")])] = Some (JObj fields) ->
            exists fields',
              dict_get rn regs' = Some (JObj fields')
              /\ forall k, dict_get k fields'
                           = option_map
                               (merged_value example_table
                                  ["full_fill_percent"; "missing"] rn k)
                               (dict_get k fields).
Proof.
  split; [reflexivity|]. split; [reflexivity|].
  apply (merge_writes_table_values example_table ["full_fill_percent"; "missing"]
           example_heap example_config
           [("regions",
             JObj [("A", JObj [("full_fill_percent", JInt 10); ("name", JStr "left")])]);
            ("version", JInt 2)]); reflexivity.
Defined.

(** ** The exceptions of the merge *)

Section MergeRaises.
Variable t : table.

Lemma merge_field_raises rn rc f e out :
  merge_field t rn rc f = (Raise e, out) -> e = TypeError /\ out = [].
Proof.
  unfold merge_field.
  destruct (dict_get f t) as [fd|]; [|discriminate].
  destruct (dict_get rn fd) as [x|]; [|discriminate].
  destruct rc; simpl; try (intros [= <- <-]; auto); try discriminate.
  - destruct (str_contains f s); [intros [= <- <-]; auto|discriminate].
  - destruct (existsb (json_is_str f) elems); [intros [= <- <-]; auto|discriminate].
  - destruct (dict_mem f members) eqn:Hm; [|discriminate].
    unfold dict_mem in Hm. destruct (dict_get f members); discriminate.
Qed.

Lemma merge_fields_raises rn fs : forall rc e out,
  merge_fields t rn rc fs = (Raise e, out) -> e = TypeError.
Proof.
  induction fs as [|f fs IH]; intros rc e out; simpl; [discriminate|].
  destruct (merge_field t rn rc f) as [[rc1|e1] out1] eqn:Hstep.
  - destruct (merge_fields t rn rc1 fs) as [r o] eqn:Hrest.
    intros [= -> <-]. eauto.
  - intros [= <- <-]. now apply merge_field_raises in Hstep.
Qed.

Lemma merge_regions_raises fs regs : forall e out,
  merge_regions t fs regs = (Raise e, out) -> e = TypeError.
Proof.
  induction regs as [|[rn rc] regs IH]; intros e out; simpl; [discriminate|].
  destruct (merge_fields t rn rc fs) as [[rc1|e1] out1] eqn:Hf.
  - destruct (merge_regions t fs regs) as [[regs1|e2] out2] eqn:Hr; simpl;
      [discriminate|].
    intros [= <- <-]. eauto.
  - intros [= <- <-]. now apply merge_fields_raises in Hf.
Qed.

Lemma merge_json_raises fs j e out :
  merge_json t fs j = (Raise e, out) ->
  (e = AttributeError
   /\ exists members jr, j = JObj members /\ dict_get "regions" members = Some jr
                         /\ forall regs, jr <> JObj regs)
  \/ e = TypeError.
Proof.
  unfold merge_json.
  destruct (json_contains "regions" j) as [[|]|e0] eqn:Hc.
  - destruct (json_getitem j "regions") as [jr|e1] eqn:Hg.
    + destruct j as [| | | | | |members]; simpl in Hg; try discriminate.
      destruct (dict_get "regions" members) as [jr'|] eqn:Hgm; [|discriminate].
      injection Hg as ->.
      destruct (json_items jr) as [regs|e2] eqn:Hi.
      * destruct (merge_regions t fs regs) as [[regs'|e3] out'] eqn:Hr; simpl;
          [discriminate|].
        intros [= <- <-]. right. eapply merge_regions_raises; eauto.
      * intros [= <- <-]. left.
        destruct jr; simpl in Hi; try discriminate; injection Hi as <-;
          (split; [reflexivity|]); exists members; eexists; (split; [reflexivity|]);
          (split; [exact Hgm|]); discriminate.
    + intros [= <- <-]. right.
      destruct j; simpl in Hg, Hc; try discriminate; try (now injection Hg as <-).
      unfold dict_mem in Hc. destruct (dict_get "regions" members); discriminate.
  - discriminate.
  - intros [= <- <-]. right. destruct j; simpl in Hc; congruence.
Qed.
End MergeRaises.

(** X2.  The lookups of the merge never raise [KeyError]: each of them comes
    after a test that the key is there.  [AttributeError] leaves the merge
    only when the input was serialised and its [regions] is there and is not
    a dict. *)
Theorem merge_exceptions (t : table) (fs : list string) (h : heap) (config : val)
    (e : exn) :
  merge_result t h config fs = Raise e ->
  e <> KeyError
  /\ (e = AttributeError ->
        exists members jr,
          dumps h config = Some (JObj members)
          /\ dict_get "regions" members = Some jr
          /\ forall regs, jr <> JObj regs).
Proof.
  intros Hres. destruct (dumps h config) as [j|] eqn:Hd.
  - rewrite (merge_result_spec _ _ _ _ _ Hd) in Hres.
    destruct (merge_json t fs j) as [r o] eqn:Hmj. simpl in Hres. subst r.
    destruct (merge_json_raises _ _ _ _ _ Hmj)
      as [(-> & members & jr & -> & Hg & Hno)| ->].
    + split; [discriminate|]. intros _. exists members, jr. auto.
    + split; discriminate.
  - rewrite (merge_result_undumpable _ _ _ _ Hd) in Hres. injection Hres as <-.
    split; discriminate.
Qed.

Lemma merge_exceptions_witness :
  merge_result [("f", [("A", example_value)])] [ODict [("regions", VInt 5)]] (VRef 0) ["f"]
  = Raise AttributeError
  /\ AttributeError <> KeyError
  /\ (AttributeError = AttributeError ->
      exists members jr,
        dumps [ODict [("regions", VInt 5)]] (VRef 0) = Some (JObj members)
        /\ dict_get "regions" members = Some jr
        /\ forall regs, jr <> JObj regs).
Proof.
  split; [reflexivity|].
  apply (merge_exceptions [("f", [("A", example_value)])] ["f"]
           [ODict [("regions", VInt 5)]] (VRef 0) AttributeError).
  reflexivity.
Defined.

(** ** The order of the selector *)

Lemma rbind_assoc {A B C} (r : result A) (f : A -> result B) (g : B -> result C) :
  rbind (rbind r f) g = rbind r (fun a => rbind (f a) g).
Proof. now destruct r. Qed.

Lemma rbind_ext {A B} (r : result A) (f g : A -> result B) :
  (forall a, f a = g a) -> rbind r f = rbind r g.
Proof. intros Hfg. destruct r; simpl; auto. Qed.

Section DictCommute.
Context {K V : Type} `{EqDecision K}.
Implicit Types (d : list (K * V)) (k : K) (v : V).

Lemma dict_mem_set_mem d k k' v :
  dict_mem k' d = true -> dict_mem k (dict_set k' v d) = dict_mem k d.
Proof.
  unfold dict_mem. intros Hm. destruct (decide (k = k')) as [->|Hne].
  - rewrite dict_get_set_eq. now destruct (dict_get k' d).
  - now rewrite dict_get_set_ne.
Qed.

Lemma dict_set_comm d k k' v v' :
  k <> k' -> dict_mem k d = true -> dict_mem k' d = true ->
  dict_set k v (dict_set k' v' d) = dict_set k' v' (dict_set k v d).
Proof.
  unfold dict_mem. intros Hne.
  induction d as [|[k0 v0] d IH]; simpl; [discriminate|].
  destruct (decide (k = k0)) as [->|Hk], (decide (k' = k0)) as [->|Hk']; simpl.
  - congruence.
  - intros _ _. destruct (decide (k0 = k0)); [|congruence].
    destruct (decide (k' = k0)); [congruence|reflexivity].
  - intros _ _. destruct (decide (k0 = k0)); [|congruence].
    destruct (decide (k = k0)); [congruence|reflexivity].
  - intros Hm Hm'. destruct (decide (k = k0)); [congruence|].
    destruct (decide (k' = k0)); [congruence|]. f_equal. auto.
Qed.
End DictCommute.

Section SelectorOrder.
Variable t : table.

Lemma merge_fields_fst_cons rn rc f fs :
  fst (merge_fields t rn rc (f :: fs))
  = rbind (fst (merge_field t rn rc f)) (fun rc' => fst (merge_fields t rn rc' fs)).
Proof.
  simpl. destruct (merge_field t rn rc f) as [[rc1|e] out]; [|reflexivity].
  simpl. destruct (merge_fields t rn rc1 fs); reflexivity.
Qed.

Lemma merge_field_other_cases rn rc f :
  (forall fields, rc <> JObj fields) ->
  fst (merge_field t rn rc f) = Ok rc \/ fst (merge_field t rn rc f) = Raise TypeError.
Proof.
  intros Hno. destruct (merge_field t rn rc f) as [[rc1|e] out] eqn:Hstep; simpl.
  - left. now destruct (merge_field_other _ _ _ _ _ _ Hno Hstep) as [-> _].
  - right. now destruct (merge_field_raises _ _ _ _ _ _ Hstep) as [-> _].
Qed.

(** Two steps commute. *)
Lemma merge_field_comm rn rc f g :
  rbind (fst (merge_field t rn rc f)) (fun rc' => fst (merge_field t rn rc' g))
  = rbind (fst (merge_field t rn rc g)) (fun rc' => fst (merge_field t rn rc' f)).
Proof.
  assert (Hcase : (exists fields, rc = JObj fields) \/ forall fields, rc <> JObj fields).
  { destruct rc; try (right; discriminate). left; eauto. }
  destruct Hcase as [[fields ->]|Hno].
  - destruct (decide (f = g)) as [->|Hne]; [reflexivity|].
    rewrite !merge_field_obj'. cbn [fst rbind].
    destruct (table_value t f rn) as [x|] eqn:Hx;
      destruct (table_value t g rn) as [y|] eqn:Hy;
      destruct (dict_mem f fields) eqn:Hf; destruct (dict_mem g fields) eqn:Hg;
      rewrite !merge_field_obj'; cbn [fst];
      rewrite ?Hx, ?Hy, ?dict_mem_set_mem by assumption; rewrite ?Hf, ?Hg;
      try reflexivity.
    do 2 f_equal. symmetry. now apply dict_set_comm.
  - destruct (merge_field_other_cases rn rc f Hno) as [Hf|Hf],
      (merge_field_other_cases rn rc g Hno) as [Hg|Hg];
      rewrite ?Hf, ?Hg; simpl; rewrite ?Hf, ?Hg; reflexivity.
Qed.
Lemma merge_fields_perm rn fs fs' :
  Permutation fs fs' ->
  forall rc, fst (merge_fields t rn rc fs) = fst (merge_fields t rn rc fs').
Proof.
  induction 1 as [|f fs fs' _ IH|f g fs|fs1 fs2 fs3 _ IH1 _ IH2]; intros rc.
  - reflexivity.
  - rewrite !merge_fields_fst_cons. apply rbind_ext. exact IH.
  - rewrite !merge_fields_fst_cons.
    rewrite (rbind_ext _ _ _ (fun rc' => merge_fields_fst_cons rn rc' f fs)).
    rewrite (rbind_ext (fst (merge_field t rn rc f)) _ _
               (fun rc' => merge_fields_fst_cons rn rc' g fs)).
    rewrite <- !rbind_assoc. now rewrite merge_field_comm.
  - now rewrite IH1.
Qed.

(** A step done twice is a step done once. *)
Lemma merge_field_twice rn rc f :
  rbind (fst (merge_field t rn rc f)) (fun rc' => fst (merge_field t rn rc' f))
  = fst (merge_field t rn rc f).
Proof.
  assert (Hcase : (exists fields, rc = JObj fields) \/ forall fields, rc <> JObj fields).
  { destruct rc; try (right; discriminate). left; eauto. }
  destruct Hcase as [[fields ->]|Hno].
  - rewrite !merge_field_obj'. cbn [fst rbind].
    destruct (table_value t f rn) as [x|] eqn:Hx;
      destruct (dict_mem f fields) eqn:Hf;
      rewrite !merge_field_obj'; cbn [fst];
      rewrite ?Hx, ?dict_mem_set_mem by assumption; rewrite ?Hf; try reflexivity.
    now rewrite dict_set_set.
  - destruct (merge_field_other_cases rn rc f Hno) as [Hf|Hf];
      rewrite Hf; simpl; rewrite ?Hf; reflexivity.
Qed.

Lemma merge_fields_absorb rn f fs :
  In f fs ->
  forall rc, fst (merge_fields t rn rc (f :: fs)) = fst (merge_fields t rn rc fs).
Proof.
  intros Hin rc. apply in_split in Hin. destruct Hin as (fs1 & fs2 & ->).
  assert (Hperm : Permutation (fs1 ++ f :: fs2) (f :: fs1 ++ fs2))
    by (symmetry; apply Permutation_middle).
  rewrite (merge_fields_perm rn _ _ Hperm rc).
  rewrite (merge_fields_perm rn _ _ (perm_skip f Hperm) rc).
  rewrite !merge_fields_fst_cons.
  rewrite (rbind_ext _ _ _ (fun rc' => merge_fields_fst_cons rn rc' f (fs1 ++ fs2))).
  rewrite <- rbind_assoc. now rewrite merge_field_twice.
Qed.

Lemma merge_fields_nodup rn fs :
  forall rc, fst (merge_fields t rn rc fs)
             = fst (merge_fields t rn rc (nodup string_dec fs)).
Proof.
  induction fs as [|f fs IH]; intros rc; [reflexivity|]. simpl nodup.
  destruct (in_dec string_dec f fs) as [Hin|Hnin].
  - rewrite merge_fields_absorb by exact Hin. apply IH.
  - rewrite !merge_fields_fst_cons. apply rbind_ext. exact IH.
Qed.

Lemma merge_fields_same_set rn fs fs' :
  (forall f, In f fs <-> In f fs') ->
  forall rc, fst (merge_fields t rn rc fs) = fst (merge_fields t rn rc fs').
Proof.
  intros Hsame rc. rewrite (merge_fields_nodup rn fs), (merge_fields_nodup rn fs').
  apply merge_fields_perm.
  apply Stdlib.Sorting.Permutation.NoDup_Permutation; try apply List.NoDup_nodup.
  intros f. rewrite !nodup_In. apply Hsame.
Qed.

Lemma merge_regions_fst_ext fs fs' regs :
  (forall rn rc, fst (merge_fields t rn rc fs) = fst (merge_fields t rn rc fs')) ->
  fst (merge_regions t fs regs) = fst (merge_regions t fs' regs).
Proof.
  intros Hext. induction regs as [|[rn rc] regs IH]; simpl; [reflexivity|].
  pose proof (Hext rn rc) as Hrc.
  destruct (merge_fields t rn rc fs) as [[rc1|e1] o1],
    (merge_fields t rn rc fs') as [[rc2|e2] o2]; simpl in Hrc; try discriminate.
  - injection Hrc as <-.
    destruct (merge_regions t fs regs) as [r o], (merge_regions t fs' regs) as [r' o'].
    simpl in *. now subst r'.
  - now injection Hrc as <-.
Qed.

Lemma merge_json_fst_ext fs fs' j :
  (forall rn rc, fst (merge_fields t rn rc fs) = fst (merge_fields t rn rc fs')) ->
  fst (merge_json t fs j) = fst (merge_json t fs' j).
Proof.
  intros Hext. unfold merge_json.
  destruct (json_contains "regions" j) as [[|]|e]; try reflexivity.
  destruct (json_getitem j "regions") as [jr|e]; [|reflexivity].
  destruct (json_items jr) as [regs|e]; [|reflexivity].
  pose proof (merge_regions_fst_ext fs fs' regs Hext) as Hregs.
  destruct (merge_regions t fs regs) as [r o], (merge_regions t fs' regs) as [r' o'].
  simpl in *. now subst r'.
Qed.
End SelectorOrder.

(** X3.  The document the merge returns, or the exception it raises,
    depends only on which fields the selector names: neither their order nor
    a field named twice makes a difference. *)
Theorem merge_selector_set (t : table) (fs fs' : list string) (h : heap)
    (config : val) :
  (forall f, In f fs <-> In f fs') ->
  merge_result t h config fs = merge_result t h config fs'.
Proof.
  intros Hsame. destruct (dumps h config) as [j|] eqn:Hd.
  - rewrite !(merge_result_spec _ _ _ _ _ Hd).
    apply merge_json_fst_ext. intros rn rc. now apply merge_fields_same_set.
  - now rewrite !merge_result_undumpable.
Qed.

Lemma merge_selector_set_witness :
  (forall f, In f ["full_fill_percent"; "name"; "full_fill_percent"]
             <-> In f ["name"; "full_fill_percent"])
  /\ merge_result example_table example_heap example_config
       ["full_fill_percent"; "name"; "full_fill_percent"]
     = merge_result example_table example_heap example_config
         ["name"; "full_fill_percent"].
Proof.
  assert (Hsame : forall f, In f ["full_fill_percent"; "name"; "full_fill_percent"]
                            <-> In f ["name"; "full_fill_percent"])
    by (intros f; simpl; tauto).
  split; [exact Hsame|].
  apply (merge_selector_set example_table _ _ example_heap example_config Hsame).
Defined.

(** ** What the merge prints *)

Lemma flat_map_ext_on {A B} (f g : A -> list B) xs :
  (forall x, In x xs -> f x = g x) -> flat_map f xs = flat_map g xs.
Proof.
  induction xs as [|x xs IH]; intros Hfg; simpl; [reflexivity|].
  rewrite (Hfg x) by now left. f_equal. apply IH. intros; apply Hfg. now right.
Qed.

Section MergeMessages.
Variable t : table.

Lemma field_messages_ext rn fields fields' f :
  dict_get f fields' = dict_get f fields ->
  field_messages t rn fields' f = field_messages t rn fields f.
Proof. unfold field_messages. now intros ->. Qed.

Lemma merge_fields_messages rn fs : forall fields,
  List.NoDup fs ->
  snd (merge_fields t rn (JObj fields) fs) = flat_map (field_messages t rn fields) fs.
Proof.
  induction fs as [|f fs IH]; intros fields Hnd; [reflexivity|].
  apply List.NoDup_cons_iff in Hnd. destruct Hnd as [Hnotin Hnd].
  simpl. rewrite merge_field_obj'.
  match goal with |- context [merge_fields t rn ?rc fs] =>
    assert (Hrest : snd (merge_fields t rn rc fs)
                    = flat_map (field_messages t rn fields) fs) end.
  { assert (Hsame : forall fields1,
              (forall k, k <> f -> dict_get k fields1 = dict_get k fields) ->
              snd (merge_fields t rn (JObj fields1) fs)
              = flat_map (field_messages t rn fields) fs).
    { intros fields1 Hk. rewrite (IH fields1 Hnd).
      apply flat_map_ext_on. intros f' Hin. apply field_messages_ext, Hk.
      intros ->. contradiction. }
    destruct (table_value t f rn) as [x|]; [destruct (dict_mem f fields)|];
      apply Hsame; intros k Hk; auto using dict_get_set_ne. }
  match goal with |- context [merge_fields t rn ?rc fs] =>
    destruct (merge_fields t rn rc fs) as [r o] end.
  simpl in *. now subst o.
Qed.

Lemma merge_regions_messages fs regs :
  List.NoDup fs ->
  Forall (fun r => exists fields, snd r = JObj fields) regs ->
  snd (merge_regions t fs regs) = flat_map (region_messages t fs) regs.
Proof.
  intros Hnd. induction 1 as [|[rn rc] regs [fields Hrc] _ IH]; [reflexivity|].
  simpl in Hrc. subst rc. simpl.
  pose proof (merge_fields_messages rn fs fields Hnd) as Hm.
  destruct (merge_fields_obj t rn fs fields) as (fields' & o & Hmf).
  rewrite Hmf in Hm |- *. simpl in Hm. subst o.
  destruct (merge_regions t fs regs) as [r o']. simpl in *. subst o'.
  reflexivity.
Qed.
End MergeMessages.

(** X4.  On a document whose regions are dicts, with a selector that names
    no field twice, the merge returns and prints, region by region in the
    order of the document and field by field in the order of the selector:
    nothing for a field the table has no value for in that region, a warning
    for a field the region lacks, and otherwise one change record whose old
    value reads as the value of the input and whose new value is the
    table's. *)
Theorem merge_prints (t : table) (fs : list string) (h : heap) (config : val)
    (members regs : list (string * json)) :
  dumps h config = Some (JObj members) ->
  dict_get "regions" members = Some (JObj regs) ->
  Forall (fun r => exists fields, snd r = JObj fields) regs ->
  List.NoDup fs ->
  exists out st,
    run_merge t h config fs = (Ok out, st)
    /\ Forall2 (message_reads (st_heap st))
               (flat_map (region_messages t fs) regs) (st_out st).
Proof.
  intros Hd Hg Hregs Hnd.
  destruct (merge_refines_dumps t fs h config _ Hd) as (res & h' & vout & Hrun & Hmsg & Hres).
  destruct (merge_regions_objs t fs regs Hregs) as (regs' & o & Hmr).
  pose proof (merge_regions_messages t fs regs Hnd Hregs) as Ho.
  rewrite Hmr in Ho. simpl in Ho. subst o.
  unfold merge_json in Hres, Hmsg. simpl in Hres, Hmsg. unfold dict_mem in Hres, Hmsg.
  rewrite Hg in Hres, Hmsg. simpl in Hres, Hmsg. rewrite Hmr in Hres, Hmsg.
  simpl in Hres, Hmsg. destruct Hres as (out & -> & _).
  exists out, (State h' vout). split; [exact Hrun|exact Hmsg].
Qed.

Lemma merge_prints_witness :
  dumps example_heap example_config = Some example_doc
  /\ exists out st,
       run_merge example_table example_heap example_config
         ["missing"; "full_fill_percent"; "absent"] = (Ok out, st)
       /\ Forall2 (message_reads (st_heap st))
            [Updated "A" "full_fill_percent" (JInt 10) example_value]
            (st_out st).
Proof.
  split; [reflexivity|].
  apply (merge_prints example_table ["missing"; "full_fill_percent"; "absent"]
           example_heap example_config
           [("regions",
             JObj [("A", JObj [("full_fill_percent", JInt 10); ("name", JStr "left")])]);
            ("version", JInt 2)]
           [("A", JObj [("full_fill_percent", JInt 10); ("name", JStr "left")])]
           eq_refl eq_refl).
  - repeat constructor. simpl. eauto.
  - repeat (apply List.NoDup_cons; [simpl; intuition discriminate|]).
    apply List.NoDup_nil.
Defined.

(** ** Sharing in the input, and tables that do not apply *)

(** X5.  What the merge returns depends on what the input reads as, not on
    how its objects are laid out or shared: two inputs that [json.dumps]
    writes the same way get the same result.  In particular regions that are
    one and the same dict in the input are merged each on its own. *)
Theorem merge_ignores_sharing (t : table) (fs : list string) (h h' : heap)
    (config config' : val) :
  dumps h config = dumps h' config' ->
  merge_result t h config fs = merge_result t h' config' fs.
Proof.
  intros Hsame. destruct (dumps h config) as [j|] eqn:Hd.
  - now rewrite (merge_result_spec _ _ _ _ _ Hd),
      (merge_result_spec t fs h' config' j (eq_sym Hsame)).
  - now rewrite !merge_result_undumpable.
Qed.

Lemma merge_ignores_sharing_witness :
  let shared := [ODict [("f", VInt 1)]; ODict [("A", VRef 0); ("B", VRef 0)];
                 ODict [("regions", VRef 1)]] in
  let apart := [ODict [("f", VInt 1)]; ODict [("f", VInt 1)];
                ODict [("A", VRef 0); ("B", VRef 1)]; ODict [("regions", VRef 2)]] in
  dumps shared (VRef 2) = dumps apart (VRef 3)
  /\ merge_result [("f", [("A", example_value)])] shared (VRef 2) ["f"]
     = merge_result [("f", [("A", example_value)])] apart (VRef 3) ["f"]
  /\ merge_result [("f", [("A", example_value)])] shared (VRef 2) ["f"]
     = Ok (JObj [("regions", JObj [("A", JObj [("f", JFloat example_value)]);
                                   ("B", JObj [("f", JInt 1)])])]).
Proof.
  split; [reflexivity|]. split; [|reflexivity].
  apply (merge_ignores_sharing [("f", [("A", example_value)])] ["f"]
           [ODict [("f", VInt 1)]; ODict [("A", VRef 0); ("B", VRef 0)];
            ODict [("regions", VRef 1)]]
           [ODict [("f", VInt 1)]; ODict [("f", VInt 1)];
            ODict [("A", VRef 0); ("B", VRef 1)]; ODict [("regions", VRef 2)]]
           (VRef 2) (VRef 3)).
  reflexivity.
Defined.

Section NothingSelected.
Variables (t : table) (fs : list string).
Hypothesis no_rows : forall f, In f fs -> dict_get f t = None.

Lemma merge_fields_no_rows rn rc : merge_fields t rn rc fs = (Ok rc, []).
Proof.
  revert no_rows. clear. induction fs as [|f fs' IH]; intros Hno; [reflexivity|].
  simpl. unfold merge_field. rewrite (Hno f) by now left.
  rewrite IH by (intros; apply Hno; now right). reflexivity.
Qed.

Lemma merge_regions_no_rows regs : merge_regions t fs regs = (Ok regs, []).
Proof.
  induction regs as [|[rn rc] regs IH]; [reflexivity|].
  simpl. rewrite merge_fields_no_rows, IH. reflexivity.
Qed.
End NothingSelected.

(** X6.  When the table has no row for any selected field (an empty
    selector and an empty table are two such cases) and [regions] is a dict,
    the merge returns a copy that reads as the input and prints nothing,
    whatever the entries of [regions] are. *)
Theorem merge_without_rows (t : table) (fs : list string) (h : heap) (config : val)
    (members regs : list (string * json)) :
  dumps h config = Some (JObj members) ->
  dict_get "regions" members = Some (JObj regs) ->
  (forall f, In f fs -> dict_get f t = None) ->
  exists out st,
    run_merge t h config fs = (Ok out, st)
    /\ dumps (st_heap st) out = Some (JObj members)
    /\ st_out st = [].
Proof.
  intros Hd Hg Hno.
  destruct (merge_refines_dumps t fs h config _ Hd) as (res & h' & vout & Hrun & Hmsg & Hres).
  unfold merge_json in Hres, Hmsg. simpl in Hres, Hmsg. unfold dict_mem in Hres, Hmsg.
  rewrite Hg in Hres, Hmsg. simpl in Hres, Hmsg.
  rewrite (merge_regions_no_rows t fs Hno) in Hres, Hmsg. simpl in Hres, Hmsg.
  rewrite (dict_set_same _ _ _ Hg) in Hres.
  destruct Hres as (out & -> & Hout). inversion Hmsg; subst.
  exists out, (State h' []). auto.
Qed.

Lemma merge_without_rows_witness :
  let h := [ODict [("A", VInt 5)]; ODict [("regions", VRef 0)]] in
  dumps h (VRef 1) = Some (JObj [("regions", JObj [("A", JInt 5)])])
  /\ exists out st,
       run_merge [("g", [("A", example_value)])] h (VRef 1) ["f"] = (Ok out, st)
       /\ dumps (st_heap st) out = Some (JObj [("regions", JObj [("A", JInt 5)])])
       /\ st_out st = [].
Proof.
  split; [reflexivity|].
  apply (merge_without_rows [("g", [("A", example_value)])] ["f"]
           [ODict [("A", VInt 5)]; ODict [("regions", VRef 0)]] (VRef 1)
           [("regions", JObj [("A", JInt 5)])] [("A", JInt 5)] eq_refl eq_refl).
  intros f [<-|[]]. reflexivity.
Defined.

(** * Further properties of the loader *)

Section LoaderTable.
Variable py_float : string -> option pyfloat.

Lemma region_data_spec row :
  good_row row -> List.NoDup (dict_keys row) ->
  scan_cells py_float [] row = Ok (region_data py_float row)
  /\ forall region,
       dict_get region (region_data py_float row)
       = recorded py_float region (dict_get (Some region) row).
Proof.
  intros Hg Hn. unfold region_data.
  destruct (process_row_spec py_float [] row Hg Hn) as (rd & -> & Hrd & _). auto.
Qed.

Lemma process_row_region_data t row :
  good_row row -> List.NoDup (dict_keys row) ->
  process_row py_float t row =
  Ok (match row_label row with
      | CStr s => if truthy s then dict_set s (region_data py_float row) t else t
      | _ => t
      end).
Proof.
  intros Hg Hn. destruct (process_row_spec py_float t row Hg Hn) as (rd & Hs & _ & ->).
  unfold region_data. now rewrite Hs.
Qed.

Lemma truthy_ne s : truthy s = true <-> s <> "".
Proof. destruct s; simpl; split; congruence. Qed.

(** The table after some rows, label by label. *)
Lemma process_rows_last rows : forall t label,
  Forall good_row rows -> Forall (fun row => List.NoDup (dict_keys row)) rows ->
  label <> "" ->
  exists t', process_rows py_float t rows = Ok t'
    /\ dict_get label t' =
       match last_labelled label rows with
       | Some row => Some (region_data py_float row)
       | None => dict_get label t
       end.
Proof.
  induction rows as [|row rows IH]; intros t label Hg Hn Hl; simpl; [eauto|].
  inversion Hg; inversion Hn; subst.
  rewrite process_row_region_data by assumption. simpl.
  match goal with |- context [process_rows py_float ?t1 rows] =>
    destruct (IH t1 label) as (t' & Ht' & Hget); auto end.
  exists t'. split; [exact Ht'|]. rewrite Hget.
  destruct (last_labelled label rows); [reflexivity|].
  unfold has_label. destruct (row_label row) as [s| |]; try reflexivity.
  destruct (bool_decide (s = label)) eqn:Hb.
  - apply bool_decide_eq_true in Hb. subst s.
    rewrite (proj2 (truthy_ne label) Hl). apply dict_get_set_eq.
  - apply bool_decide_eq_false in Hb.
    destruct (truthy s); [|reflexivity]. apply dict_get_set_ne. congruence.
Qed.
End LoaderTable.

(** X7.  For every file the loader returns a table, and under each
    non-empty label the table holds the mapping of the last data row that
    carries the label, built from that row alone; a label no row carries is
    not a key of the table. *)
Theorem table_holds_last_rows (py_float : string -> option pyfloat)
    (lines : list (list string)) (label : string) :
  label <> "" ->
  exists t,
    load_calibration_data py_float lines = (Ok t, [])
    /\ dict_get label t
       = option_map (region_data py_float) (last_labelled label (dictreader lines)).
Proof.
  intros Hl. unfold load_calibration_data.
  destruct (process_rows_last py_float (dictreader lines) [] label
              (dictreader_good lines) (dictreader_NoDup lines) Hl) as (t & -> & Hget).
  exists t. split; [reflexivity|]. rewrite Hget.
  now destruct (last_labelled label (dictreader lines)).
Qed.

Lemma table_holds_last_rows_witness :
  "f" <> ""
  /\ exists t,
       load_calibration_data float_of_digits
         [[""; "A"; "B"]; ["f"; "1"; "2"]; ["g"; "4"; "x"]; ["f"; ""; "3"]] = (Ok t, [])
       /\ dict_get "f" t
          = option_map (region_data float_of_digits)
              (last_labelled "f"
                 (dictreader [[""; "A"; "B"]; ["f"; "1"; "2"]; ["g"; "4"; "x"];
                              ["f"; ""; "3"]])).
Proof.
  assert (Hne : "f" <> "") by discriminate.
  split; [exact Hne|].
  apply (table_holds_last_rows float_of_digits
           [[""; "A"; "B"]; ["f"; "1"; "2"]; ["g"; "4"; "x"]; ["f"; ""; "3"]] "f" Hne).
Defined.

(** ** What the table is made of *)

Lemma zip_set_In fieldnames : forall line (d : rowdict) k c,
  In (k, c) (zip_set fieldnames line d) ->
  In (k, c) d
  \/ exists n s, k = Some n /\ c = CStr s /\ In n fieldnames /\ In s line.
Proof.
  induction fieldnames as [|n ns IH]; intros [|s line] d k c; simpl; auto.
  intros Hin. destruct (IH _ _ _ _ Hin) as [Hd|(n' & s' & -> & -> & Hn & Hs)].
  - apply dict_set_In in Hd. destruct Hd as [[-> ->]|Hd]; [|now left].
    right. exists n, s. auto.
  - right. exists n', s'. auto.
Qed.

Lemma fill_In names : forall (d : rowdict) k c,
  In (k, c) (fold_left (fun d key => dict_set (Some key) CNone d) names d) ->
  In (k, c) d \/ c = CNone.
Proof.
  induction names as [|n ns IH]; intros d k c; simpl; auto.
  intros Hin. destruct (IH _ _ _ Hin) as [Hd|Hc]; [|now right].
  apply dict_set_In in Hd. destruct Hd as [[_ ->]|Hd]; auto.
Qed.

(** A cell of a row of the reader is a cell of the line, under a field name
    of the header. *)
Lemma dictreader_row_In fieldnames line n s :
  In (Some n, CStr s) (dictreader_row fieldnames line) ->
  In n fieldnames /\ In s line.
Proof.
  unfold dictreader_row.
  assert (Hz : In (Some n, CStr s) (zip_set fieldnames line []) ->
               In n fieldnames /\ In s line).
  { intros Hin. apply zip_set_In in Hin.
    destruct Hin as [[]|(n' & s' & [= <-] & [= <-] & Hn & Hs)]. auto. }
  destruct (length fieldnames <? length line)%nat.
  - intros Hin. apply dict_set_In in Hin. destruct Hin as [[[=] _]|Hin]; auto.
  - destruct (length line <? length fieldnames)%nat; [|exact Hz].
    intros Hin. apply fill_In in Hin. destruct Hin as [Hin|[=]]; auto.
Qed.

Section LoaderInvariant.
Variable py_float : string -> option pyfloat.

Lemma scan_cells_NoDup row : forall acc rd,
  good_row row -> List.NoDup (dict_keys acc) ->
  scan_cells py_float acc row = Ok rd -> List.NoDup (dict_keys rd).
Proof.
  induction row as [|[k c] row IH]; intros acc rd Hg Hn.
  - simpl. now intros [= <-].
  - inversion Hg as [|? ? Hkc Hg']; subst. simpl in Hkc.
    change (scan_cells py_float acc ((k, c) :: row))
      with (rbind (scan_cell py_float acc (k, c))
                  (fun rd => scan_cells py_float rd row)).
    rewrite (scan_cell_plain py_float acc k c Hkc). cbv beta iota delta [rbind].
    apply IH; [exact Hg'|].
    destruct k as [region|]; [|exact Hn].
    destruct (recorded py_float region (Some c)); [|exact Hn].
    now apply dict_set_keys_NoDup.
Qed.

Lemma region_data_NoDup row :
  good_row row -> List.NoDup (dict_keys row) ->
  List.NoDup (dict_keys (region_data py_float row)).
Proof.
  intros Hg Hn. destruct (region_data_spec py_float row Hg Hn) as [Hs _].
  eapply (scan_cells_NoDup row []); [exact Hg|apply List.NoDup_nil|exact Hs].
Qed.

Lemma region_data_ok rows row label :
  good_row row -> List.NoDup (dict_keys row) -> In row rows -> label <> "" ->
  entry_ok py_float rows (label, region_data py_float row).
Proof.
  intros Hg Hn Hin Hl. split; [exact Hl|]. split; [now apply region_data_NoDup|].
  simpl. intros region x.
  destruct (region_data_spec py_float row Hg Hn) as [_ ->].
  unfold recorded. destruct (dict_get (Some region) row) as [[s| |]|] eqn:Hget;
    try discriminate.
  destruct (truthy region) eqn:Hr; simpl; [|discriminate].
  destruct (truthy s && truthy (strip s)); [|discriminate].
  intros Hx. split; [now apply truthy_ne|]. exists row, s. auto.
Qed.

Lemma process_rows_ok all rows : forall t t',
  Forall good_row rows -> Forall (fun row => List.NoDup (dict_keys row)) rows ->
  (forall row, In row rows -> In row all) ->
  Forall (entry_ok py_float all) t -> List.NoDup (dict_keys t) ->
  process_rows py_float t rows = Ok t' ->
  Forall (entry_ok py_float all) t' /\ List.NoDup (dict_keys t').
Proof.
  induction rows as [|row rows IH]; intros t t' Hg Hn Hsub Ht Hnd; simpl.
  - intros [= <-]. auto.
  - inversion Hg; inversion Hn; subst.
    rewrite process_row_region_data by assumption. simpl.
    apply IH; auto.
    + intros r Hr. apply Hsub. now right.
    + destruct (row_label row) as [s| |]; auto.
      destruct (truthy s) eqn:Hs; auto.
      apply dict_set_Forall; [exact Ht|].
      apply region_data_ok; auto; [apply Hsub; now left|now apply truthy_ne].
    + destruct (row_label row) as [s| |]; auto.
      destruct (truthy s); auto. now apply dict_set_keys_NoDup.
Qed.
End LoaderInvariant.

(** X8.  In the table the loader returns no label occurs twice and none is
    empty; in the mapping of a label no region occurs twice and none is
    empty; every region is a field name of the header, and every value is
    what [float] made of a cell of one of the data lines. *)
Theorem table_is_made_of_cells (py_float : string -> option pyfloat)
    (lines : list (list string)) (t : table) (msgs : list loader_message) :
  load_calibration_data py_float lines = (Ok t, msgs) ->
  List.NoDup (dict_keys t)
  /\ forall label m, In (label, m) t ->
       label <> ""
       /\ List.NoDup (dict_keys m)
       /\ forall region x, dict_get region m = Some x ->
            region <> ""
            /\ exists fieldnames data line s,
                 lines = fieldnames :: data /\ In region fieldnames
                 /\ In line data /\ In s line /\ py_float s = Some x.
Proof.
  unfold load_calibration_data.
  destruct (process_rows py_float [] (dictreader lines)) as [t'|e] eqn:Hp;
    [|discriminate].
  intros [= <- _].
  destruct (process_rows_ok py_float (dictreader lines) (dictreader lines) [] t'
              (dictreader_good lines) (dictreader_NoDup lines) (fun _ H => H)
              (List.Forall_nil _) (List.NoDup_nil _) Hp) as [Hok Hnd].
  split; [exact Hnd|]. intros label m Hin.
  rewrite List.Forall_forall in Hok. destruct (Hok _ Hin) as (Hl & Hm & Hvals).
  split; [exact Hl|]. split; [exact Hm|].
  intros region x Hx. destruct (Hvals region x Hx) as (Hr & row & s & Hrow & Hget & Hf).
  split; [exact Hr|].
  destruct lines as [|fieldnames data]; [destruct Hrow|]. simpl in Hrow.
  apply in_map_iff in Hrow. destruct Hrow as (line & <- & Hline).
  apply list_elem_of_In, list_elem_of_filter in Hline. destruct Hline as [_ Hline].
  apply list_elem_of_In in Hline.
  apply dict_get_In, dictreader_row_In in Hget. destruct Hget as [Hn Hs].
  exists fieldnames, data, line, s. auto.
Qed.

Lemma table_is_made_of_cells_witness :
  load_calibration_data float_of_digits
    [[""; "A"; "B"]; ["f"; "1"; "2"]; ["f"; "3"; ""]]
  = (Ok [("f", [("A", S754_finite false 6755399441055744 (-51))])], [])
  /\ List.NoDup (dict_keys [("f", [("A", S754_finite false 6755399441055744 (-51))])]).
Proof.
  split; [reflexivity|].
  apply (table_is_made_of_cells float_of_digits
           [[""; "A"; "B"]; ["f"; "1"; "2"]; ["f"; "3"; ""]] _ [] eq_refl).
Defined.

(** ** Lines shorter or longer than the header *)

Section DictAppend.
Context {K V : Type} `{EqDecision K}.
Implicit Types (d : list (K * V)) (k : K) (v : V).

Lemma dict_set_absent d k v : dict_get k d = None -> dict_set k v d = d ++ [(k, v)].
Proof.
  induction d as [|[k0 v0] d IH]; simpl; [reflexivity|].
  destruct (decide (k = k0)); [discriminate|]. intros Hg. f_equal. auto.
Qed.

Lemma dict_get_app_other d k k' v :
  k <> k' -> dict_get k (d ++ [(k', v)]) = dict_get k d.
Proof.
  intros Hne. induction d as [|[k0 v0] d IH]; simpl.
  - destruct (decide (k = k')); congruence.
  - destruct (decide (k = k0)); auto.
Qed.
End DictAppend.

Lemma zip_set_take fieldnames : forall line d,
  zip_set fieldnames line d = zip_set fieldnames (take (length fieldnames) line) d.
Proof.
  induction fieldnames as [|n ns IH]; intros [|c line] d; simpl; auto.
Qed.

Lemma zip_set_short fieldnames : forall line d,
  zip_set fieldnames line d = zip_set (take (length line) fieldnames) line d.
Proof.
  induction fieldnames as [|n ns IH]; intros [|c line] d; simpl; auto.
Qed.

Lemma zip_set_app names1 : forall cells1 names2 cells2 d,
  length names1 = length cells1 ->
  zip_set (names1 ++ names2) (cells1 ++ cells2) d
  = zip_set names2 cells2 (zip_set names1 cells1 d).
Proof.
  induction names1 as [|n ns IH]; intros [|c cells1] names2 cells2 d; simpl;
    try discriminate; auto.
Qed.

Lemma zip_set_no_rest fieldnames : forall line (d : rowdict),
  dict_get None d = None -> dict_get None (zip_set fieldnames line d) = None.
Proof.
  induction fieldnames as [|n ns IH]; intros [|c line] d Hd; simpl; auto.
  apply IH. rewrite dict_get_set_ne; [exact Hd|discriminate].
Qed.

Lemma dict_set_equiv (d d' : rowdict) k c c' :
  row_equiv d d' -> cell_equiv c c' ->
  row_equiv (dict_set k c d) (dict_set k c' d').
Proof.
  intros Hd Hc. induction Hd as [|[k0 c0] [k1 c1] d d' [Hk Hcc] H0 IH]; simpl.
  - constructor; [split; [reflexivity|exact Hc]|constructor].
  - simpl in Hk. subst k1.
    destruct (decide (k = k0)).
    + constructor; [split; [reflexivity|exact Hc]|exact H0].
    + constructor; [split; [reflexivity|exact Hcc]|exact IH].
Qed.

Lemma row_equiv_refl row : row_equiv row row.
Proof. induction row; constructor; auto. split; [reflexivity|now left]. Qed.

Lemma fill_equiv names : forall d d' : rowdict,
  row_equiv d d' ->
  row_equiv (fold_left (fun d key => dict_set (Some key) CNone d) names d)
            (zip_set names (replicate (length names) "") d').
Proof.
  induction names as [|n ns IH]; intros d d' Hd; simpl; [exact Hd|].
  apply IH. apply dict_set_equiv; [exact Hd|]. now right.
Qed.

Section RaggedLines.
Variable py_float : string -> option pyfloat.

Lemma cell_value_equiv c c' :
  cell_equiv c c' -> cell_value py_float c = cell_value py_float c'.
Proof. intros [->|[-> ->]]; reflexivity. Qed.

Lemma scan_cells_equiv row row' :
  row_equiv row row' ->
  forall acc, scan_cells py_float acc row = scan_cells py_float acc row'.
Proof.
  induction 1 as [|[k c] [k' c'] row row' [Hk Hc] _ IH]; intros acc; [reflexivity|].
  simpl in Hk, Hc. subst k'. simpl.
  destruct k as [region|]; simpl; [|apply IH].
  rewrite (cell_value_equiv _ _ Hc).
  destruct (truthy region); simpl; [|apply IH].
  destruct (cell_value py_float c') as [[x|]|e]; simpl; auto.
Qed.

Lemma dict_get_equiv row row' k :
  row_equiv row row' ->
  match dict_get k row, dict_get k row' with
  | Some c, Some c' => cell_equiv c c'
  | None, None => True
  | _, _ => False
  end.
Proof.
  induction 1 as [|[k0 c] [k1 c'] row row' [Hk Hc] _ IH]; simpl; [exact I|].
  simpl in Hk, Hc. subst k1. destruct (decide (k = k0)); auto.
Qed.

Lemma process_row_equiv t row row' :
  row_equiv row row' -> process_row py_float t row = process_row py_float t row'.
Proof.
  intros Heq. unfold process_row. rewrite (scan_cells_equiv _ _ Heq).
  apply rbind_ext. intros rd. unfold row_label.
  pose proof (dict_get_equiv _ _ (Some "") Heq) as Hl.
  destruct (dict_get (Some "") row) as [c|], (dict_get (Some "") row') as [c'|];
    try tauto.
  destruct Hl as [->|[-> ->]]; reflexivity.
Qed.

Lemma scan_cells_rest acc (d : rowdict) c :
  scan_cells py_float acc (d ++ [(None, c)]) = scan_cells py_float acc d.
Proof.
  revert acc. induction d as [|item d IH]; intros acc; simpl; [reflexivity|].
  destruct (scan_cell py_float acc item); simpl; auto.
Qed.

Lemma process_row_rest t (d : rowdict) c :
  process_row py_float t (d ++ [(None, c)]) = process_row py_float t d.
Proof.
  unfold process_row, row_label. rewrite scan_cells_rest.
  now rewrite dict_get_app_other by discriminate.
Qed.

(** A line is read as if it were cut, or filled with empty cells, to the
    length of the header. *)
Lemma process_row_resize t fieldnames line :
  process_row py_float t (dictreader_row fieldnames line)
  = process_row py_float t
      (dictreader_row fieldnames (resize (length fieldnames) "" line)).
Proof.
  assert (Hfull : forall line', length line' = length fieldnames ->
            dictreader_row fieldnames line' = zip_set fieldnames line' []).
  { intros line' Hlen. unfold dictreader_row. rewrite Hlen.
    now rewrite Nat.ltb_irrefl. }
  rewrite (Hfull (resize _ _ _)) by apply length_resize.
  unfold dictreader_row.
  destruct (length fieldnames <? length line)%nat eqn:Hlong.
  - apply Nat.ltb_lt in Hlong.
    rewrite dict_set_absent by (now apply zip_set_no_rest).
    rewrite process_row_rest, zip_set_take.
    now rewrite resize_le by lia.
  - apply Nat.ltb_ge in Hlong.
    rewrite resize_ge by exact Hlong.
    destruct (length line <? length fieldnames)%nat eqn:Hshort.
    + apply process_row_equiv.
      rewrite <- (take_drop (length line) fieldnames) at 3.
      rewrite zip_set_app by (rewrite length_take; lia).
      rewrite zip_set_short.
      replace (length fieldnames - length line) with (length (drop (length line) fieldnames))
        by apply length_drop.
      apply fill_equiv, row_equiv_refl.
    + apply Nat.ltb_ge in Hshort.
      replace (length fieldnames - length line) with 0 by lia.
      simpl. now rewrite app_nil_r.
Qed.
End RaggedLines.

Section RaggedFile.
Variable py_float : string -> option pyfloat.

Lemma process_row_blank t fieldnames :
  process_row py_float t (dictreader_row fieldnames []) = Ok t.
Proof.
  rewrite process_row_region_data
    by (apply dictreader_row_good || apply dictreader_row_NoDup).
  unfold row_label.
  destruct (dict_get (Some "") (dictreader_row fieldnames [])) as [c|] eqn:Hg;
    [|reflexivity].
  apply dict_get_In in Hg. unfold dictreader_row in Hg.
  destruct fieldnames as [|n ns]; [destruct Hg|].
  simpl in Hg. apply fill_In in Hg. destruct Hg as [[[= _ <-]|[]]| ->]; reflexivity.
Qed.

Lemma process_rows_resize fieldnames data : forall t,
  process_rows py_float t (dictreader (fieldnames :: data))
  = process_rows py_float t
      (dictreader (fieldnames :: map (resize (length fieldnames) "") data)).
Proof.
  simpl. induction data as [|line data IH]; intros t; [reflexivity|].
  assert (Hstep : forall rows rows' : list rowdict,
            (forall t', process_rows py_float t' rows = process_rows py_float t' rows') ->
            forall row row',
              process_row py_float t row = process_row py_float t row' ->
              process_rows py_float t (row :: rows) = process_rows py_float t (row' :: rows')).
  { intros rows rows' Hrows row row' Hrow. simpl. rewrite Hrow.
    apply rbind_ext. exact Hrows. }
  assert (Hskip : forall rows rows' : list rowdict,
            (forall t', process_rows py_float t' rows = process_rows py_float t' rows') ->
            forall row, process_row py_float t row = Ok t ->
              process_rows py_float t (row :: rows) = process_rows py_float t rows'
              /\ process_rows py_float t rows = process_rows py_float t (row :: rows')).
  { intros rows rows' Hrows row Hrow. simpl. rewrite Hrow. simpl. auto. }
  simpl map. destruct line as [|c line].
  - rewrite filter_cons_False by (simpl; congruence).
    destruct fieldnames as [|n ns].
    + simpl resize. rewrite filter_cons_False by (simpl; congruence). apply IH.
    + rewrite filter_cons_True by (simpl; congruence). simpl map.
      apply (Hskip _ _ IH).
      pose proof (process_row_resize py_float t (n :: ns) []) as Hr.
      rewrite process_row_blank in Hr. symmetry. exact Hr.
  - rewrite filter_cons_True by (simpl; congruence). simpl map.
    destruct fieldnames as [|n ns].
    + simpl resize. rewrite filter_cons_False by (simpl; congruence).
      apply (Hskip _ _ IH).
      rewrite process_row_resize. simpl resize. apply process_row_blank.
    + rewrite filter_cons_True by (simpl; congruence). simpl map.
      apply (Hstep _ _ IH). apply process_row_resize.
Qed.
End RaggedFile.

(** X9.  The loader reads every data line as if it were cut, or filled with
    empty cells, to the length of the header: cells beyond the last column
    are never recorded, and a line that stops early records nothing for the
    columns it does not reach.  ([resize n "" line] is [line] cut to [n]
    cells or filled up to [n] cells with the empty string.) *)
Theorem loader_ragged_lines (py_float : string -> option pyfloat)
    (fieldnames : list string) (data : list (list string)) :
  load_calibration_data py_float (fieldnames :: data)
  = load_calibration_data py_float
      (fieldnames :: map (resize (length fieldnames) "") data).
Proof.
  unfold load_calibration_data. now rewrite process_rows_resize.
Qed.

(** ** Columns of the same name *)

Lemma zip_set_get_other fieldnames n : forall line (d : rowdict),
  ~ In n fieldnames ->
  dict_get (Some n) (zip_set fieldnames line d) = dict_get (Some n) d.
Proof.
  induction fieldnames as [|m ms IH]; intros [|c cs] d Hn; simpl; auto.
  rewrite IH by (simpl in Hn; tauto).
  apply dict_get_set_ne. intros [= <-]. apply Hn. now left.
Qed.

Lemma fill_get_other names n : forall d : rowdict,
  ~ In n names ->
  dict_get (Some n) (fold_left (fun d key => dict_set (Some key) CNone d) names d)
  = dict_get (Some n) d.
Proof.
  induction names as [|m ms IH]; intros d Hn; simpl; auto.
  rewrite IH by (simpl in Hn; tauto).
  apply dict_get_set_ne. intros [= <-]. apply Hn. now left.
Qed.

Lemma fill_get_in names n : forall d : rowdict,
  In n names ->
  dict_get (Some n) (fold_left (fun d key => dict_set (Some key) CNone d) names d)
  = Some CNone.
Proof.
  induction names as [|m ms IH]; intros d; simpl; [tauto|].
  intros Hin. destruct (in_dec string_dec n ms) as [Hms|Hms]; [now apply IH|].
  destruct Hin as [->|Hin]; [|contradiction].
  rewrite fill_get_other by exact Hms. apply dict_get_set_eq.
Qed.

Lemma no_later_not_in {A} (xs : list A) (x : A) :
  (forall j, xs !! j <> Some x) -> ~ In x xs.
Proof.
  intros Hno Hin. apply list_elem_of_In, list_elem_of_lookup in Hin.
  destruct Hin as [j Hj]. now apply (Hno j).
Qed.

Lemma zip_set_get_last fieldnames : forall line (d : rowdict) i n c,
  fieldnames !! i = Some n ->
  (forall j, i < j -> fieldnames !! j <> Some n) ->
  line !! i = Some c ->
  dict_get (Some n) (zip_set fieldnames line d) = Some (CStr c).
Proof.
  induction fieldnames as [|m ms IH]; intros [|c0 cs] d i n c Hi Hlast Hc;
    try discriminate.
  destruct i as [|i]; simpl in *.
  - injection Hi as ->. injection Hc as ->.
    rewrite zip_set_get_other; [apply dict_get_set_eq|].
    apply no_later_not_in. intros j. apply (Hlast (S j)). lia.
  - eapply IH; eauto. intros j Hj. apply (Hlast (S j)). lia.
Qed.

(** X10.  When several columns of the header have the same name, a row
    holds under that name the cell of the rightmost of them, and that cell
    alone decides what the loader records for the region. *)
Theorem rightmost_column_counts (py_float : string -> option pyfloat)
    (fieldnames line : list string) (i : nat) (n : string) :
  fieldnames !! i = Some n ->
  (forall j, i < j -> fieldnames !! j <> Some n) ->
  dict_get (Some n) (dictreader_row fieldnames line) = Some (cell_at line i)
  /\ dict_get n (region_data py_float (dictreader_row fieldnames line))
     = recorded py_float n (Some (cell_at line i)).
Proof.
  intros Hi Hlast.
  assert (Hget : dict_get (Some n) (dictreader_row fieldnames line)
                 = Some (cell_at line i)).
  { unfold dictreader_row, cell_at.
    pose proof (lookup_lt_Some _ _ _ Hi) as Hlt.
    destruct (length fieldnames <? length line)%nat eqn:Hlong.
    - apply Nat.ltb_lt in Hlong.
      rewrite dict_get_set_ne by discriminate.
      destruct (lookup_lt_is_Some_2 line i) as [c Hc]; [lia|].
      rewrite Hc. eapply zip_set_get_last; eauto.
    - destruct (length line <? length fieldnames)%nat eqn:Hshort.
      + destruct (line !! i) as [c|] eqn:Hc.
        * rewrite fill_get_other; [eapply zip_set_get_last; eauto|].
          pose proof (lookup_lt_Some _ _ _ Hc) as Hic.
          apply no_later_not_in. intros j. rewrite lookup_drop.
          apply Hlast. lia.
        * apply lookup_ge_None in Hc. apply fill_get_in.
          apply list_elem_of_In, list_elem_of_lookup.
          exists (i - length line). rewrite lookup_drop.
          now replace (length line + (i - length line)) with i by lia.
      + apply Nat.ltb_ge in Hlong. apply Nat.ltb_ge in Hshort.
        destruct (lookup_lt_is_Some_2 line i) as [c Hc]; [lia|].
        rewrite Hc. eapply zip_set_get_last; eauto. }
  split; [exact Hget|].
  destruct (region_data_spec py_float (dictreader_row fieldnames line)
              (dictreader_row_good _ _) (dictreader_row_NoDup _ _)) as [_ ->].
  now rewrite Hget.
Qed.

Lemma rightmost_column_counts_witness :
  ["" ; "A"; "B"; "A"] !! 3 = Some "A"
  /\ (forall j, 3 < j -> [""; "A"; "B"; "A"] !! j <> Some "A")
  /\ dict_get "A" (region_data float_of_digits
                     (dictreader_row [""; "A"; "B"; "A"] ["f"; "1"; "2"; "3"]))
     = float_of_digits "3".
Proof.
  assert (Hlast : forall j, 3 < j -> [""; "A"; "B"; "A"] !! j <> Some "A").
  { intros j Hj. do 4 (destruct j as [|j]; [lia|]). discriminate. }
  split; [reflexivity|]. split; [exact Hlast|].
  destruct (rightmost_column_counts float_of_digits [""; "A"; "B"; "A"]
              ["f"; "1"; "2"; "3"] 3 "A" eq_refl Hlast) as [_ Hrd].
  exact Hrd.
Defined.

(** ** The command line tool *)

Section ToolFacts.
Variable py_float : string -> option pyfloat.
Variable json_parse : string -> option json.
Variable json_text : bool -> json -> string.
Variable csv_rows : string -> option (list (list string)).
Variable writable : string -> bool.
Variable torn : string -> option string.

Local Abbreviation main' :=
  (main py_float json_parse json_text csv_rows writable torn).
Local Abbreviation merged_document' := (merged_document py_float json_parse csv_rows).
Local Abbreviation load_calibration_path' := (load_calibration_path py_float csv_rows).

Lemma read_file_exists w p text : read_file w p = Some text -> path_exists w p = true.
Proof.
  unfold read_file, path_exists, dict_mem.
  now destruct (dict_get p (w_files w)).
Qed.

(** What [main] does once the two files are loaded. *)
Lemma main_loaded cl w a j t :
  parse_arguments cl w = Continue a ->
  load_json_config json_parse w (a_config a) = Continue j ->
  load_calibration_path' w (a_calibration a) = Continue t ->
  exists st,
    Forall2 (message_reads (st_heap st))
            (snd (merge_json t (a_calibration_fields a) j)) (st_out st)
    /\ main' cl w =
       match fst (merge_json t (a_calibration_fields a) j) with
       | Ok j' =>
           if writable (a_output a) then
             (0, World (dict_set (a_output a) (Some (json_text (a_pretty a) j'))
                                 (w_files w))
                       ((w_log w ++ map MergeLine (st_out st)) ++ [WriteOk (a_output a)]))
           else
             match torn (a_output a) with
             | Some partial =>
                 (1, World (dict_set (a_output a) (Some partial) (w_files w))
                           ((w_log w ++ map MergeLine (st_out st)) ++ [WriteError]))
             | None => (1, say [WriteError] (say (map MergeLine (st_out st)) w))
             end
       | Raise e => (1, say (map MergeLine (st_out st) ++ [Traceback e]) w)
       end.
Proof.
  intros Hp Hj Ht. unfold main. rewrite Hp, Hj.
  pose proof (loads_dumps j []) as Hd.
  destruct (loads j []) as [config h]. rewrite Ht.
  destruct (merge_refines_dumps t (a_calibration_fields a) h config j Hd)
    as (res & h' & vout & Hrun & Hmsg & Hres).
  exists (State h' vout). split; [exact Hmsg|]. rewrite Hrun.
  destruct (fst (merge_json t (a_calibration_fields a) j)) as [j'|e].
  - destruct Hres as (out & -> & Hout). unfold save_config. simpl.
    destruct (writable (a_output a)); [|reflexivity]. now rewrite Hout.
  - now subst res.
Qed.

Lemma parse_arguments_Continue cl w a :
  parse_arguments cl w = Continue a ->
  a = namespace cl /\ path_exists w (a_config a) = true
  /\ path_exists w (a_calibration a) = true.
Proof.
  unfold parse_arguments. cbv zeta.
  destruct (path_exists w (a_config (namespace cl))) eqn:Hc; cbn [negb]; [|discriminate].
  destruct (path_exists w (a_calibration (namespace cl))) eqn:Hk; cbn [negb]; [|discriminate].
  intros [= <-]. auto.
Qed.

Lemma parse_arguments_Exit cl w code ls :
  parse_arguments cl w = Exit code ls ->
  code = 2
  /\ ls = [Usage; if path_exists w (a_config (namespace cl))
                  then CalibrationNotFound (a_calibration (namespace cl))
                  else ConfigNotFound (a_config (namespace cl))]
  /\ (path_exists w (a_config (namespace cl)) = false
      \/ path_exists w (a_calibration (namespace cl)) = false).
Proof.
  unfold parse_arguments. cbv zeta.
  destruct (path_exists w (a_config (namespace cl))) eqn:Hc; cbn [negb];
    [|intros [= <- <-]; auto].
  destruct (path_exists w (a_calibration (namespace cl))) eqn:Hk; cbn [negb];
    [discriminate|intros [= <- <-]; auto].
Qed.

Lemma load_json_config_Exit w p code ls :
  load_json_config json_parse w p = Exit code ls ->
  code = 1
  /\ ls = [match read_file w p with Some _ => JsonError | None => ConfigError end]
  /\ (read_file w p = None
      \/ exists text, read_file w p = Some text /\ json_parse text = None).
Proof.
  unfold load_json_config. destruct (read_file w p) as [text|];
    [|intros [= <- <-]; auto].
  destruct (json_parse text) eqn:Hj; [discriminate|]. intros [= <- <-]. eauto 10.
Qed.

Lemma load_calibration_path_Exit w p code ls :
  load_calibration_path' w p = Exit code ls ->
  code = 1 /\ ls = [CalibrationError]
  /\ (read_file w p = None
      \/ exists text, read_file w p = Some text /\ csv_rows text = None).
Proof.
  unfold load_calibration_path. destruct (read_file w p) as [text|];
    [|intros [= <- <-]; auto].
  destruct (csv_rows text) as [lines|] eqn:Hc; [|intros [= <- <-]; eauto 10].
  destruct (load_total py_float lines) as (t & ->). discriminate.
Qed.

(** The run computes a document exactly when the three functions that come
    before the merge go on and the merge, on trees, returns. *)
Lemma merged_document_Some cl w j' out :
  merged_document' cl w = Some (j', out) <->
  exists j t,
    parse_arguments cl w = Continue (namespace cl)
    /\ load_json_config json_parse w (a_config (namespace cl)) = Continue j
    /\ load_calibration_path' w (a_calibration (namespace cl)) = Continue t
    /\ merge_json t (a_calibration_fields (namespace cl)) j = (Ok j', out).
Proof.
  unfold merged_document, load_json_config, load_calibration_path, parse_arguments.
  cbv zeta. set (a := namespace cl). split.
  - destruct (read_file w (a_config a)) as [text|] eqn:Hc; cbn [mbind option_bind negb]; [|discriminate].
    destruct (json_parse text) as [j|]; cbn [mbind option_bind negb]; [|discriminate].
    destruct (read_file w (a_calibration a)) as [ctext|] eqn:Hk; cbn [mbind option_bind negb]; [|discriminate].
    destruct (csv_rows ctext) as [lines|]; cbn [mbind option_bind negb]; [|discriminate].
    destruct (fst (load_calibration_data py_float lines)) as [t|]; [|discriminate].
    destruct (merge_json t (a_calibration_fields a) j) as [[j1|e] o] eqn:Hm;
      [|discriminate].
    intros [= <- <-]. exists j, t.
    rewrite (read_file_exists _ _ _ Hc), (read_file_exists _ _ _ Hk). auto.
  - intros (j & t & _ & Hj & Ht & Hm).
    destruct (read_file w (a_config a)) as [text|]; cbn [mbind option_bind negb]; [|discriminate].
    destruct (json_parse text) as [j0|]; cbn [mbind option_bind negb]; [|discriminate].
    injection Hj as ->.
    destruct (read_file w (a_calibration a)) as [ctext|]; cbn [mbind option_bind negb]; [|discriminate].
    destruct (csv_rows ctext) as [lines|]; cbn [mbind option_bind negb]; [|discriminate].
    destruct (fst (load_calibration_data py_float lines)) as [t0|]; [|discriminate].
    injection Ht as ->. now rewrite Hm.
Qed.

(** The ways [main] ends. *)
Lemma main_cases cl w :
  (main' cl w
   = (2, say [Usage; if path_exists w (a_config (namespace cl))
                     then CalibrationNotFound (a_calibration (namespace cl))
                     else ConfigNotFound (a_config (namespace cl))] w)
   /\ (path_exists w (a_config (namespace cl)) = false
       \/ path_exists w (a_calibration (namespace cl)) = false))
  \/ (parse_arguments cl w = Continue (namespace cl)
      /\ ((exists l, main' cl w = (1, say [l] w) /\ merged_document' cl w = None)
          \/ exists j t st,
               load_json_config json_parse w (a_config (namespace cl)) = Continue j
               /\ load_calibration_path' w (a_calibration (namespace cl)) = Continue t
               /\ Forall2 (message_reads (st_heap st))
                     (snd (merge_json t (a_calibration_fields (namespace cl)) j))
                     (st_out st)
               /\ main' cl w =
                  match fst (merge_json t (a_calibration_fields (namespace cl)) j) with
                  | Ok j' =>
                      if writable (a_output (namespace cl)) then
                        (0, World (dict_set (a_output (namespace cl))
                                     (Some (json_text (a_pretty (namespace cl)) j'))
                                     (w_files w))
                                  ((w_log w ++ map MergeLine (st_out st))
                                   ++ [WriteOk (a_output (namespace cl))]))
                      else
                        match torn (a_output (namespace cl)) with
                        | Some partial =>
                            (1, World (dict_set (a_output (namespace cl)) (Some partial)
                                         (w_files w))
                                      ((w_log w ++ map MergeLine (st_out st))
                                       ++ [WriteError]))
                        | None =>
                            (1, say [WriteError] (say (map MergeLine (st_out st)) w))
                        end
                  | Raise e => (1, say (map MergeLine (st_out st) ++ [Traceback e]) w)
                  end)).
Proof.
  destruct (parse_arguments cl w) as [a|code ls] eqn:Hp.
  - destruct (parse_arguments_Continue _ _ _ Hp) as (-> & _ & _).
    right. split; [reflexivity|].
    destruct (load_json_config json_parse w (a_config (namespace cl)))
      as [j|code ls] eqn:Hj.
    + destruct (load_calibration_path' w (a_calibration (namespace cl)))
        as [t|code ls] eqn:Ht.
      * right. destruct (main_loaded _ _ _ _ _ Hp Hj Ht) as (st & Hmsg & Hmain).
        exists j, t, st. auto.
      * left. destruct (load_calibration_path_Exit _ _ _ _ Ht) as (-> & -> & _).
        eexists. split.
        -- unfold main. rewrite Hp, Hj. destruct (loads j []). now rewrite Ht.
        -- destruct (merged_document' cl w) as [[j' out]|] eqn:Hm; [|reflexivity].
           apply merged_document_Some in Hm. destruct Hm as (? & ? & _ & _ & Ht' & _).
           congruence.
    + left. destruct (load_json_config_Exit _ _ _ _ Hj) as (-> & -> & _).
      eexists. split.
      * unfold main. now rewrite Hp, Hj.
      * destruct (merged_document' cl w) as [[j' out]|] eqn:Hm; [|reflexivity].
        apply merged_document_Some in Hm. destruct Hm as (? & ? & _ & Hj' & _).
        congruence.
  - left. destruct (parse_arguments_Exit _ _ _ _ Hp) as (-> & -> & Hmiss).
    split; [|exact Hmiss]. unfold main. now rewrite Hp.
Qed.

(** A run that computes a document and whose write to the output path
    succeeds. *)
Lemma main_of_document cl w j' out :
  merged_document' cl w = Some (j', out) ->
  writable (a_output (namespace cl)) = true ->
  exists st,
    Forall2 (message_reads (st_heap st)) out (st_out st)
    /\ main' cl w =
       (0, World (dict_set (a_output (namespace cl))
                    (Some (json_text (a_pretty (namespace cl)) j')) (w_files w))
                 ((w_log w ++ map MergeLine (st_out st))
                  ++ [WriteOk (a_output (namespace cl))])).
Proof.
  intros Hm Hw. apply merged_document_Some in Hm.
  destruct Hm as (j & t & Hp & Hj & Ht & Hm).
  destruct (main_loaded _ _ _ _ _ Hp Hj Ht) as (st & Hmsg & Hmain).
  rewrite Hm in Hmsg, Hmain. cbn [fst snd] in Hmsg, Hmain. rewrite Hw in Hmain.
  exists st. auto.
Qed.

(** X11.  On a command line that [argparse] accepts, a run leaves every file
    other than the output path as it was.  The output path is opened only
    after both inputs were loaded and the merge returned: a run that does
    not get a merged document leaves all files as they were.  Writing out
    the document the merge returned never fails for what the document is,
    so a run that ends with a status other than 0 leaves all files as they
    were unless the write broke off after the output file had been opened,
    and then the output file holds what had reached it. *)
Theorem main_touches_output_only (cl : command_line) (w : world) (code : nat)
    (w' : world) :
  main' cl w = (code, w') ->
  (forall p, p <> a_output (namespace cl) ->
             dict_get p (w_files w') = dict_get p (w_files w))
  /\ (merged_document' cl w = None -> w_files w' = w_files w)
  /\ (code <> 0 ->
      w_files w' = w_files w
      \/ exists partial,
           writable (a_output (namespace cl)) = false
           /\ torn (a_output (namespace cl)) = Some partial
           /\ w_files w' = dict_set (a_output (namespace cl)) (Some partial)
                                    (w_files w)).
Proof.
  intros Hmain.
  destruct (main_cases cl w)
    as [(Hm & _)|(Hp & [(l & Hm & _)|(j & t & st & Hj & Ht & _ & Hm)])];
    rewrite Hm in Hmain.
  - injection Hmain as <- <-. auto.
  - injection Hmain as <- <-. auto.
  - destruct (merge_json t (a_calibration_fields (namespace cl)) j) as [[j'|e] o] eqn:Hmj;
      cbn [fst] in Hmain.
    + assert (merged_document' cl w = Some (j', o)) as Hd
        by (apply merged_document_Some; eauto 10).
      destruct (writable (a_output (namespace cl)));
        [|destruct (torn (a_output (namespace cl))) as [partial|]];
        injection Hmain as <- <-; cbn [w_files say].
      * split; [intros p Hne; now apply dict_get_set_ne|]. split; congruence.
      * split; [intros p Hne; now apply dict_get_set_ne|]. split; [congruence|].
        intros _. right. exists partial. auto.
      * auto.
    + injection Hmain as <- <-. auto.
Qed.

(** X12.  The run refines the merge on trees.  When both files can be read
    and parsed and the merge of the parsed tree with the loaded table
    returns, the run ends with status 0 if the write to the output path
    succeeds, the output file then holds the text of the merged tree, and
    the run has printed the lines of the merge followed by the line of
    success; if the write fails it ends with status 1.  In every other case
    the run ends with a status other than 0. *)
Theorem main_writes_merged_document (cl : command_line) (w : world) (code : nat)
    (w' : world) :
  main' cl w = (code, w') ->
  match merged_document' cl w with
  | Some (j', out) =>
      if writable (a_output (namespace cl)) then
        code = 0
        /\ w_files w' = dict_set (a_output (namespace cl))
                           (Some (json_text (a_pretty (namespace cl)) j')) (w_files w)
        /\ exists h msgs,
             Forall2 (message_reads h) out msgs
             /\ w_log w' = w_log w ++ map MergeLine msgs
                                  ++ [WriteOk (a_output (namespace cl))]
      else code = 1
  | None => code <> 0
  end.
Proof.
  intros Hmain.
  destruct (merged_document' cl w) as [[j' out]|] eqn:Hd.
  - destruct (writable (a_output (namespace cl))) eqn:Hw.
    + destruct (main_of_document _ _ _ _ Hd Hw) as (st & Hmsg & Hm).
      rewrite Hm in Hmain. injection Hmain as <- <-. simpl.
      split; [reflexivity|]. split; [reflexivity|].
      exists (st_heap st), (st_out st). split; [exact Hmsg|].
      now rewrite <- app_assoc.
    + apply merged_document_Some in Hd. destruct Hd as (j & t & Hp & Hj & Ht & Hm).
      destruct (main_loaded _ _ _ _ _ Hp Hj Ht) as (st & _ & Hmain').
      rewrite Hm in Hmain'. cbn [fst snd] in Hmain'. rewrite Hw, Hmain in Hmain'.
      destruct (torn (a_output (namespace cl))); congruence.
  - destruct (main_cases cl w)
      as [(Hm & _)|(Hp & [(l & Hm & _)|(j & t & st & Hj & Ht & _ & Hm)])];
      rewrite Hm in Hmain; try (injection Hmain as <- <-; discriminate).
    destruct (merge_json t (a_calibration_fields (namespace cl)) j) as [[j'|e] o] eqn:Hmj.
    + assert (merged_document' cl w = Some (j', o)) as Hd'
        by (apply merged_document_Some; eauto 10).
      congruence.
    + cbn [fst snd] in Hmain. injection Hmain as <- <-. discriminate.
Qed.


(** X14.  Running the tool on its own output changes nothing.  When a run
    computes a document, its write to the output path succeeds, the text it
    writes parses back to the tree it was written from, and the output path
    is not the calibration path, then a second run that takes the output as
    its configuration, with the other options as before, ends with status 0
    and leaves the files as the first run left them. *)
Theorem main_rerun (cl : command_line) (w : world) (j' : json)
    (out : list (message json)) :
  merged_document' cl w = Some (j', out) ->
  writable (a_output (namespace cl)) = true ->
  json_parse (json_text (a_pretty (namespace cl)) j') = Some j' ->
  a_calibration (namespace cl) <> a_output (namespace cl) ->
  fst (main' (rerun cl) (snd (main' cl w))) = 0
  /\ w_files (snd (main' (rerun cl) (snd (main' cl w)))) = w_files (snd (main' cl w)).
Proof.
  intros Hd Hw Hrt Hne.
  destruct (main_of_document _ _ _ _ Hd Hw) as (st & _ & Hm). rewrite Hm. cbn [snd].
  set (files1 := dict_set _ _ _). set (w1 := World files1 _).
  apply merged_document_Some in Hd. destruct Hd as (j & t & _ & _ & Ht & Hmj).
  destruct (merge_json_idem _ _ _ _ _ Hmj) as (out' & Hmj' & _).
  assert (merged_document' (rerun cl) w1 = Some (j', out')) as Hd'.
  { unfold merged_document. cbv zeta.
    change (a_config (namespace (rerun cl))) with (a_output (namespace cl)).
    change (a_calibration (namespace (rerun cl))) with (a_calibration (namespace cl)).
    change (a_calibration_fields (namespace (rerun cl)))
      with (a_calibration_fields (namespace cl)).
    unfold read_file. change (w_files w1) with files1. unfold files1.
    rewrite dict_get_set_eq, dict_get_set_ne by exact Hne.
    cbn [mbind option_bind]. rewrite Hrt. cbn [mbind option_bind].
    unfold load_calibration_path, read_file in Ht.
    destruct (dict_get (a_calibration (namespace cl)) (w_files w)) as [[ctext|]|];
      try discriminate.
    cbn [mbind option_bind].
    destruct (csv_rows ctext) as [lines|]; [|discriminate]. cbn [mbind option_bind].
    destruct (fst (load_calibration_data py_float lines)) as [t0|]; [|discriminate].
    injection Ht as ->. now rewrite Hmj'. }
  assert (a_output (namespace (rerun cl)) = a_output (namespace cl)) as Ho by reflexivity.
  assert (a_pretty (namespace (rerun cl)) = a_pretty (namespace cl)) as Hpr by reflexivity.
  destruct (main_of_document (rerun cl) w1 j' out' Hd') as (st' & _ & Hm');
    [now rewrite Ho|].
  rewrite Hm', Ho, Hpr. cbn [fst snd w_files]. split; [reflexivity|].
  change (w_files w1) with files1. unfold files1. apply dict_set_set.
Qed.

(** X15.  The configuration file is not safe from the run: when the output
    path is the configuration path, the run computes a document and its
    write to that path succeeds, the run ends with status 0 and the
    configuration file holds the text of the merged tree in place of the
    text that was read. *)
Theorem main_overwrites_config (cl : command_line) (w : world) (j' : json)
    (out : list (message json)) :
  a_output (namespace cl) = a_config (namespace cl) ->
  merged_document' cl w = Some (j', out) ->
  writable (a_output (namespace cl)) = true ->
  fst (main' cl w) = 0
  /\ read_file (snd (main' cl w)) (a_config (namespace cl))
     = Some (json_text (a_pretty (namespace cl)) j').
Proof.
  intros Ho Hd Hw. destruct (main_of_document _ _ _ _ Hd Hw) as (st & _ & Hm).
  rewrite Hm. cbn [fst snd]. split; [reflexivity|].
  unfold read_file. cbn [w_files]. now rewrite Ho, dict_get_set_eq.
Qed.

End ToolFacts.

Lemma main_touches_output_only_witness :
  example_main_full example_command_line example_world
  = (1, snd (example_main_full example_command_line example_world))
  /\ (forall p, p <> "output.json" ->
        dict_get p (w_files (snd (example_main_full example_command_line example_world)))
        = dict_get p (w_files example_world))
  /\ (merged_document float_of_digits example_json_parse example_csv_rows
        example_command_line example_world = None ->
      w_files (snd (example_main_full example_command_line example_world))
      = w_files example_world)
  /\ (1 <> 0 ->
      w_files (snd (example_main_full example_command_line example_world))
      = w_files example_world
      \/ exists partial,
           false = false
           /\ Some "" = Some partial
           /\ w_files (snd (example_main_full example_command_line example_world))
              = dict_set "output.json" (Some partial) (w_files example_world)).
Proof.
  split; [vm_compute; reflexivity|].
  apply (main_touches_output_only float_of_digits example_json_parse example_json_text
           example_csv_rows (fun _ => false) (fun _ => Some "") example_command_line
           example_world 1).
  vm_compute; reflexivity.
Defined.

Lemma main_writes_merged_document_witness :
  example_main example_command_line example_world
  = (0, snd (example_main example_command_line example_world))
  /\ match merged_document float_of_digits example_json_parse example_csv_rows
             example_command_line example_world with
     | Some (j', out) =>
         0 = 0
         /\ w_files (snd (example_main example_command_line example_world))
            = dict_set "output.json" (Some (example_json_text false j'))
                       (w_files example_world)
         /\ exists h msgs,
              Forall2 (message_reads h) out msgs
              /\ w_log (snd (example_main example_command_line example_world))
                 = w_log example_world ++ map MergeLine msgs ++ [WriteOk "output.json"]
     | None => 0 <> 0
     end.
Proof.
  split; [vm_compute; reflexivity|].
  apply (main_writes_merged_document float_of_digits example_json_parse
           example_json_text example_csv_rows (fun _ => true) (fun _ => None) example_command_line
           example_world 0).
  vm_compute; reflexivity.
Defined.


Lemma main_rerun_witness :
  merged_document float_of_digits example_json_parse example_csv_rows
    example_command_line example_world
  = Some (example_merged, [Updated "A" "full_fill_percent" (JInt 10) example_value])
  /\ example_json_parse (example_json_text false example_merged) = Some example_merged
  /\ "calibration.csv" <> "output.json"
  /\ fst (example_main (rerun example_command_line)
            (snd (example_main example_command_line example_world))) = 0
  /\ w_files (snd (example_main (rerun example_command_line)
                     (snd (example_main example_command_line example_world))))
     = w_files (snd (example_main example_command_line example_world)).
Proof.
  split; [vm_compute; reflexivity|]. split; [reflexivity|]. split; [discriminate|].
  apply (main_rerun float_of_digits example_json_parse example_json_text
           example_csv_rows (fun _ => true) (fun _ => None) example_command_line example_world
           example_merged [Updated "A" "full_fill_percent" (JInt 10) example_value]);
    [vm_compute; reflexivity|reflexivity|reflexivity|discriminate].
Defined.

Lemma main_overwrites_config_witness :
  read_file example_world "config.json" = Some "doc"
  /\ fst (example_main (CommandLine None None (Some "config.json")
                          (Some ["full_fill_percent"]) false) example_world) = 0
  /\ read_file (snd (example_main (CommandLine None None (Some "config.json")
                                     (Some ["full_fill_percent"]) false) example_world))
               "config.json"
     = Some (example_json_text false example_merged).
Proof.
  split; [reflexivity|].
  apply (main_overwrites_config float_of_digits example_json_parse example_json_text
           example_csv_rows (fun _ => true) (fun _ => None)
           (CommandLine None None (Some "config.json") (Some ["full_fill_percent"]) false)
           example_world example_merged
           [Updated "A" "full_fill_percent" (JInt 10) example_value]);
    [reflexivity|vm_compute; reflexivity|reflexivity].
Defined.
